(** * bkmonitor-datalink: reconciliation control plane

    A shallow embedding of pieces of the repository and the properties
    stated about them:

    - [Target]  : package [target] of the operator (task-id fingerprint of
                  a metric target, [generateTaskID] / [avoidOverflow]);
    - [Task]    : package [task] of the metadata worker ([RefreshESStorage]:
                  load, filter, bounded fan-out);
    - [Service] : package [service] of the metadata worker
                  ([BcsClusterInfoSvc]: cloud-region inference, structural
                  comparison of resource documents, common resource refresh);
    - [TargetExtra], [TaskExtra], [ServiceExtra] : further functions of
                  these packages ([FileName], [sortMap], [RefreshDatasource])
                  and further facts about the ones above;
    - [GseEvent]  : the system events of the transfer pipeline ([Flat],
                  [parseSystemEvent]);
    - [ClusterList], [NodeParser], [HostQuery] : package [service] again
                  ([FetchK8sClusterList], [KubernetesNodeJsonParser],
                  [getPodCountStatistics], [processParams]).

    Go values are rendered as follows: [int], [int64] and [uint64] are [Z]
    (wrap-around written out where the code can overflow), [string] is
    [string] read as its byte sequence, a Go [map] is a [gmap], a slice is
    a [list], [error] is [option error] ([None] is [nil]), and a pointer
    that may be [nil] is an [option]. *)

From Equations Require Import Equations.
From stdpp Require Import gmap strings list fin_maps pretty sorting.
From Stdlib Require Import ZArith Lia.

Open Scope Z_scope.
Set Warnings "-register-all".

(** ** Errors and results shared by the packages *)

(** [k8sErr.StatusError] with code 404 is the only error the code tells
    apart from the others ([ensureDataIdResource]). *)
Inductive error :=
| ErrNotFound (what : string)
| ErrOther (msg : string)
| ErrWrap (msg : string) (cause : error).   (* [errors.Wrap(cause, msg)] *)

Inductive result (A : Type) :=
| Ok (a : A)
| Err (e : error).
Arguments Ok {A} a.
Arguments Err {A} e.

(* ================================================================== *)
(** * Package [target] *)
(* ================================================================== *)

Module Target.

(** [labels.Label] of the Prometheus model. *)
Record Label := { LabelName : string; LabelValue : string }.

(** [define.MonitorMeta]; the declaration is outside the sources at hand,
    these are the fields the target reads ([Meta.Name], [Meta.Namespace],
    [Meta.Index]). *)
Record MonitorMeta := {
  MetaName : string;
  MetaNamespace : string;
  MetaIndex : Z;
}.

(** [MetricTarget]. [TLSConfig], [Params] and [MetricRelabelConfigs] carry
    library types and are read by [YamlBytes] only; they are left out. *)
Record MetricTarget := {
  Meta : MonitorMeta;
  RelabelRule : string;
  RelabelIndex : string;
  NormalizeMetricName : bool;
  Address : string;
  NodeName : string;
  Scheme : string;
  DataID : Z;
  Namespace : string;
  MaxTimeout : string;
  MinPeriod : string;
  Period : string;
  Timeout : string;
  Path : string;
  ProxyURL : string;
  Username : string;
  Password : string;
  BearerTokenFile : string;
  BearerToken : string;
  Labels : list Label;
  ExtraLabels : gmap string string;
  DimensionReplace : gmap string string;
  MetricReplace : gmap string string;
  Mask : string;
  TaskType : string;
  DisableCustomTimestamp : bool;
}.

(** *** [hash/fnv]: the 64-bit FNV-1a state *)

Definition uint64_mod : Z := 2 ^ 64.
Definition offset64 : Z := 14695981039346656037.
Definition prime64 : Z := 1099511628211.

(** [[]byte(s)] *)
Definition bytes (s : string) : list Z :=
  (fun c => Z.of_N (Ascii.N_of_ascii c)) <$> String.list_ascii_of_string s.

(** One round of [sum64a.Write]: [hash ^= uint64(c); hash *= prime64]. *)
Definition fnv_byte (hash c : Z) : Z :=
  (Z.lxor hash c * prime64) mod uint64_mod.

(** [h.Write(data)] on the [sum64a] state. *)
Definition sum64a_Write (hash : Z) (data : list Z) : Z :=
  fold_left fnv_byte data hash.

(** [fmt.Sprintf("%d", n)] *)
Definition sprintf_d (n : Z) : string := pretty n.

(** *** [avoidOverflow] *)

Definition MaxInt32 : Z := 2147483647.

Lemma div50_log2 (num : Z) :
  MaxInt32 < num ->
  (Z.to_nat (Z.log2 (num / 50)) < Z.to_nat (Z.log2 num))%nat.
Proof.
  unfold MaxInt32. intros Hbig.
  assert (Hle : Z.log2 (num / 50) <= Z.log2 (num / 2)).
  { apply Z.log2_le_mono. apply Z.div_le_compat_l; lia. }
  assert (Hhalf : Z.log2 (num / 2) = Z.log2 num - 1).
  { rewrite <- Z.div2_div, Z.div2_spec, Z.log2_shiftr by lia.
    assert (1 <= Z.log2 num) by (apply Z.log2_le_pow2; lia). lia. }
  pose proof (Z.log2_nonneg (num / 50)). lia.
Qed.

(** The recursion of the source, [if num > math.MaxInt32 { return
    avoidOverflow(num / 50) }; return num], is on a quotient, not on a
    subterm: it is justified by the bit length of [num]. *)
Equations? avoidOverflow (num : Z) : Z by wf (Z.to_nat (Z.log2 num)) lt :=
  avoidOverflow num with decide (MaxInt32 < num) => {
    | left _ := avoidOverflow (num / 50);
    | right _ := num }.
Proof. by apply div50_log2. Qed.

(** *** [generateTaskID] *)

Definition write_label (hash : Z) (label : Label) : Z :=
  sum64a_Write (sum64a_Write hash (bytes (LabelName label)))
    (bytes (LabelValue label)).

(** The hash state after all the [h.Write] calls, i.e. [h.Sum64()]. *)
Definition taskIDSum64 (t : MetricTarget) : Z :=
  let h := offset64 in
  let h := sum64a_Write h (bytes (sprintf_d (DataID t))) in
  let h := sum64a_Write h (bytes (Address t)) in
  let h := sum64a_Write h (bytes (Path t)) in
  let h := fold_left write_label (Labels t) h in
  let h := sum64a_Write h (bytes (sprintf_d (MetaIndex (Meta t)))) in
  let h := sum64a_Write h (bytes (Namespace t)) in
  let h := sum64a_Write h (bytes (MetaName (Meta t))) in
  h.

Definition generateTaskID (t : MetricTarget) : Z :=
  avoidOverflow (taskIDSum64 t).

(** [k] successive integer divisions by 50. *)
Definition div50_times (k : nat) (num : Z) : Z :=
  Nat.iter k (fun x => x / 50) num.

End Target.

(* ================================================================== *)
(** * Package [task] *)
(* ================================================================== *)

Module Task.

(** [storage.ESStorage]: a row of the ES storage table, keyed by its
    table identifier. The declaration is outside the sources at hand;
    these are the columns [RefreshESStorage] reads. *)
Record ESStorage := {
  TableID : string;
  StorageClusterID : Z;
}.

(** [resulttable.ResultTable]: a row of the result table, with the
    columns the query of [RefreshESStorage] names. *)
Record ResultTable := {
  TableId : string;
  IsEnable : bool;
  IsDeleted : bool;
}.

#[global] Instance ESStorage_eq_dec : EqDecision ESStorage.
Proof. solve_decision. Defined.

(** The metadata store as one refresh pass sees it: the rows of the two
    tables, and for each of the two queries of the pass whether it fails. *)
Record Database := {
  es_storage_rows : list ESStorage;
  es_storage_fault : option error;
  result_table_rows : list ResultTable;
  result_table_fault : option error;
}.

(** Modelled from the spec: the query set of the ES storage table is
    outside the sources at hand; [NewESStorageQuerySet(db).All(&list)]
    is the metadata query [listWhere] without a predicate: every row, or
    the error of the query. *)
Definition queryAllESStorage (db : Database) : result (list ESStorage) :=
  match es_storage_fault db with
  | Some e => Err e
  | None => Ok (es_storage_rows db)
  end.

(** Modelled from the spec: the query set of the result table is outside
    the sources at hand; [IsEnableEq(true).IsDeletedEq(false).
    TableIdIn(ids...).All(&list)] is the metadata query restricted to
    enabled, non-deleted rows whose table identifier is one of [ids]. *)
Definition queryActiveResultTables (db : Database) (ids : list string)
  : result (list ResultTable) :=
  match result_table_fault db with
  | Some e => Err e
  | None =>
      Ok (filter (fun rt => IsEnable rt = true /\ IsDeleted rt = false
                            /\ TableId rt ∈ ids)
                 (result_table_rows db))
  end.

(** The first loop of [RefreshESStorage]:
    [tableIdEsStorageMap[esStorage.TableID] = esStorage]. *)
Definition tableIdEsStorageMap (allEsStorageList : list ESStorage)
  : gmap string ESStorage :=
  fold_left (fun m esStorage => <[TableID esStorage := esStorage]> m)
            allEsStorageList ∅.

Definition esStorageTableIdList (allEsStorageList : list ESStorage)
  : list string :=
  TableID <$> allEsStorageList.

(** The second loop: one lookup per active result table, in query order. *)
Definition needUpdateEsStorageList (allEsStorageList : list ESStorage)
    (resultTableList : list ResultTable) : list ESStorage :=
  omap (fun rt => tableIdEsStorageMap allEsStorageList !! TableId rt)
       resultTableList.

(** What the part of [RefreshESStorage] before the fan-out decides. *)
Inductive plan :=
| Abort (e : error)                 (* [return err] *)
| Nothing                           (* "no es storage need update" *)
| Dispatch (l : list ESStorage).    (* go on to the fan-out *)

Definition preDispatch (db : Database) : plan :=
  match queryAllESStorage db with
  | Err e => Abort e
  | Ok allEsStorageList =>
      if bool_decide (length (esStorageTableIdList allEsStorageList) = 0%nat)
      then Nothing
      else
        match queryActiveResultTables db
                (esStorageTableIdList allEsStorageList) with
        | Err e => Abort e
        | Ok resultTableList =>
            let l := needUpdateEsStorageList allEsStorageList
                       resultTableList in
            if bool_decide (length l = 0%nat) then Nothing else Dispatch l
        end
  end.

(** The records the pass keeps for dispatch. *)
Definition dispatched (db : Database) : list ESStorage :=
  match preDispatch db with
  | Dispatch l => l
  | Abort _ | Nothing => []
  end.

(** A result table that is enabled and not soft-deleted. *)
Definition active (rt : ResultTable) : Prop :=
  IsEnable rt = true /\ IsDeleted rt = false.

(** *** The fan-out: a buffered channel as semaphore, and a wait group

    The calling goroutine and the workers it starts interleave; one step
    of the relation below is one of their atomic actions. The workers are
    kept by the stage they are in. *)

Inductive pc :=
| PcMake                       (* before [make(chan bool, limit)] *)
| PcSend (rest : list ESStorage)  (* loop head, before [ch <- true] *)
| PcGo (ess : ESStorage) (rest : list ESStorage)
                               (* token sent, before the [go] statement *)
| PcWait                       (* [wg.Wait()] *)
| PcReturned.                  (* [RefreshESStorage] has returned *)

Record state := {
  main : pc;
  chan : Z;                        (* [len(ch)] *)
  wg : Z;                          (* counter of the wait group *)
  running : list ESStorage;        (* inside [ManageESStorage] *)
  reconciled : list ESStorage;     (* outcome logged, before [<-ch] *)
  released : list ESStorage;       (* after [<-ch], before [wg.Done()] *)
  finished : list ESStorage;       (* worker has exited *)
  outcomes : list (ESStorage * option error);
                                   (* the log lines, as they are written *)
}.

Definition init : state :=
  {| main := PcMake; chan := 0; wg := 0; running := []; reconciled := [];
     released := []; finished := []; outcomes := [] |}.

Section FanOut.
(** [GetGoroutineLimit("refresh_es_storage")]; the function is outside
    the sources at hand, its value is a parameter. *)
Variable limit : Z.
(** [ess.ManageESStorage(ctx)], the per-entity reconcile: it returns
    an error or [nil]. (The worker has no [recover] of its own; a panic
    inside the reconcile is not part of this model.) *)
Variable ManageESStorage : ESStorage -> option error.
(** [needUpdateEsStorageList] *)
Variable ents : list ESStorage.

Inductive step : state -> state -> Prop :=
| step_make s :
    main s = PcMake -> 0 <= limit ->
    (* [ch := make(chan bool, limit); wg.Add(len(list))] *)
    step s {| main := PcSend ents; chan := chan s;
              wg := wg s + Z.of_nat (length ents);
              running := running s; reconciled := reconciled s;
              released := released s; finished := finished s;
              outcomes := outcomes s |}
| step_make_panic s :
    main s = PcMake -> limit < 0 ->
    (* [make] panics on a negative size; the deferred [recover] of
       [RefreshESStorage] catches it and the function returns *)
    step s {| main := PcReturned; chan := chan s; wg := wg s;
              running := running s; reconciled := reconciled s;
              released := released s; finished := finished s;
              outcomes := outcomes s |}
| step_send s ess rest :
    main s = PcSend (ess :: rest) -> chan s < limit ->
    (* [ch <- true] goes through when the buffer has room *)
    step s {| main := PcGo ess rest; chan := chan s + 1; wg := wg s;
              running := running s; reconciled := reconciled s;
              released := released s; finished := finished s;
              outcomes := outcomes s |}
| step_go s ess rest :
    main s = PcGo ess rest ->
    step s {| main := PcSend rest; chan := chan s; wg := wg s;
              running := ess :: running s; reconciled := reconciled s;
              released := released s; finished := finished s;
              outcomes := outcomes s |}
| step_loop_end s :
    main s = PcSend [] ->
    step s {| main := PcWait; chan := chan s; wg := wg s;
              running := running s; reconciled := reconciled s;
              released := released s; finished := finished s;
              outcomes := outcomes s |}
| step_reconcile s l1 ess l2 :
    running s = l1 ++ ess :: l2 ->
    (* [ManageESStorage] returns and its outcome is logged *)
    step s {| main := main s; chan := chan s; wg := wg s;
              running := l1 ++ l2; reconciled := ess :: reconciled s;
              released := released s; finished := finished s;
              outcomes := outcomes s ++ [(ess, ManageESStorage ess)] |}
| step_release s l1 ess l2 :
    reconciled s = l1 ++ ess :: l2 ->
    (* deferred [<-ch] *)
    step s {| main := main s; chan := chan s - 1; wg := wg s;
              running := running s; reconciled := l1 ++ l2;
              released := ess :: released s; finished := finished s;
              outcomes := outcomes s |}
| step_done s l1 ess l2 :
    released s = l1 ++ ess :: l2 ->
    (* deferred [wg.Done()] *)
    step s {| main := main s; chan := chan s; wg := wg s - 1;
              running := running s; reconciled := reconciled s;
              released := l1 ++ l2; finished := ess :: finished s;
              outcomes := outcomes s |}
| step_wait s :
    main s = PcWait -> wg s = 0 ->
    (* [wg.Wait()] returns when the counter is zero; [return nil] *)
    step s {| main := PcReturned; chan := chan s; wg := wg s;
              running := running s; reconciled := reconciled s;
              released := released s; finished := finished s;
              outcomes := outcomes s |}.

Inductive reachable : state -> Prop :=
| reach_init : reachable init
| reach_step s s' : reachable s -> step s s' -> reachable s'.

(** Entities of the loop that have no worker yet. *)
Definition pending (s : state) : list ESStorage :=
  match main s with
  | PcMake => ents
  | PcSend rest => rest
  | PcGo ess rest => ess :: rest
  | PcWait | PcReturned => []
  end.

(** Reconcile operations in flight: workers inside [ManageESStorage]. *)
Definition in_flight (s : state) : Z := Z.of_nat (length (running s)).

(** Entities whose reconcile has been executed to its end. *)
Definition completed (s : state) : list ESStorage :=
  (outcomes s).*1.

(** Number of steps the pass can still take. *)
Definition fuel (s : state) : nat :=
  (match main s with
   | PcMake => 5 * length ents + 3
   | PcSend rest => 5 * length rest + 2
   | PcGo _ rest => 5 * length rest + 6
   | PcWait => 1
   | PcReturned => 0
   end
   + 3 * length (running s) + 2 * length (reconciled s)
   + length (released s))%nat.
End FanOut.

(** What a call of [RefreshESStorage] can return: the error of a failed
    query, [nil] when there is nothing to do, and after a fan-out the
    [nil] of the last line (or of the recovered panic). *)
Inductive RefreshESStorage (db : Database) (limit : Z)
    (ManageESStorage : ESStorage -> option error) : option error -> Prop :=
| refresh_abort e :
    preDispatch db = Abort e ->
    RefreshESStorage db limit ManageESStorage (Some e)
| refresh_nothing :
    preDispatch db = Nothing ->
    RefreshESStorage db limit ManageESStorage None
| refresh_dispatch l s :
    preDispatch db = Dispatch l ->
    reachable limit ManageESStorage l s -> main s = PcReturned ->
    RefreshESStorage db limit ManageESStorage None.

End Task.

(* ================================================================== *)
(** * Package [service] *)
(* ================================================================== *)

Module Service.

(** ** Cluster registration and cloud-region inference *)

(** [bcs.BCSClusterInfo], the registration row of one cluster. [BkCloudId]
    and [BkEnv] are pointers in the source ([nil] when unset). *)
Record BCSClusterInfo := {
  ClusterID : string;
  BCSApiClusterId : string;
  BkBizId : Z;
  ProjectId : string;
  DomainName : string;
  Port : Z;
  ServerAddressPath : string;
  Status : string;
  BkCloudId : option Z;
  BkEnv : option string;
  K8sMetricDataID : Z;
  CustomMetricDataID : Z;
  K8sEventDataID : Z;
  CustomEventDataID : Z;
}.

(** [b.BkCloudId = &v] *)
Definition set_BkCloudId (b : BCSClusterInfo) (v : Z) : BCSClusterInfo :=
  {| ClusterID := ClusterID b; BCSApiClusterId := BCSApiClusterId b;
     BkBizId := BkBizId b; ProjectId := ProjectId b;
     DomainName := DomainName b; Port := Port b;
     ServerAddressPath := ServerAddressPath b; Status := Status b;
     BkCloudId := Some v; BkEnv := BkEnv b;
     K8sMetricDataID := K8sMetricDataID b;
     CustomMetricDataID := CustomMetricDataID b;
     K8sEventDataID := K8sEventDataID b;
     CustomEventDataID := CustomEventDataID b |}.

(** [K8sNodeInfo]; the fields that hold library or nested types are
    left out, and [BcsClusterId], [Name] and [Status] carry a prefix to
    keep the field names of this module apart. *)
Record K8sNodeInfo := {
  NodeBcsClusterId : string;
  NodeName : string;
  NodeIp : string;
  NodeStatus : string;
  EndpointCount : Z;
  PodCount : Z;
}.

Record GetHostByIpParams := { Ip : string; ParamBkCloudId : Z }.

(** [cmdb.ListBizHostsTopoDataInfo], field [Host], with the fields of
    the host record the inference reads. *)
Record HostInfo := {
  BkHostInnerip : string;
  BkHostInneripV6 : string;
  HostBkCloudId : Z;
  BkHostId : Z;
}.

(** Columns named in [b.Update(db, columns...)]. *)
Inductive column := ColBkCloudId | ColK8sMetricDataID
                  | ColCustomMetricDataID | ColK8sEventDataID.

(** One [Update] issued against the metadata store. *)
Record DbWrite := { row : BCSClusterInfo; columns : list column }.

(** What a call leaves behind: the registration object the service points
    to, the writes issued, and the returned error. *)
Record outcome := {
  cluster_after : option BCSClusterInfo;
  db_writes : list DbWrite;
  returned : option error;
}.

(** [strings.Split(s, ",")[0]] *)
Fixpoint before_comma (s : string) : string :=
  match s with
  | EmptyString => EmptyString
  | String c rest =>
      if Ascii.eqb c (Ascii.ascii_of_nat 44) then EmptyString else String c (before_comma rest)
  end.

(** The body of the first loop of [UpdateBcsClusterCloudIdConfig]: groups
    of at most 100 addresses. *)
Definition addIp (ipSplits : list (list string)) (node : K8sNodeInfo)
  : list (list string) :=
  if bool_decide (NodeIp node = "") then ipSplits
  else
    let splitsSize := length ipSplits in
    match ipSplits !! (splitsSize - 1)%nat with
    | Some lastIps =>
        if bool_decide (splitsSize ≠ 0%nat ∧ (length lastIps < 100)%nat)
        then <[(splitsSize - 1)%nat := lastIps ++ [NodeIp node]]> ipSplits
        else ipSplits ++ [[NodeIp node]]
    | None => ipSplits ++ [[NodeIp node]]
    end.

Definition recordHost (ipMap : gmap string Z) (info : HostInfo)
  : gmap string Z :=
  let ipMap :=
    if bool_decide (BkHostInnerip info ≠ "")
    then <[before_comma (BkHostInnerip info) := HostBkCloudId info]> ipMap
    else ipMap in
  if bool_decide (BkHostInneripV6 info ≠ "")
  then <[before_comma (BkHostInneripV6 info) := HostBkCloudId info]> ipMap
  else ipMap.

(** [cloudCount[bkCloudId] = cloudCount[bkCloudId] + 1] for a node whose
    address is in [ipMap]. *)
Definition countCloud (ipMap : gmap string Z) (cloudCount : gmap Z Z)
    (node : K8sNodeInfo) : gmap Z Z :=
  match ipMap !! NodeIp node with
  | None => cloudCount
  | Some bkCloudId =>
      <[bkCloudId := default 0 (cloudCount !! bkCloudId) + 1]> cloudCount
  end.

(** The body of the last loop, on the pair
    [(maxCountCloudId, maxCount)]. *)
Definition pickMax (acc : Z * Z) (entry : Z * Z) : Z * Z :=
  if bool_decide (entry.2 > acc.2) then entry else acc.

Section CloudId.
(** [models.BcsClusterStatusRunning] *)
Variable BcsClusterStatusRunning : string.
(** The inventory behind [FetchK8sNodeListByCluster]. *)
Variable FetchK8sNodeListByCluster : string -> result (list K8sNodeInfo).
(** The host lookup behind [getHostByIp]; the request body is a function
    of the two arguments ([processParams]). *)
Variable getHostByIp :
  list GetHostByIpParams -> Z -> result (list HostInfo).
(** The metadata store behind [b.Update(db, columns...)]. *)
Variable Update : BCSClusterInfo -> list column -> option error.
(** The order in which [range cloudCount] yields the entries of the
    map; Go leaves it unspecified. *)
Variable rangeCloudCount : gmap Z Z -> list (Z * Z).

(** The second loop: one lookup call per group, the first error returned. *)
Fixpoint lookupHosts (bkBizId : Z) (ipSplits : list (list string))
    (ipMap : gmap string Z) : result (gmap string Z) :=
  match ipSplits with
  | [] => Ok ipMap
  | ips :: rest =>
      let params :=
        (fun ip => {| Ip := ip; ParamBkCloudId := -1 |}) <$> ips in
      match getHostByIp params bkBizId with
      | Err e => Err e
      | Ok hostInfo =>
          lookupHosts bkBizId rest (fold_left recordHost hostInfo ipMap)
      end
  end.

(** The tally [cloudCount] of resolved regions over the nodes. *)
Definition regionTally (b : BCSClusterInfo) : result (gmap Z Z) :=
  match FetchK8sNodeListByCluster (ClusterID b) with
  | Err e => Err e
  | Ok apiNodes =>
      let ipSplits := fold_left addIp apiNodes [] in
      match lookupHosts (BkBizId b) ipSplits ∅ with
      | Err e => Err e
      | Ok ipMap => Ok (fold_left (countCloud ipMap) apiNodes ∅)
      end
  end.

Definition maxCountCloudId (cloudCount : gmap Z Z) : Z :=
  (fold_left pickMax (rangeCloudCount cloudCount) (0, 0)).1.

Definition UpdateBcsClusterCloudIdConfig (svc : option BCSClusterInfo)
  : outcome :=
  match svc with
  | None =>
      {| cluster_after := None; db_writes := [];
         returned := Some (ErrOther "BCSClusterInfo obj can not be nil") |}
  | Some b =>
      if bool_decide (Status b ≠ BcsClusterStatusRunning
                      ∨ BkCloudId b ≠ None)
      then {| cluster_after := Some b; db_writes := []; returned := None |}
      else
        match regionTally b with
        | Err e =>
            {| cluster_after := Some b; db_writes := [];
               returned := Some e |}
        | Ok cloudCount =>
            let b' := set_BkCloudId b (maxCountCloudId cloudCount) in
            {| cluster_after := Some b';
               db_writes := [{| row := b'; columns := [ColBkCloudId] |}];
               returned := Update b' [ColBkCloudId] |}
        end
  end.
End CloudId.

#[global] Instance column_eq_dec : EqDecision column.
Proof. solve_decision. Defined.

(** Modelled from the spec: the metadata store holds the registration
    rows, one per cluster identifier, and rows are "selectively written
    back": an [Update] that the store accepts (it returns [nil]) carries
    the named columns of the row over to the stored row and leaves the
    other columns as stored. *)
Definition write_back (from stored : BCSClusterInfo) (cols : list column)
  : BCSClusterInfo :=
  {| ClusterID := ClusterID stored;
     BCSApiClusterId := BCSApiClusterId stored;
     BkBizId := BkBizId stored; ProjectId := ProjectId stored;
     DomainName := DomainName stored; Port := Port stored;
     ServerAddressPath := ServerAddressPath stored;
     Status := Status stored;
     BkCloudId :=
       if bool_decide (ColBkCloudId ∈ cols) then BkCloudId from
       else BkCloudId stored;
     BkEnv := BkEnv stored;
     K8sMetricDataID :=
       if bool_decide (ColK8sMetricDataID ∈ cols) then K8sMetricDataID from
       else K8sMetricDataID stored;
     CustomMetricDataID :=
       if bool_decide (ColCustomMetricDataID ∈ cols)
       then CustomMetricDataID from else CustomMetricDataID stored;
     K8sEventDataID :=
       if bool_decide (ColK8sEventDataID ∈ cols) then K8sEventDataID from
       else K8sEventDataID stored;
     CustomEventDataID := CustomEventDataID stored |}.

Abbreviation MetadataStore := (gmap string BCSClusterInfo).

(** The store after it has accepted the write [w]. *)
Definition accept (db : MetadataStore) (w : DbWrite) : MetadataStore :=
  match db !! ClusterID (row w) with
  | Some stored =>
      <[ClusterID (row w) := write_back (row w) stored (columns w)]> db
  | None => db
  end.

(** ** Resource documents and their structural comparison *)

(** The dynamic values held by an [interface{}] in a resource document:
    scalars, the generic map [map[string]interface{}] and the string table
    [map[string]string] (which [makeConfig] puts under [spec.labels]).
    The documents compared hold neither [nil] nor lists (the source notes
    that lists do not occur). *)
Inductive value :=
| VString (s : string)
| VInt64 (n : Z)
| VBool (b : bool)
| VMap (m : gmap string value)
| VStrMap (m : gmap string string).

(** [reflect.TypeOf(v).Kind() == reflect.Map] *)
Definition isMapKind (v : value) : bool :=
  match v with
  | VMap _ | VStrMap _ => true
  | _ => false
  end.

(** [m, _ := v.(map[string]interface{})]: the assertion fails on every
    other dynamic type, its flag is dropped and [m] is the [nil] map. *)
Definition assertMap (v : value) : gmap string value :=
  match v with
  | VMap m => m
  | _ => ∅
  end.

(** [v != val] on two interfaces holding scalars: equal dynamic type and
    equal value. When one side is a map (kinds differ, or types differ)
    the interfaces are unequal. *)
Definition interface_eqb (v val : value) : bool :=
  match v, val with
  | VString a, VString b => bool_decide (a = b)
  | VInt64 a, VInt64 b => bool_decide (a = b)
  | VBool a, VBool b => bool_decide (a = b)
  | _, _ => false
  end.

(** [for k, v := range source { val, ok := target[k]; if !ok { return
    false }; <body> }; return true], with the [switch] as [body]. *)
Definition rangeSource (body : value -> value -> bool)
    (source target : gmap string value) : bool :=
  map_fold (fun k v ok =>
              ok && match target !! k with
                    | None => false
                    | Some val => body v val
                    end)
           true source.

(** The [switch reflect.TypeOf(v).Kind()] of [isSameMapConfig]; the
    recursive call is on the asserted maps. *)
Fixpoint sameEntry (v val : value) {struct v} : bool :=
  match v with
  | VMap vMap =>
      if negb (isMapKind val) then false
      else rangeSource sameEntry vMap (assertMap val)
  | VStrMap _ =>
      if negb (isMapKind val) then false
      else rangeSource sameEntry ∅ (assertMap val)
  | _ => interface_eqb v val
  end.

Definition isSameMapConfig (source target : gmap string value) : bool :=
  rangeSource sameEntry source target.

Definition isSameResourceConfig (dbConfig currConfig : gmap string value)
  : bool :=
  isSameMapConfig dbConfig currConfig.

(** Documents whose maps are all generic maps. *)
Inductive generic : value -> Prop :=
| generic_string s : generic (VString s)
| generic_int n : generic (VInt64 n)
| generic_bool b : generic (VBool b)
| generic_map m :
    (forall k v, m !! k = Some v -> generic v) -> generic (VMap m).

(** The comparison in the words of the specification: every key of the
    desired map is present in the observed one with a recursively equal
    value; a scalar equals a scalar of the same type and value; a map and
    a non-map are never equal. *)
Inductive covered : value -> value -> Prop :=
| covered_string s : covered (VString s) (VString s)
| covered_int n : covered (VInt64 n) (VInt64 n)
| covered_bool b : covered (VBool b) (VBool b)
| covered_map (m m' : gmap string value) :
    (forall k v, m !! k = Some v ->
       exists val, m' !! k = Some val /\ covered v val) ->
    covered (VMap m) (VMap m')
| covered_table_map (t : gmap string string) (m' : gmap string value) :
    (forall k s, t !! k = Some s -> m' !! k = Some (VString s)) ->
    covered (VStrMap t) (VMap m')
| covered_map_table (m : gmap string value) (t' : gmap string string) :
    (forall k v, m !! k = Some v ->
       exists s, t' !! k = Some s /\ v = VString s) ->
    covered (VMap m) (VStrMap t')
| covered_table_table (t t' : gmap string string) :
    (forall k s, t !! k = Some s -> t' !! k = Some s) ->
    covered (VStrMap t) (VStrMap t').

(** ** Desired documents *)

(** [DatasourceRegister] *)
Record DatasourceRegister := {
  EtlConfig : string;
  ReportClassName : string;
  DatasourceName : string;
  IsSpitMeasurement : bool;
  IsSystem : bool;
  Usage : string;
}.

(** The keys of the catalog are string constants of package [models],
    outside the sources at hand; they are kept as names. *)
Inductive BcsDataType :=
| BcsDataTypeK8sMetric
| BcsDataTypeCustomMetric
| BcsDataTypeK8sEvent.

Definition bcsDatasourceRegisterInfo
  : list (BcsDataType * DatasourceRegister) :=
  [ (BcsDataTypeK8sMetric,
     {| EtlConfig := "bk_standard_v2_time_series";
        ReportClassName := "TimeSeriesGroup";
        DatasourceName := "K8sMetricDataID";
        IsSpitMeasurement := true; IsSystem := true; Usage := "metric" |});
    (BcsDataTypeCustomMetric,
     {| EtlConfig := "bk_standard_v2_time_series";
        ReportClassName := "TimeSeriesGroup";
        DatasourceName := "CustomMetricDataID";
        IsSpitMeasurement := true; IsSystem := false; Usage := "metric" |});
    (BcsDataTypeK8sEvent,
     {| EtlConfig := "bk_standard_v2_event";
        ReportClassName := "EventGroup";
        DatasourceName := "K8sEventDataID";
        IsSpitMeasurement := false; IsSystem := true; Usage := "event" |}) ].

(** The registers of the catalog, in the order of the map literal. *)
Definition registers : list DatasourceRegister :=
  bcsDatasourceRegisterInfo.*2.

(** [unstructured.Unstructured] *)
Record Unstructured := { Object : gmap string value }.

(** Accessors of the [unstructured] library: nested string fields of
    [metadata], the empty string when the path is not there. *)
Definition nestedString (u : Unstructured) (field : string) : string :=
  match Object u !! "metadata" with
  | Some (VMap md) =>
      match md !! field with
      | Some (VString s) => s
      | _ => ""
      end
  | _ => ""
  end.

Definition GetName (u : Unstructured) : string := nestedString u "name".

Definition GetResourceVersion (u : Unstructured) : string :=
  nestedString u "resourceVersion".

(** [u.SetResourceVersion(version)]: the field is set under [metadata],
    or removed when [version] is empty. *)
Definition SetResourceVersion (u : Unstructured) (version : string)
  : Unstructured :=
  let md := match Object u !! "metadata" with
            | Some (VMap md) => md
            | _ => ∅
            end in
  if bool_decide (version = "")
  then {| Object := <["metadata" := VMap (delete "resourceVersion" md)]>
                      (Object u) |}
  else {| Object := <["metadata" :=
                        VMap (<["resourceVersion" := VString version]> md)]>
                      (Object u) |}.

(** [strings.ToLower] on strings of ASCII bytes, which the names of the
    catalog are: the letters A to Z are lowered and every other byte is
    kept. (Go lowers the letters outside ASCII as well; a name with such
    letters is outside this definition.) *)
Definition lower_ascii (c : Ascii.ascii) : Ascii.ascii :=
  let n := Ascii.N_of_ascii c in
  if ((65 <=? n) && (n <=? 90))%N then Ascii.ascii_of_N (n + 32) else c.

Fixpoint ToLower (s : string) : string :=
  match s with
  | EmptyString => EmptyString
  | String c rest => String (lower_ascii c) (ToLower rest)
  end.

(** The replacement rules of [ReplaceConfigSvc], by replace type. *)
Record ReplaceConfig := {
  metricRules : gmap string string;
  dimensionRules : gmap string string;
}.

(** Constants of package [models] and of the configuration that the
    documents are built from; their declarations are outside the sources
    at hand. *)
Record Settings := {
  BcsResourceGroupName : string;
  BcsResourceVersion : string;
  BcsResourceDataIdResourceKind : string;
  BcsResourceDataIdResourcePlural : string;
  BcsClusterBkEnvLabel : string;            (* [cfg.BcsClusterBkEnvLabel] *)
}.

Section Documents.
Variable conf : Settings.
(** [rcSvc.GetCommonReplaceConfig()] and
    [rcSvc.GetClusterReplaceConfig(clusterId)], read from the store. *)
Variable GetCommonReplaceConfig : result ReplaceConfig.
Variable GetClusterReplaceConfig : string -> result ReplaceConfig.

Definition bkEnvLabel (b : BCSClusterInfo) : string :=
  match BkEnv b with
  | Some env => env
  | None => BcsClusterBkEnvLabel conf
  end.

Definition composeDataidResourceName (b : BCSClusterInfo) (name : string)
  : string :=
  if bool_decide (bkEnvLabel b ≠ "")
  then bkEnvLabel b +:+ "-" +:+ name
  else name.

Definition composeDataidResourceLabel (b : BCSClusterInfo)
    (labels : gmap string value) : value :=
  if bool_decide (bkEnvLabel b ≠ "")
  then VMap (<["bk_env" := VString (bkEnvLabel b)]> labels)
  else VMap labels.

(** The conversion [int64(x)] of a [uint]: the value modulo 2^64, read
    in two's complement. *)
Definition int64 (x : Z) : Z := (x + 2 ^ 63) mod 2 ^ 64 - 2 ^ 63.

Definition makeConfig (b : BCSClusterInfo) (register : DatasourceRegister)
  : result Unstructured :=
  match GetCommonReplaceConfig with
  | Err e => Err e
  | Ok replaceConfig =>
      match GetClusterReplaceConfig (ClusterID b) with
      | Err e => Err e
      | Ok clusterReplaceConfig =>
          (* the rules of the cluster override the common ones *)
          let metricReplace :=
            metricRules clusterReplaceConfig ∪ metricRules replaceConfig in
          let dimensionReplace :=
            dimensionRules clusterReplaceConfig
            ∪ dimensionRules replaceConfig in
          let isSystem :=
            if IsSystem register then "true" else "false" in
          let labels : gmap string value :=
            {[ "usage" := VString (Usage register);
               "isCommon" := VString "true";
               "isSystem" := VString isSystem ]} in
          let dataId :=
            if bool_decide (DatasourceName register = "K8sMetricDataID")
            then K8sMetricDataID b
            else if bool_decide
                      (DatasourceName register = "CustomMetricDataID")
            then CustomMetricDataID b
            else if bool_decide
                      (DatasourceName register = "K8sEventDataID")
            then K8sEventDataID b
            else if bool_decide
                      (DatasourceName register = "CustomEventDataID")
            then CustomEventDataID b
            else 0 in
          Ok {| Object :=
            {[ "apiVersion" :=
                 VString (BcsResourceGroupName conf +:+ "/"
                          +:+ BcsResourceVersion conf);
               "kind" := VString (BcsResourceDataIdResourceKind conf);
               "metadata" :=
                 VMap {[ "name" :=
                           VString (composeDataidResourceName b
                                      (ToLower (DatasourceName register)));
                         "labels" := composeDataidResourceLabel b labels ]};
               "spec" :=
                 VMap {[ "dataID" := VInt64 (int64 dataId);
                         "labels" :=
                           VStrMap {[ "bcs_cluster_id" := ClusterID b;
                                      "bk_biz_id" := pretty (BkBizId b) ]};
                         "metricReplace" := VStrMap metricReplace;
                         "dimensionReplace" := VStrMap dimensionReplace ]}
            ]} |}
      end
  end.
End Documents.

(** ** The external resource store and the reconciler *)

Record GroupVersionResource := {
  Group : string;
  Version : string;
  Resource : string;
}.

(** The calls of the dynamic client the service goes through, on a store
    in state [W]: each returns its result and the state it leaves. *)
Class DynamicClient (W : Type) := {
  clientList :
    GroupVersionResource -> W -> result (list Unstructured) * W;
  clientGet :
    GroupVersionResource -> string -> W -> result Unstructured * W;
  clientUpdate :
    GroupVersionResource -> Unstructured -> W -> result Unstructured * W;
  clientCreate :
    GroupVersionResource -> Unstructured -> W -> result Unstructured * W;
}.

Section Reconciler.
Context {W : Type} `{DynamicClient W}.
Variable conf : Settings.
Variable GetCommonReplaceConfig : result ReplaceConfig.
Variable GetClusterReplaceConfig : string -> result ReplaceConfig.

Definition dataIdGvr : GroupVersionResource :=
  {| Group := BcsResourceGroupName conf;
     Version := BcsResourceVersion conf;
     Resource := BcsResourceDataIdResourcePlural conf |}.

Definition ensureDataIdResource (name : string) (config : Unstructured)
    (w : W) : option error * W :=
  match clientGet dataIdGvr name w with
  | (Err (ErrNotFound _), w) =>
      (* action = "create" *)
      match clientCreate dataIdGvr config w with
      | (Err e, w) => (Some (ErrWrap "create resource failed" e), w)
      | (Ok _, w) => (None, w)
      end
  | (Err e, w) => (Some e, w)
  | (Ok resp, w) =>
      (* action = "update" *)
      let config := SetResourceVersion config (GetResourceVersion resp) in
      match clientUpdate dataIdGvr config w with
      | (Err e, w) => (Some (ErrWrap "update resource failed" e), w)
      | (Ok _, w) => (None, w)
      end
  end.

(** [resourceMap[res.GetName()] = res] over the listed items. *)
Definition resourceMap (items : list Unstructured)
  : gmap string Unstructured :=
  fold_left (fun m res => <[GetName res := res]> m) items ∅.

(** The loop of [RefreshCommonResource] over the registers in the order
    [range] yields them. *)
Fixpoint refreshRegisters (b : BCSClusterInfo)
    (observed : gmap string Unstructured)
    (order : list DatasourceRegister) (w : W) : option error * W :=
  match order with
  | [] => (None, w)
  | register :: rest =>
      let datasourceNameLower :=
        composeDataidResourceName conf b
          (ToLower (DatasourceName register)) in
      match makeConfig conf GetCommonReplaceConfig
              GetClusterReplaceConfig b register with
      | Err e => (Some e, w)
      | Ok dataIdConfig =>
          match observed !! datasourceNameLower with
          | None =>
              match ensureDataIdResource datasourceNameLower
                      dataIdConfig w with
              | (Some e, w) => (Some e, w)
              | (None, w) => (None, w)          (* [return nil] *)
              end
          | Some res =>
              if negb (isSameResourceConfig (Object dataIdConfig)
                         (Object res))
              then
                match ensureDataIdResource datasourceNameLower
                        dataIdConfig w with
                | (Some e, w) => (Some e, w)
                | (None, w) => refreshRegisters b observed rest w
                end
              else refreshRegisters b observed rest w
          end
      end
  end.

Definition RefreshCommonResource (svc : option BCSClusterInfo)
    (order : list DatasourceRegister) (w : W) : option error * W :=
  match svc with
  | None => (Some (ErrOther "BCSClusterInfo obj can not be nil"), w)
  | Some b =>
      match clientList dataIdGvr w with
      | (Err e, w) => (Some e, w)
      | (Ok items, w) => refreshRegisters b (resourceMap items) order w
      end
  end.

(** [InitResource], the pass run at registration, over the same catalog. *)
Fixpoint initRegisters (b : BCSClusterInfo)
    (order : list DatasourceRegister) (w : W) : option error * W :=
  match order with
  | [] => (None, w)
  | register :: rest =>
      match makeConfig conf GetCommonReplaceConfig
              GetClusterReplaceConfig b register with
      | Err e => (Some e, w)
      | Ok dataidConfig =>
          let name :=
            composeDataidResourceName conf b
              (ToLower (DatasourceName register)) in
          match ensureDataIdResource name dataidConfig w with
          | (Some e, w) => (Some (ErrWrap "ensure data id resource error" e), w)
          | (None, w) => initRegisters b rest w
          end
      end
  end.

Definition InitResource (svc : option BCSClusterInfo)
    (order : list DatasourceRegister) (w : W) : option error * W :=
  match svc with
  | None => (Some (ErrOther "BCSClusterInfo obj can not be nil"), w)
  | Some b => initRegisters b order w
  end.
End Reconciler.

(** Modelled from the spec: the external resource store of one cluster,
    [get(name) -> Resource | NotFound], [create(resource)],
    [update(resource)], [list() -> []Resource], held in memory by
    resource name together with the requests it has served. An update
    carries the version token of the resource it replaces. *)
Inductive request :=
| ReqList
| ReqGet (name : string)
| ReqCreate (name : string)
| ReqUpdate (name : string).

Record MemStore := {
  stored : gmap string Unstructured;
  served : list request;
}.

Definition serve (w : MemStore) (r : request)
    (objects : gmap string Unstructured) : MemStore :=
  {| stored := objects; served := served w ++ [r] |}.

#[global] Instance MemStore_client : DynamicClient MemStore := {
  clientList _ w :=
    (Ok (map_to_list (stored w)).*2, serve w ReqList (stored w));
  clientGet _ name w :=
    (match stored w !! name with
     | Some u => Ok u
     | None => Err (ErrNotFound name)
     end, serve w (ReqGet name) (stored w));
  clientUpdate _ u w :=
    match stored w !! GetName u with
    | None => (Err (ErrNotFound (GetName u)),
               serve w (ReqUpdate (GetName u)) (stored w))
    | Some old =>
        if bool_decide (GetResourceVersion u = GetResourceVersion old)
        then (Ok u, serve w (ReqUpdate (GetName u))
                      (<[GetName u := u]> (stored w)))
        else (Err (ErrOther "conflict"),
              serve w (ReqUpdate (GetName u)) (stored w))
    end;
  clientCreate _ u w :=
    match stored w !! GetName u with
    | Some _ => (Err (ErrOther "already exists"),
                 serve w (ReqCreate (GetName u)) (stored w))
    | None => (Ok u, serve w (ReqCreate (GetName u))
                       (<[GetName u := u]> (stored w)))
    end;
}.

(** *** Sample data *)

Definition sample_settings : Settings :=
  {| BcsResourceGroupName := "monitoring.bk.tencent.com";
     BcsResourceVersion := "v1beta1";
     BcsResourceDataIdResourceKind := "DataID";
     BcsResourceDataIdResourcePlural := "dataids";
     BcsClusterBkEnvLabel := "" |}.

Definition sample_cluster : BCSClusterInfo :=
  {| ClusterID := "BCS-K8S-00001"; BCSApiClusterId := "BCS-K8S-00001";
     BkBizId := 2; ProjectId := "p1"; DomainName := "bcs.example.com";
     Port := 443; ServerAddressPath := "clusters"; Status := "running";
     BkCloudId := None; BkEnv := None;
     K8sMetricDataID := 1572864; CustomMetricDataID := 1572865;
     K8sEventDataID := 1572866; CustomEventDataID := 0 |}.

Definition no_rules : ReplaceConfig :=
  {| metricRules := ∅; dimensionRules := ∅ |}.

Definition empty_store : MemStore := {| stored := ∅; served := [] |}.

End Service.


(* ================================================================== *)
(** * Properties of package [target] *)
(* ================================================================== *)

Module TargetSpec.
Import Target.

(** The model of [hash/fnv] agrees with the published FNV-1a vectors. *)
Example fnv1a_vectors :
  sum64a_Write offset64 (bytes "") = 0xcbf29ce484222325
  /\ sum64a_Write offset64 (bytes "a") = 0xaf63dc4c8601ec8c
  /\ sum64a_Write offset64 (bytes "foobar") = 0x85944171f73967e8.
Proof. by vm_compute. Qed.

Lemma avoidOverflow_small (num : Z) :
  num <= MaxInt32 -> avoidOverflow num = num.
Proof.
  intros Hle. rewrite avoidOverflow_equation_1.
  destruct (decide (MaxInt32 < num)) as [Hbig | Hsmall]; [lia | done].
Qed.

Lemma avoidOverflow_big (num : Z) :
  MaxInt32 < num -> avoidOverflow num = avoidOverflow (num / 50).
Proof.
  intros Hbig. rewrite avoidOverflow_equation_1.
  destruct (decide (MaxInt32 < num)) as [Hbig' | Hle]; [done | lia].
Qed.

Lemma div50_times_shift (k : nat) (num : Z) :
  div50_times (S k) num = div50_times k (num / 50).
Proof. unfold div50_times. by rewrite Nat.iter_succ_r. Qed.

Lemma avoidOverflow_le (num : Z) : avoidOverflow num <= MaxInt32.
Proof.
  funelim (avoidOverflow num); [assumption | lia].
Qed.

Lemma avoidOverflow_nonneg (num : Z) : 0 <= num -> 0 <= avoidOverflow num.
Proof.
  funelim (avoidOverflow num); intros Hpos; [| done].
  match goal with IH : _ -> 0 <= avoidOverflow _ |- _ => apply IH end.
  apply Z.div_pos; lia.
Qed.

Lemma avoidOverflow_iterates (num : Z) :
  exists k : nat,
    avoidOverflow num = div50_times k num
    /\ forall j : nat, (j < k)%nat -> MaxInt32 < div50_times j num.
Proof.
  funelim (avoidOverflow num).
  - match goal with IH : exists _, _ |- _ => destruct IH as (k & Hk & Hbig) end.
    exists (S k). split.
    + by rewrite div50_times_shift.
    + intros [| j] Hj; [assumption |].
      rewrite div50_times_shift. apply Hbig. lia.
  - exists 0%nat. split; [done | lia].
Qed.

(** ** C6 *)

(** C6. For every unsigned 64-bit input, [avoidOverflow] (a total
    function) returns a value of the unsigned range that is at most the
    maximum 31-bit signed integer; an input already within that bound is
    returned unchanged; and the result is the input divided by 50, with
    integer division, the least number of times that brings it within the
    bound. *)
Theorem avoidOverflow_reduces (num : Z) :
  0 <= num < uint64_mod ->
  0 <= avoidOverflow num <= MaxInt32
  /\ (num <= MaxInt32 -> avoidOverflow num = num)
  /\ exists k : nat,
       avoidOverflow num = div50_times k num
       /\ forall j : nat, (j < k)%nat -> MaxInt32 < div50_times j num.
Proof.
  intros [Hpos _]. repeat split.
  - by apply avoidOverflow_nonneg.
  - apply avoidOverflow_le.
  - apply avoidOverflow_small.
  - apply avoidOverflow_iterates.
Qed.

Lemma avoidOverflow_reduces_max :
  0 <= avoidOverflow 18446744073709551615 <= MaxInt32
  /\ (18446744073709551615 <= MaxInt32 ->
      avoidOverflow 18446744073709551615 = 18446744073709551615)
  /\ exists k : nat,
       avoidOverflow 18446744073709551615
       = div50_times k 18446744073709551615
       /\ forall j : nat, (j < k)%nat ->
            MaxInt32 < div50_times j 18446744073709551615.
Proof.
  apply (avoidOverflow_reduces 18446744073709551615).
  unfold uint64_mod. lia.
Defined.

Example avoidOverflow_max_value :
  avoidOverflow 18446744073709551615 = 1180591620
  /\ div50_times 6 18446744073709551615 = 1180591620.
Proof. by vm_compute. Qed.

(** ** C7 *)

(** C7. [generateTaskID] is a function of the fields it hashes: two
    metric targets with equal [DataID], [Address], [Path], label list (in
    order), [Meta.Index], [Namespace] and [Meta.Name] get the same
    identifier, whatever their other fields are. *)
Theorem generateTaskID_deterministic (t1 t2 : MetricTarget) :
  DataID t1 = DataID t2 ->
  Address t1 = Address t2 ->
  Path t1 = Path t2 ->
  Labels t1 = Labels t2 ->
  MetaIndex (Meta t1) = MetaIndex (Meta t2) ->
  Namespace t1 = Namespace t2 ->
  MetaName (Meta t1) = MetaName (Meta t2) ->
  generateTaskID t1 = generateTaskID t2.
Proof.
  intros Hd Ha Hp Hl Hi Hn Hm.
  unfold generateTaskID, taskIDSum64.
  by rewrite Hd, Ha, Hp, Hl, Hi, Hn, Hm.
Qed.

Definition sample_target (node scheme period : string) : MetricTarget :=
  {| Meta := {| MetaName := "kubelet"; MetaNamespace := node;
                MetaIndex := 0 |};
     RelabelRule := ""; RelabelIndex := ""; NormalizeMetricName := false;
     Address := "10.0.0.1:10250"; NodeName := node; Scheme := scheme;
     DataID := 1572864; Namespace := "kube-system";
     MaxTimeout := "100s"; MinPeriod := "3s"; Period := period;
     Timeout := period; Path := "/metrics"; ProxyURL := "";
     Username := ""; Password := ""; BearerTokenFile := "";
     BearerToken := "";
     Labels := [ {| LabelName := "job"; LabelValue := "kubelet" |};
                 {| LabelName := "endpoint"; LabelValue := "https" |} ];
     ExtraLabels := ∅; DimensionReplace := ∅; MetricReplace := ∅;
     Mask := node; TaskType := ""; DisableCustomTimestamp := false |}.

Lemma generateTaskID_deterministic_sample :
  generateTaskID (sample_target "node-1" "https" "30s")
  = generateTaskID (sample_target "node-2" "http" "60s").
Proof.
  apply (generateTaskID_deterministic
           (sample_target "node-1" "https" "30s")
           (sample_target "node-2" "http" "60s"));
    reflexivity.
Defined.

Example generateTaskID_sample_value :
  taskIDSum64 (sample_target "node-1" "https" "30s") < uint64_mod
  /\ generateTaskID (sample_target "node-1" "https" "30s") <= MaxInt32.
Proof. by vm_compute. Qed.

End TargetSpec.


(* ================================================================== *)
(** * Properties of package [task] *)
(* ================================================================== *)

Module TaskSpec.
Import Task.

(** ** The consistency filter *)

Lemma fold_insert_lookup (l : list ESStorage) (m : gmap string ESStorage)
    (k : string) (e : ESStorage) :
  NoDup (TableID <$> l) ->
  (forall x, x ∈ l -> m !! TableID x = None) ->
  fold_left (fun m x => <[TableID x := x]> m) l m !! k = Some e
  <-> m !! k = Some e \/ (e ∈ l /\ TableID e = k).
Proof.
  revert m. induction l as [| a l IH]; intros m Hnd Hfresh; simpl.
  - split; [by left | intros [? | [Hin _]]; [done | by inversion Hin]].
  - rewrite fmap_cons in Hnd. apply NoDup_cons in Hnd as [Ha Hnd].
    rewrite IH; [| done |].
    + pose proof (Hfresh a (list_elem_of_here _ _)) as Hma.
      destruct (decide (TableID a = k)) as [<- | Hne].
      * rewrite lookup_insert_eq. split.
        -- intros [[= <-] | [Hin Hk]].
           ++ right. split; [left | done].
           ++ right. split; [by right | done].
        -- intros [Hm | [Hin Hk]]; [congruence |].
           apply elem_of_cons in Hin as [-> | Hin]; [by left |].
           right. done.
      * rewrite lookup_insert_ne by done. split.
        -- intros [Hm | [Hin Hk]]; [by left |].
           right. split; [by right | done].
        -- intros [Hm | [Hin Hk]]; [by left |].
           apply elem_of_cons in Hin as [-> | Hin]; [done |].
           right. done.
    + intros x Hx. rewrite lookup_insert_ne.
      * apply Hfresh. by right.
      * intros Heq. apply Ha. rewrite Heq. by apply list_elem_of_fmap_2.
Qed.

Lemma tableIdEsStorageMap_lookup (l : list ESStorage) (k : string)
    (e : ESStorage) :
  NoDup (TableID <$> l) ->
  tableIdEsStorageMap l !! k = Some e <-> e ∈ l /\ TableID e = k.
Proof.
  intros Hnd. unfold tableIdEsStorageMap.
  rewrite fold_insert_lookup; [| done | by intros; apply lookup_empty].
  rewrite lookup_empty. split; [intros [? | ?]; done | by right].
Qed.

Lemma needUpdate_elem (db : Database) (all : list ESStorage)
    (ess : ESStorage) :
  NoDup (TableID <$> all) ->
  ess ∈ needUpdateEsStorageList all
          (filter (fun rt => IsEnable rt = true /\ IsDeleted rt = false
                             /\ TableId rt ∈ esStorageTableIdList all)
                  (result_table_rows db))
  <-> ess ∈ all
      /\ exists rt, rt ∈ result_table_rows db
                    /\ TableId rt = TableID ess /\ active rt.
Proof.
  intros Hnd. unfold needUpdateEsStorageList, active.
  rewrite list_elem_of_omap. split.
  - intros (rt & Hrt & Hlook).
    apply list_elem_of_filter in Hrt as [(Hen & Hdel & _) Hrt].
    apply tableIdEsStorageMap_lookup in Hlook as [Hin Hk]; [| done].
    split; [done |]. by exists rt.
  - intros (Hin & rt & Hrt & Hk & Hen & Hdel).
    exists rt. split.
    + apply list_elem_of_filter. repeat split; try done.
      rewrite Hk. by apply list_elem_of_fmap_2.
    + apply tableIdEsStorageMap_lookup; done.
Qed.

(** ** C8 *)

(** C8. When both queries of the pass succeed, and the ES storage
    records are keyed by their table identifier, the records kept for
    dispatch are exactly the candidates whose table identifier is that of
    a result table that is enabled and not soft-deleted. *)
Theorem filter_keeps_active_tables (db : Database) (ess : ESStorage) :
  es_storage_fault db = None ->
  result_table_fault db = None ->
  NoDup (TableID <$> es_storage_rows db) ->
  ess ∈ dispatched db
  <-> ess ∈ es_storage_rows db
      /\ exists rt, rt ∈ result_table_rows db
                    /\ TableId rt = TableID ess /\ active rt.
Proof.
  intros Hes Hrt Hnd.
  unfold dispatched, preDispatch, queryAllESStorage, queryActiveResultTables.
  rewrite Hes, Hrt.
  case_bool_decide as Hempty.
  - unfold esStorageTableIdList in Hempty. rewrite length_fmap in Hempty.
    apply nil_length_inv in Hempty. rewrite Hempty.
    split; [intros Hin | intros [Hin _]]; by apply elem_of_nil in Hin.
  - rewrite <- (needUpdate_elem db) by done.
    case_bool_decide as Hnone; [| done].
    apply nil_length_inv in Hnone. by rewrite Hnone.
Qed.

(** ** The fan-out *)

Section FanOutFacts.
Variable limit : Z.
Variable ManageESStorage : ESStorage -> option error.
Variable ents : list ESStorage.

Abbreviation step := (Task.step limit ManageESStorage ents).
Abbreviation reachable := (Task.reachable limit ManageESStorage ents).

(** The token sent for a worker that is not started yet. *)
Definition go_token (s : state) : Z :=
  match main s with
  | PcGo _ _ => 1
  | _ => 0
  end.

(** Entities the wait group was told about and that have no worker yet. *)
Definition announced (s : state) : list ESStorage :=
  match main s with
  | PcMake => []
  | _ => pending ents s
  end.

Record inv (s : state) : Prop := {
  inv_make : main s = PcMake -> s = init;
  inv_nonneg :
    match main s with
    | PcSend _ | PcGo _ _ | PcWait => 0 <= limit
    | PcMake | PcReturned => True
    end;
  inv_chan :
    chan s = Z.of_nat (length (running s) + length (reconciled s))
             + go_token s;
  inv_cap : chan s <= Z.max limit 0;
  inv_wg :
    wg s = Z.of_nat (length (announced s) + length (running s)
                     + length (reconciled s) + length (released s));
  inv_all :
    0 <= limit ->
    pending ents s ++ running s ++ reconciled s ++ released s ++ finished s
    ≡ₚ ents;
  inv_done : completed s ≡ₚ reconciled s ++ released s ++ finished s;
  inv_log : Forall (fun o => o.2 = ManageESStorage o.1) (outcomes s);
  inv_ret : main s = PcReturned -> wg s = 0;
}.

Lemma inv_init : inv init.
Proof.
  split; unfold go_token, announced, pending, completed; simpl;
    try done; try lia.
  intros _. by rewrite app_nil_r.
Qed.

Ltac unfold_state :=
  unfold go_token, announced, pending, completed, init in *; simpl in *.

Lemma inv_step (s s' : state) : inv s -> step s s' -> inv s'.
Proof.
  intros [Hmk Hnn Hch Hcap Hwg Hall Hdone Hlog Hret] Hstep.
  destruct Hstep as
    [s Hm Hl | s Hm Hl | s ess rest Hm Hroom | s ess rest Hm | s Hm
     | s l1 ess l2 Hq | s l1 ess l2 Hq | s l1 ess l2 Hq | s Hm Hz];
    try (specialize (Hmk Hm); subst s; clear Hm; unfold_state);
    split; unfold_state;
    repeat match goal with
           | H : main _ = _ |- _ => rewrite H in *
           | H : running _ = _ |- _ => rewrite H in *
           | H : reconciled _ = _ |- _ => rewrite H in *
           | H : released _ = _ |- _ => rewrite H in *
           end;
    simpl in *; rewrite ?length_app in *; simpl in *;
    try done; try lia;
    try (intros Hmake; specialize (Hmk Hmake); subst s; simpl in *;
         by destruct l1);
    try (intros Hlim; specialize (Hall Hlim); etrans; [| exact Hall];
         solve_Permutation).
  - rewrite fmap_app. simpl. rewrite Hdone. solve_Permutation.
  - apply Forall_app. split; [done |]. by constructor.
  - rewrite Hdone. solve_Permutation.
  - rewrite Hdone. solve_Permutation.
  - intros Hr. specialize (Hret Hr). rewrite Hr in Hwg. simpl in Hwg. lia.
Qed.

Lemma reachable_inv (s : state) : reachable s -> inv s.
Proof.
  induction 1 as [| s s' _ IH Hstep]; [apply inv_init | by eapply inv_step].
Qed.

Lemma fuel_step (s s' : state) : step s s' -> (fuel ents s' < fuel ents s)%nat.
Proof.
  intros Hstep. unfold fuel.
  destruct Hstep; simpl;
    repeat match goal with
           | H : main _ = _ |- _ => rewrite H
           | H : running _ = _ |- _ => rewrite H
           | H : reconciled _ = _ |- _ => rewrite H
           | H : released _ = _ |- _ => rewrite H
           end;
    rewrite ?length_app; simpl; lia.
Qed.

Lemma nonempty_split {A : Type} (l : list A) :
  (0 < length l)%nat -> exists x l2, l = [] ++ x :: l2.
Proof. destruct l as [| x l2]; simpl; [lia | by exists x, l2]. Qed.

Lemma progress (s : state) :
  limit <> 0 -> inv s -> main s <> PcReturned -> exists s', step s s'.
Proof.
  intros Hlim [Hmk Hnn Hch Hcap Hwg Hall Hdone Hlog Hret] Hnr.
  destruct (decide (0 < length (running s))%nat) as [Hrun | Hrun].
  { apply nonempty_split in Hrun as (x & l2 & Hq).
    eexists. by eapply step_reconcile. }
  destruct (decide (0 < length (reconciled s))%nat) as [Hrec | Hrec].
  { apply nonempty_split in Hrec as (x & l2 & Hq).
    eexists. by eapply step_release. }
  destruct (decide (0 < length (released s))%nat) as [Hrel | Hrel].
  { apply nonempty_split in Hrel as (x & l2 & Hq).
    eexists. by eapply step_done. }
  unfold go_token, announced, pending in *.
  destruct (main s) as [| [| ess rest] | ess rest | |] eqn:Hm.
  - destruct (decide (0 <= limit)).
    + eexists. by eapply step_make.
    + eexists. eapply step_make_panic; [done | lia].
  - eexists. by eapply step_loop_end.
  - eexists. eapply step_send; [done | lia].
  - eexists. by eapply step_go.
  - eexists. eapply step_wait; [done |]. simpl in Hwg. lia.
  - done.
Qed.

Lemma can_return (s : state) :
  limit <> 0 -> reachable s ->
  exists s', reachable s' /\ main s' = PcReturned.
Proof.
  intros Hlim. remember (fuel ents s) as n eqn:Hn. revert s Hn.
  induction n as [n IH] using lt_wf_ind. intros s -> Hreach.
  assert (main s = PcReturned \/ main s <> PcReturned) as [Hret | Hnr]
    by (destruct (main s); (by left) || (by right)).
  { by exists s. }
  destruct (progress s Hlim (reachable_inv s Hreach) Hnr) as [s' Hstep].
  apply (IH (fuel ents s') (fuel_step s s' Hstep) s' eq_refl).
  by eapply reach_step.
Qed.

End FanOutFacts.

(** ** Sample data *)

Definition sample_es (table : string) (cluster : Z) : ESStorage :=
  {| TableID := table; StorageClusterID := cluster |}.

Definition sample_rt (table : string) (enabled deleted : bool)
  : ResultTable :=
  {| TableId := table; IsEnable := enabled; IsDeleted := deleted |}.

(** Table [T1] is enabled and not deleted, [T2] is deleted, [T3] is
    disabled. *)
Definition sample_db : Database :=
  {| es_storage_rows :=
       [sample_es "T1" 3; sample_es "T2" 3; sample_es "T3" 4];
     es_storage_fault := None;
     result_table_rows :=
       [sample_rt "T1" true false; sample_rt "T2" true true;
        sample_rt "T3" false false];
     result_table_fault := None |}.

Example sample_db_dispatched : dispatched sample_db = [sample_es "T1" 3].
Proof. by vm_compute. Qed.

Lemma filter_keeps_active_tables_sample :
  sample_es "T2" 3 ∈ dispatched sample_db
  <-> sample_es "T2" 3 ∈ es_storage_rows sample_db
      /\ exists rt, rt ∈ result_table_rows sample_db
                    /\ TableId rt = TableID (sample_es "T2" 3) /\ active rt.
Proof.
  apply (filter_keeps_active_tables sample_db (sample_es "T2" 3)).
  - reflexivity.
  - reflexivity.
  - by apply (bool_decide_unpack _); vm_compute.
Defined.

(** ** C9 *)

(** C9. Under a cap of at least one, in every state the fan-out can
    reach: at most [limit] reconcile operations are in flight (no more
    than there are tokens in the channel); every
    entity of the list is accounted for once, as not yet started, in
    flight, or reconciled; when the caller has returned no reconcile is in
    flight and every entity has been reconciled once; and until then some
    goroutine can take a step, each step using up [fuel], so that the pass
    runs to its return. *)
Theorem fan_out_bounded (limit : Z)
    (ManageESStorage : ESStorage -> option error)
    (ents : list ESStorage) (s : state) :
  1 <= limit ->
  reachable limit ManageESStorage ents s ->
  in_flight s <= chan s <= limit
  /\ pending ents s ++ running s ++ completed s ≡ₚ ents
  /\ (main s = PcReturned -> running s = [] /\ completed s ≡ₚ ents)
  /\ (main s <> PcReturned ->
      exists s', step limit ManageESStorage ents s s')
  /\ (forall s', step limit ManageESStorage ents s s' ->
        (fuel ents s' < fuel ents s)%nat).
Proof.
  intros Hlim Hreach.
  pose proof (reachable_inv _ _ _ _ Hreach) as Hinv.
  destruct Hinv as [Hmk Hnn Hch Hcap Hwg Hall Hdone Hlog Hret] eqn:Hi.
  clear Hi. split; [| split; [| split; [| split]]].
  - unfold in_flight, go_token in *. destruct (main s); lia.
  - rewrite Hdone. apply Hall. lia.
  - intros Hr. specialize (Hret Hr).
    assert (running s = []) as Hrun by (apply nil_length_inv; lia).
    split; [done |].
    assert (reconciled s = []) as Hrec by (apply nil_length_inv; lia).
    assert (released s = []) as Hrel by (apply nil_length_inv; lia).
    rewrite Hdone. rewrite <- Hall by lia.
    unfold pending. rewrite Hr, Hrun, Hrec, Hrel. done.
  - intros Hnr. apply progress; [lia | | done].
    by apply reachable_inv.
  - intros s'. apply fuel_step.
Qed.

(** Two entities under a cap of one: the first worker is running, the
    caller is back at the head of the loop and must wait for the token. *)
Definition sample_running : state :=
  {| main := PcSend [sample_es "T2" 3]; chan := 1; wg := 2;
     running := [sample_es "T1" 3]; reconciled := []; released := [];
     finished := []; outcomes := [] |}.

Definition sample_ents : list ESStorage :=
  [sample_es "T1" 3; sample_es "T2" 3].

Definition always_fails (ess : ESStorage) : option error :=
  Some (ErrOther "es cluster is unreachable").

Definition sample_made : state :=
  {| main := PcSend sample_ents; chan := 0; wg := 2; running := [];
     reconciled := []; released := []; finished := []; outcomes := [] |}.

Definition sample_sent : state :=
  {| main := PcGo (sample_es "T1" 3) [sample_es "T2" 3]; chan := 1;
     wg := 2; running := []; reconciled := []; released := [];
     finished := []; outcomes := [] |}.

Lemma sample_running_reachable :
  reachable 1 always_fails sample_ents sample_running.
Proof.
  apply (reach_step _ _ _ sample_sent).
  - apply (reach_step _ _ _ sample_made).
    + apply (reach_step _ _ _ init); [apply reach_init |].
      refine (step_make 1 always_fails sample_ents init eq_refl _). lia.
    + refine (step_send 1 always_fails sample_ents sample_made
                (sample_es "T1" 3) [sample_es "T2" 3] eq_refl _).
      simpl. lia.
  - exact (step_go 1 always_fails sample_ents sample_sent
             (sample_es "T1" 3) [sample_es "T2" 3] eq_refl).
Qed.

Lemma fan_out_bounded_sample :
  in_flight sample_running <= chan sample_running <= 1
  /\ pending sample_ents sample_running ++ running sample_running
       ++ completed sample_running ≡ₚ sample_ents
  /\ (main sample_running = PcReturned ->
      running sample_running = []
      /\ completed sample_running ≡ₚ sample_ents)
  /\ (main sample_running <> PcReturned ->
      exists s', step 1 always_fails sample_ents sample_running s')
  /\ (forall s', step 1 always_fails sample_ents sample_running s' ->
        (fuel sample_ents s' < fuel sample_ents sample_running)%nat).
Proof.
  apply (fan_out_bounded 1 always_fails sample_ents sample_running).
  - lia.
  - apply sample_running_reachable.
Defined.

(** ** C5 *)

Lemma preDispatch_abort (db : Database) (e : error) :
  preDispatch db = Abort e ->
  es_storage_fault db = Some e
  \/ (es_storage_fault db = None /\ result_table_fault db = Some e).
Proof.
  unfold preDispatch, queryAllESStorage, queryActiveResultTables.
  destruct (es_storage_fault db) as [e1 |]; [intros [= ->]; by left |].
  case_bool_decide; [done |].
  destruct (result_table_fault db) as [e2 |]; [intros [= ->]; by right |].
  by case_bool_decide.
Qed.

Lemma preDispatch_first_query_fails (db : Database) (e : error) :
  es_storage_fault db = Some e -> preDispatch db = Abort e.
Proof.
  intros He. unfold preDispatch, queryAllESStorage. by rewrite He.
Qed.

Lemma preDispatch_second_query_fails (db : Database) (e : error) :
  es_storage_fault db = None -> es_storage_rows db <> [] ->
  result_table_fault db = Some e -> preDispatch db = Abort e.
Proof.
  intros Hes Hrows Hrt.
  unfold preDispatch, queryAllESStorage, queryActiveResultTables.
  rewrite Hes, Hrt. unfold esStorageTableIdList. rewrite length_fmap.
  case_bool_decide as Hlen; [| done].
  destruct (es_storage_rows db); [done | discriminate].
Qed.

Lemma refresh_abort_only (db : Database) (limit : Z)
    (ManageESStorage : ESStorage -> option error) (e : error) :
  preDispatch db = Abort e ->
  RefreshESStorage db limit ManageESStorage (Some e)
  /\ forall ret, RefreshESStorage db limit ManageESStorage ret ->
       ret = Some e.
Proof.
  intros Hplan. split; [by apply refresh_abort |].
  intros ret Hrun. destruct Hrun as [e' Habort | Hnothing | l s Hdisp _ _];
    congruence.
Qed.

(** C5. A call of [RefreshESStorage] whose two metadata queries succeed
    returns [nil], whatever the reconcile operations of the entities
    return; an error it does return is the error of one of the two
    queries; with such queries and a non-zero limit the call does
    return. A failed load is returned: when the query of the storage
    rows fails, or when it yields rows and the query of the result
    tables fails, the call returns that error and nothing else. *)
Theorem refresh_returns_load_errors_only (db : Database) (limit : Z)
    (ManageESStorage : ESStorage -> option error) :
  (es_storage_fault db = None -> result_table_fault db = None ->
   forall ret, RefreshESStorage db limit ManageESStorage ret -> ret = None)
  /\ (forall e, RefreshESStorage db limit ManageESStorage (Some e) ->
        es_storage_fault db = Some e
        \/ (es_storage_fault db = None /\ result_table_fault db = Some e))
  /\ (es_storage_fault db = None -> result_table_fault db = None ->
      limit <> 0 -> RefreshESStorage db limit ManageESStorage None)
  /\ (forall e, es_storage_fault db = Some e ->
        RefreshESStorage db limit ManageESStorage (Some e)
        /\ forall ret, RefreshESStorage db limit ManageESStorage ret ->
             ret = Some e)
  /\ (forall e, es_storage_fault db = None -> es_storage_rows db <> [] ->
        result_table_fault db = Some e ->
        RefreshESStorage db limit ManageESStorage (Some e)
        /\ forall ret, RefreshESStorage db limit ManageESStorage ret ->
             ret = Some e).
Proof.
  split; [| split; [| split; [| split]]].
  - intros Hes Hrt ret Hrun.
    destruct Hrun as [e Habort | |]; [| done | done].
    apply preDispatch_abort in Habort as [? | [_ ?]]; congruence.
  - intros e Hrun. inversion Hrun as [e' Habort | |]; subst.
    by apply preDispatch_abort.
  - intros Hes Hrt Hlim.
    destruct (preDispatch db) as [e | | l] eqn:Hplan.
    + apply preDispatch_abort in Hplan as [? | [_ ?]]; congruence.
    + by apply refresh_nothing.
    + destruct (can_return limit ManageESStorage l init Hlim
                  (reach_init _ _ _)) as (s' & Hreach & Hret).
      by eapply refresh_dispatch.
  - intros e He. apply refresh_abort_only.
    by apply preDispatch_first_query_fails.
  - intros e Hes Hrows Hrt. apply refresh_abort_only.
    by apply preDispatch_second_query_fails.
Qed.

(** The store of [sample_db] with a failing query of the result tables. *)
Definition faulty_db : Database :=
  {| es_storage_rows := es_storage_rows sample_db;
     es_storage_fault := None;
     result_table_rows := result_table_rows sample_db;
     result_table_fault := Some (ErrOther "connection refused") |}.

(** Every reconcile fails and the pass still returns [nil]; the failed
    query of the result tables is what the pass returns. *)
Lemma refresh_returns_load_errors_only_sample :
  (RefreshESStorage sample_db 5 always_fails None
   /\ ~ exists e, RefreshESStorage sample_db 5 always_fails (Some e))
  /\ (RefreshESStorage faulty_db 5 always_fails
        (Some (ErrOther "connection refused"))
      /\ ~ RefreshESStorage faulty_db 5 always_fails None).
Proof.
  split.
  - pose proof (refresh_returns_load_errors_only sample_db 5 always_fails)
      as (Hnil & _ & Hruns & _).
    split.
    + by apply Hruns.
    + intros [e Hrun]. by specialize (Hnil eq_refl eq_refl _ Hrun).
  - pose proof (refresh_returns_load_errors_only faulty_db 5 always_fails)
      as (_ & _ & _ & _ & Hfail).
    destruct (Hfail (ErrOther "connection refused") eq_refl
                ltac:(discriminate) eq_refl) as [Hret Honly].
    split; [done |]. intros Hnil. by specialize (Honly _ Hnil).
Defined.

End TaskSpec.


(* ================================================================== *)
(** * Properties of package [service] *)
(* ================================================================== *)

Module ServiceSpec.
Import Service.

(** ** Cloud-region inference *)

Lemma pickMax_fold (l : list (Z * Z)) (acc : Z * Z) :
  acc.2 <= (fold_left pickMax l acc).2
  /\ (forall e, e ∈ l -> e.2 <= (fold_left pickMax l acc).2)
  /\ (fold_left pickMax l acc = acc \/ fold_left pickMax l acc ∈ l).
Proof.
  revert acc. induction l as [| a l IH]; intros acc; simpl.
  - split; [lia |]. split; [| by left].
    intros e He. by apply elem_of_nil in He.
  - destruct (IH (pickMax acc a)) as (Hacc & Hall & Hres).
    assert (acc.2 <= (pickMax acc a).2 /\ a.2 <= (pickMax acc a).2
            /\ (pickMax acc a = acc \/ pickMax acc a = a))
      as (Hle1 & Hle2 & Hpick).
    { unfold pickMax. case_bool_decide; simpl; repeat split;
        try lia; auto. }
    split; [lia |]. split.
    + intros e He. apply elem_of_cons in He as [-> | He]; [lia | auto].
    + destruct Hres as [Hres | Hres].
      * rewrite Hres. destruct Hpick as [-> | ->]; [by left |].
        right. by left.
      * right. by right.
Qed.

Lemma countCloud_positive (ipMap : gmap string Z)
    (nodes : list K8sNodeInfo) (m : gmap Z Z) :
  map_Forall (fun _ c => 1 <= c) m ->
  map_Forall (fun _ c => 1 <= c) (fold_left (countCloud ipMap) nodes m).
Proof.
  revert m. induction nodes as [| node nodes IH]; intros m Hm; simpl;
    [done |].
  apply IH. unfold countCloud.
  destruct (ipMap !! NodeIp node) as [bkCloudId |]; [| done].
  apply map_Forall_insert_2; [| done].
  destruct (m !! bkCloudId) as [c |] eqn:Hc; simpl; [| lia].
  specialize (Hm _ _ Hc). simpl in Hm. lia.
Qed.

Section CloudIdFacts.
Variable BcsClusterStatusRunning : string.
Variable FetchK8sNodeListByCluster : string -> result (list K8sNodeInfo).
Variable getHostByIp : list GetHostByIpParams -> Z -> result (list HostInfo).
Variable Update : BCSClusterInfo -> list column -> option error.
Variable rangeCloudCount : gmap Z Z -> list (Z * Z).

(** Whatever the order, [range] yields each entry of the map once. *)
Hypothesis range_permutes :
  forall m : gmap Z Z, rangeCloudCount m ≡ₚ map_to_list m.

Abbreviation infer :=
  (UpdateBcsClusterCloudIdConfig BcsClusterStatusRunning
     FetchK8sNodeListByCluster getHostByIp Update rangeCloudCount).
Abbreviation tally :=
  (regionTally FetchK8sNodeListByCluster getHostByIp).

Lemma regionTally_positive (b : BCSClusterInfo) (cloudCount : gmap Z Z) :
  tally b = Ok cloudCount -> map_Forall (fun _ c => 1 <= c) cloudCount.
Proof.
  unfold regionTally.
  destruct (FetchK8sNodeListByCluster (ClusterID b)) as [apiNodes |];
    [| done].
  destruct (lookupHosts getHostByIp (BkBizId b) _ ∅) as [ipMap |];
    [| done].
  intros [= <-]. apply countCloud_positive. apply map_Forall_empty.
Qed.

Lemma infer_running_unset (b : BCSClusterInfo) (cloudCount : gmap Z Z) :
  Status b = BcsClusterStatusRunning -> BkCloudId b = None ->
  tally b = Ok cloudCount ->
  infer (Some b)
  = {| cluster_after :=
         Some (set_BkCloudId b
                 (maxCountCloudId rangeCloudCount cloudCount));
       db_writes :=
         [{| row := set_BkCloudId b
                      (maxCountCloudId rangeCloudCount cloudCount);
             columns := [ColBkCloudId] |}];
       returned :=
         Update (set_BkCloudId b
                   (maxCountCloudId rangeCloudCount cloudCount))
                [ColBkCloudId] |}.
Proof.
  intros Hst Hcid Htally. unfold UpdateBcsClusterCloudIdConfig.
  rewrite bool_decide_eq_false_2 by (rewrite Hst, Hcid; tauto).
  by rewrite Htally.
Qed.

Lemma maxCountCloudId_highest (cloudCount : gmap Z Z) :
  cloudCount <> ∅ ->
  map_Forall (fun _ c => 1 <= c) cloudCount ->
  exists c,
    cloudCount !! maxCountCloudId rangeCloudCount cloudCount = Some c
    /\ forall r' c', cloudCount !! r' = Some c' -> c' <= c.
Proof.
  intros Hne Hpos. unfold maxCountCloudId.
  destruct (pickMax_fold (rangeCloudCount cloudCount) (0, 0))
    as (_ & Hall & Hres).
  set (res := fold_left pickMax (rangeCloudCount cloudCount) (0, 0)) in *.
  assert (Hin : forall r c, (r, c) ∈ rangeCloudCount cloudCount
                            <-> cloudCount !! r = Some c).
  { intros r c. rewrite range_permutes. apply elem_of_map_to_list. }
  destruct (map_choose _ Hne) as (r0 & c0 & Hr0).
  pose proof (Hall (r0, c0) (proj2 (Hin r0 c0) Hr0)) as Hc0.
  pose proof (Hpos _ _ Hr0) as Hc0pos. simpl in Hc0, Hc0pos.
  destruct Hres as [Hres | Hres].
  { rewrite Hres in Hc0. simpl in Hc0. lia. }
  destruct res as [r c] eqn:Hr. simpl in *. exists c. split.
  - by apply Hin.
  - intros r' c' Hr'. apply (Hall (r', c')). by apply Hin.
Qed.

(** ** C2 *)

(** C2. On a cluster whose region attribute is already set, or that is
    not in running status, the inference changes nothing, writes nothing
    and returns no error; a set attribute keeps its value through every
    call; and a call that changes the attribute found it absent on a
    running cluster and leaves it set. *)
Theorem cloud_id_written_once (b : BCSClusterInfo) :
  (Status b <> BcsClusterStatusRunning \/ BkCloudId b <> None ->
   infer (Some b)
   = {| cluster_after := Some b; db_writes := []; returned := None |})
  /\ (forall v b', BkCloudId b = Some v ->
        cluster_after (infer (Some b)) = Some b' -> BkCloudId b' = Some v)
  /\ (forall b', cluster_after (infer (Some b)) = Some b' ->
        BkCloudId b' <> BkCloudId b ->
        BkCloudId b = None /\ Status b = BcsClusterStatusRunning
        /\ is_Some (BkCloudId b')).
Proof.
  assert (Hskip : Status b <> BcsClusterStatusRunning \/ BkCloudId b <> None ->
                  infer (Some b)
                  = {| cluster_after := Some b; db_writes := [];
                       returned := None |}).
  { intros Hguard. unfold UpdateBcsClusterCloudIdConfig.
    by rewrite bool_decide_eq_true_2. }
  split; [done |]. split.
  - intros v b' Hv. rewrite Hskip by (right; congruence).
    simpl. by intros [= <-].
  - intros b'. unfold UpdateBcsClusterCloudIdConfig.
    case_bool_decide as Hguard; simpl.
    { intros [= <-]. done. }
    assert (Status b = BcsClusterStatusRunning /\ BkCloudId b = None)
      as [Hst Hcid].
    { split.
      - destruct (decide (Status b = BcsClusterStatusRunning)); [done |].
        exfalso. apply Hguard. by left.
      - destruct (BkCloudId b) eqn:Hc; [| done].
        exfalso. apply Hguard. by right. }
    destruct (tally b) as [cloudCount | e]; simpl.
    + intros [= <-] _. simpl. eauto.
    + intros [= <-]. done.
Qed.

(** ** C4 *)

(** C4. On a running cluster with an unset region attribute whose tally
    of resolved regions is not empty, the inference assigns a region of
    the tally whose count no other region of the tally exceeds: the
    region attribute of the cluster is that region after the call, and
    the one write issued carries it in the region column. *)
Theorem cloud_id_is_majority (b : BCSClusterInfo) (cloudCount : gmap Z Z) :
  Status b = BcsClusterStatusRunning ->
  BkCloudId b = None ->
  tally b = Ok cloudCount ->
  cloudCount <> ∅ ->
  exists r c b',
    infer (Some b)
    = {| cluster_after := Some b';
         db_writes := [{| row := b'; columns := [ColBkCloudId] |}];
         returned := Update b' [ColBkCloudId] |}
    /\ b' = set_BkCloudId b r
    /\ BkCloudId b' = Some r
    /\ cloudCount !! r = Some c
    /\ forall r' c', cloudCount !! r' = Some c' -> c' <= c.
Proof.
  intros Hst Hcid Htally Hne.
  rewrite (infer_running_unset b cloudCount) by done.
  destruct (maxCountCloudId_highest cloudCount Hne
              (regionTally_positive b cloudCount Htally))
    as (c & Hc & Hmax).
  exists (maxCountCloudId rangeCloudCount cloudCount), c,
    (set_BkCloudId b (maxCountCloudId rangeCloudCount cloudCount)).
  split; [done |]. split; [done |]. split; [reflexivity |]. by split.
Qed.

(** ** C10 *)

(** C10. On a running cluster with an unset region attribute whose
    tally is empty, the inference does not leave the attribute absent:
    the region attribute of the cluster is 0 after the call, the one
    write issued is that of the region column of a row whose region is
    0, and the call returns what the write returns; once the store has
    accepted the write, the stored row of the cluster has region 0 and
    its other columns as before. *)
Theorem cloud_id_defaults_to_zero (b : BCSClusterInfo) :
  Status b = BcsClusterStatusRunning ->
  BkCloudId b = None ->
  tally b = Ok ∅ ->
  exists b',
    infer (Some b)
    = {| cluster_after := Some b';
         db_writes := [{| row := b'; columns := [ColBkCloudId] |}];
         returned := Update b' [ColBkCloudId] |}
    /\ b' = set_BkCloudId b 0
    /\ BkCloudId b' = Some 0
    /\ forall (db : MetadataStore) (stored : BCSClusterInfo),
         db !! ClusterID b = Some stored ->
         Update b' [ColBkCloudId] = None ->
         exists stored',
           accept db {| row := b'; columns := [ColBkCloudId] |}
             !! ClusterID b = Some stored'
           /\ BkCloudId stored' = Some 0
           /\ stored' = set_BkCloudId stored 0.
Proof.
  intros Hst Hcid Htally.
  rewrite (infer_running_unset b ∅) by done.
  assert (maxCountCloudId rangeCloudCount ∅ = 0) as ->.
  { unfold maxCountCloudId.
    pose proof (range_permutes ∅) as Hperm.
    rewrite map_to_list_empty in Hperm.
    apply Permutation_nil_r in Hperm. by rewrite Hperm. }
  exists (set_BkCloudId b 0).
  split; [done |]. split; [done |]. split; [reflexivity |].
  intros db stored Hdb _. unfold accept. cbn [row columns ClusterID set_BkCloudId].
  rewrite Hdb. exists (set_BkCloudId stored 0).
  split; [| by split]. by rewrite lookup_insert_eq.
Qed.

End CloudIdFacts.

(** *** Sample inventory: five nodes, three in region 7, two in region 9 *)

Definition sample_node (name ip : string) : K8sNodeInfo :=
  {| NodeBcsClusterId := "BCS-K8S-00001"; NodeName := name; NodeIp := ip;
     NodeStatus := "Ready"; EndpointCount := 0; PodCount := 0 |}.

Definition sample_nodes : list K8sNodeInfo :=
  [ sample_node "n1" "10.0.0.1"; sample_node "n2" "10.0.0.2";
    sample_node "n3" "10.0.0.3"; sample_node "n4" "10.0.1.4";
    sample_node "n5" "10.0.1.5"; sample_node "n6" "" ].

Definition sample_host (ip : string) (cloud : Z) : HostInfo :=
  {| BkHostInnerip := ip; BkHostInneripV6 := ""; HostBkCloudId := cloud;
     BkHostId := 1 |}.

Definition sample_hosts : list HostInfo :=
  [ sample_host "10.0.0.1" 7; sample_host "10.0.0.2" 7;
    sample_host "10.0.0.3" 7; sample_host "10.0.1.4" 9;
    sample_host "10.0.1.5" 9 ].

Definition sample_fetch (clusterId : string) : result (list K8sNodeInfo) :=
  Ok sample_nodes.

(** The hosts of the inventory whose address is asked for. *)
Definition sample_lookup (params : list GetHostByIpParams) (bkBizId : Z)
  : result (list HostInfo) :=
  Ok (filter (fun h => BkHostInnerip h ∈ Ip <$> params) sample_hosts).

Definition empty_lookup (params : list GetHostByIpParams) (bkBizId : Z)
  : result (list HostInfo) :=
  Ok [].

Definition sample_update (b : BCSClusterInfo) (cols : list column)
  : option error :=
  None.

Definition range_sorted (m : gmap Z Z) : list (Z * Z) := map_to_list m.
Definition range_reversed (m : gmap Z Z) : list (Z * Z) :=
  reverse (map_to_list m).

Lemma range_sorted_permutes (m : gmap Z Z) : range_sorted m ≡ₚ map_to_list m.
Proof. done. Qed.

(** The cluster with region 3 already assigned. *)
Definition sample_assigned : BCSClusterInfo := set_BkCloudId sample_cluster 3.

Example sample_tally :
  regionTally sample_fetch sample_lookup sample_cluster
  = Ok {[ 7 := 3; 9 := 2 ]}.
Proof. by vm_compute. Qed.

(** Regions {7: 3 nodes, 9: 2 nodes}: region 7 is assigned, in whichever
    order the tally is ranged over. *)
Example sample_majority_is_7 :
  BkCloudId
    <$> cluster_after
          (UpdateBcsClusterCloudIdConfig "running" sample_fetch sample_lookup
             sample_update range_sorted (Some sample_cluster))
  = Some (Some 7)
  /\ BkCloudId
       <$> cluster_after
             (UpdateBcsClusterCloudIdConfig "running" sample_fetch
                sample_lookup sample_update range_reversed
                (Some sample_cluster))
     = Some (Some 7).
Proof. by vm_compute. Qed.

(** A cluster with region 3 assigned keeps it although its nodes
    resolve to region 7 in majority; a stopped cluster is left unset. *)
Example assigned_region_is_kept :
  UpdateBcsClusterCloudIdConfig "running" sample_fetch sample_lookup
    sample_update range_sorted (Some sample_assigned)
  = {| cluster_after := Some sample_assigned; db_writes := [];
       returned := None |}
  /\ UpdateBcsClusterCloudIdConfig "stopped" sample_fetch sample_lookup
       sample_update range_sorted (Some sample_cluster)
     = {| cluster_after := Some sample_cluster; db_writes := [];
          returned := None |}.
Proof. by vm_compute. Qed.

Lemma cloud_id_written_once_sample :
  (Status sample_assigned <> "running" \/ BkCloudId sample_assigned <> None ->
   UpdateBcsClusterCloudIdConfig "running" sample_fetch sample_lookup
     sample_update range_sorted (Some sample_assigned)
   = {| cluster_after := Some sample_assigned; db_writes := [];
        returned := None |})
  /\ (forall v b', BkCloudId sample_assigned = Some v ->
        cluster_after
          (UpdateBcsClusterCloudIdConfig "running" sample_fetch
             sample_lookup sample_update range_sorted
             (Some sample_assigned)) = Some b' ->
        BkCloudId b' = Some v)
  /\ (forall b',
        cluster_after
          (UpdateBcsClusterCloudIdConfig "running" sample_fetch
             sample_lookup sample_update range_sorted
             (Some sample_assigned)) = Some b' ->
        BkCloudId b' <> BkCloudId sample_assigned ->
        BkCloudId sample_assigned = None
        /\ Status sample_assigned = "running"
        /\ is_Some (BkCloudId b')).
Proof.
  exact (cloud_id_written_once "running" sample_fetch sample_lookup
           sample_update range_sorted sample_assigned).
Defined.

Lemma cloud_id_is_majority_sample :
  exists r c b',
    UpdateBcsClusterCloudIdConfig "running" sample_fetch sample_lookup
      sample_update range_sorted (Some sample_cluster)
    = {| cluster_after := Some b';
         db_writes := [{| row := b'; columns := [ColBkCloudId] |}];
         returned := sample_update b' [ColBkCloudId] |}
    /\ b' = set_BkCloudId sample_cluster r
    /\ BkCloudId b' = Some r
    /\ ({[ 7 := 3; 9 := 2 ]} : gmap Z Z) !! r = Some c
    /\ forall r' c',
         ({[ 7 := 3; 9 := 2 ]} : gmap Z Z) !! r' = Some c' -> c' <= c.
Proof.
  apply (cloud_id_is_majority "running" sample_fetch sample_lookup
           sample_update range_sorted range_sorted_permutes
           sample_cluster {[ 7 := 3; 9 := 2 ]}).
  - reflexivity.
  - reflexivity.
  - by vm_compute.
  - apply insert_non_empty.
Defined.

(** The metadata store holding the row of the sample cluster. *)
Definition sample_rows : MetadataStore :=
  {[ ClusterID sample_cluster := sample_cluster ]}.

Lemma cloud_id_defaults_to_zero_sample :
  exists b',
    UpdateBcsClusterCloudIdConfig "running" sample_fetch empty_lookup
      sample_update range_sorted (Some sample_cluster)
    = {| cluster_after := Some b';
         db_writes := [{| row := b'; columns := [ColBkCloudId] |}];
         returned := sample_update b' [ColBkCloudId] |}
    /\ b' = set_BkCloudId sample_cluster 0
    /\ BkCloudId b' = Some 0
    /\ forall (db : MetadataStore) (stored : BCSClusterInfo),
         db !! ClusterID sample_cluster = Some stored ->
         sample_update b' [ColBkCloudId] = None ->
         exists stored',
           accept db {| row := b'; columns := [ColBkCloudId] |}
             !! ClusterID sample_cluster = Some stored'
           /\ BkCloudId stored' = Some 0
           /\ stored' = set_BkCloudId stored 0.
Proof.
  apply (cloud_id_defaults_to_zero "running" sample_fetch empty_lookup
           sample_update range_sorted range_sorted_permutes
           sample_cluster).
  - reflexivity.
  - reflexivity.
  - by vm_compute.
Defined.

(** The stored row of the sample cluster after the accepted write. *)
Example sample_rows_after_default :
  BkCloudId
    <$> (accept sample_rows
           {| row := set_BkCloudId sample_cluster 0;
              columns := [ColBkCloudId] |} !! ClusterID sample_cluster)
  = Some (Some 0).
Proof. by vm_compute. Qed.

(** ** Structural comparison of documents *)

Lemma rangeSource_true (body : value -> value -> bool)
    (source target : gmap string value) :
  rangeSource body source target = true
  <-> forall k v, source !! k = Some v ->
        exists val, target !! k = Some val /\ body v val = true.
Proof.
  unfold rangeSource.
  apply (map_fold_weak_ind
           (fun r (m : gmap string value) =>
              r = true
              <-> forall k v, m !! k = Some v ->
                    exists val, target !! k = Some val
                                /\ body v val = true)).
  - split; [| done]. intros _ k v Hk. by rewrite lookup_empty in Hk.
  - intros i x m r Hfresh IH. rewrite andb_true_iff, IH. split.
    + intros [Hm Hi] k v Hk.
      destruct (decide (i = k)) as [<- | Hne].
      * rewrite lookup_insert_eq in Hk. injection Hk as <-.
        destruct (target !! i) as [val |]; [| done]. by exists val.
      * rewrite lookup_insert_ne in Hk by done. by apply Hm.
    + intros Hall. split.
      * intros k v Hk. apply Hall.
        rewrite lookup_insert_ne; [done |]. intros <-. congruence.
      * destruct (Hall i x (lookup_insert_eq _ _ _)) as (val & -> & Hb).
        done.
Qed.

Lemma interface_eqb_covered (v val : value) :
  isMapKind v = false ->
  interface_eqb v val = true <-> covered v val.
Proof.
  intros Hkind. split.
  - destruct v, val; simpl in *; try done;
      intros ->%bool_decide_eq_true; constructor.
  - intros Hcov. destruct Hcov; simpl in *; try done;
      by apply bool_decide_eq_true.
Qed.

Lemma sameEntry_generic (v : value) :
  generic v ->
  forall val, generic val -> sameEntry v val = true <-> covered v val.
Proof.
  induction 1 as [s | n | b | m Hm IH]; intros val Hval;
    try (by apply interface_eqb_covered).
  destruct Hval as [s | n | b | m' Hm']; simpl;
    try (split; [done | by inversion 1]).
  rewrite rangeSource_true. split.
  - intros Hall. constructor. intros k v Hk.
    destruct (Hall k v Hk) as (val & Hval & Hsame).
    exists val. split; [done |]. apply (IH k v Hk val); eauto.
  - intros Hcov k v Hk. inversion Hcov as [| | | ? ? Hall | | |]; subst.
    destruct (Hall k v Hk) as (val & Hval & Hc).
    exists val. split; [done |]. apply (IH k v Hk val); eauto.
Qed.

(** On documents made of scalars and generic maps, [isSameMapConfig]
    decides the comparison of the specification: true exactly when every
    key of the desired document is in the observed one with a recursively
    equal value. Keys that only the observed document has play no part. *)
Theorem isSameMapConfig_generic (source target : gmap string value) :
  generic (VMap source) -> generic (VMap target) ->
  isSameMapConfig source target = true
  <-> covered (VMap source) (VMap target).
Proof.
  intros Hs Ht. by rewrite <- (sameEntry_generic (VMap source) Hs _ Ht).
Qed.

Definition doc_a : gmap string value :=
  {[ "kind" := VString "DataID";
     "spec" := VMap {[ "dataID" := VInt64 1572864 ]} ]}.

Definition doc_b : gmap string value :=
  {[ "kind" := VString "DataID";
     "spec" := VMap {[ "dataID" := VInt64 1572864;
                       "extra" := VBool true ]};
     "status" := VString "ok" ]}.

Ltac generic_doc :=
  repeat match goal with
         | |- generic (VMap _) => constructor; intros ? ? ?
         | |- generic _ => constructor
         | H : <[_ := _]> _ !! _ = Some _ |- _ =>
             apply lookup_insert_Some in H as [[_ <-] | [_ H]]
         | H : {[_ := _]} !! _ = Some _ |- _ =>
             apply lookup_singleton_Some in H as [_ <-]
         end.

Lemma generic_doc_a : generic (VMap doc_a).
Proof. unfold doc_a. generic_doc. Qed.

Lemma generic_doc_b : generic (VMap doc_b).
Proof. unfold doc_b. generic_doc. Qed.

Lemma isSameMapConfig_generic_sample :
  isSameMapConfig doc_a doc_b = true <-> covered (VMap doc_a) (VMap doc_b).
Proof.
  apply (isSameMapConfig_generic doc_a doc_b).
  - apply generic_doc_a.
  - apply generic_doc_b.
Defined.

Example isSameMapConfig_sample_values :
  isSameMapConfig doc_a doc_b = true /\ isSameMapConfig doc_b doc_a = false.
Proof. by vm_compute. Qed.

(** ** C3 *)

(** The desired labels of a cluster, as [makeConfig] builds them (a
    string table under [spec.labels]), and the labels observed on a
    resource that carries another cluster identifier. *)
Definition desired_labels : gmap string value :=
  {[ "spec" :=
       VMap {[ "labels" :=
                 VStrMap {[ "bcs_cluster_id" := "BCS-K8S-00001" ]} ]} ]}.

Definition observed_labels : gmap string value :=
  {[ "spec" :=
       VMap {[ "labels" :=
                 VMap {[ "bcs_cluster_id" :=
                           VString "BCS-K8S-99999" ]} ]} ]}.

(** C3. [isSameMapConfig] at a desired document that holds a string
    table: the key [bcs_cluster_id] of the desired document has another
    value in the observed one, and the comparison still returns true. The
    type assertion to the generic map fails on the string table, its flag
    is dropped, and the recursive call ranges over a [nil] map. *)
Theorem isSameMapConfig_skips_string_table :
  isSameMapConfig desired_labels observed_labels = true
  /\ ~ covered (VMap desired_labels) (VMap observed_labels).
Proof.
  split; [by vm_compute |].
  intros Hcov. inversion Hcov as [| | | m m' Hspec | | |]; subst.
  destruct (Hspec "spec" _ (lookup_singleton_eq _ _)) as (val & Hval & Hc).
  unfold observed_labels in Hval. rewrite lookup_singleton_eq in Hval.
  injection Hval as <-.
  inversion Hc as [| | | m m' Hlabels | | |]; subst.
  destruct (Hlabels "labels" _ (lookup_singleton_eq _ _))
    as (val & Hval & Hc').
  rewrite lookup_singleton_eq in Hval. injection Hval as <-.
  inversion Hc' as [| | | | t m' Htable | |]; subst.
  specialize (Htable "bcs_cluster_id" _ (lookup_singleton_eq _ _)).
  rewrite lookup_singleton_eq in Htable. discriminate Htable.
Qed.

(** The same on whole documents: the document desired for the sample
    cluster against the one built for another cluster and business. *)
Definition moved_cluster : BCSClusterInfo :=
  {| ClusterID := "BCS-K8S-99999"; BCSApiClusterId := "BCS-K8S-99999";
     BkBizId := 100; ProjectId := "p1"; DomainName := "bcs.example.com";
     Port := 443; ServerAddressPath := "clusters"; Status := "running";
     BkCloudId := None; BkEnv := None;
     K8sMetricDataID := 1572864; CustomMetricDataID := 1572865;
     K8sEventDataID := 1572866; CustomEventDataID := 0 |}.

Definition sample_config (b : BCSClusterInfo) (register : DatasourceRegister)
  : gmap string value :=
  match makeConfig sample_settings (Ok no_rules) (fun _ => Ok no_rules)
          b register with
  | Ok u => Object u
  | Err _ => ∅
  end.

Definition specLabels (config : gmap string value) : option value :=
  match config !! "spec" with
  | Some (VMap spec) => spec !! "labels"
  | _ => None
  end.

Example stale_labels_pass_for_equal :
  Forall (fun register =>
            specLabels (sample_config sample_cluster register)
            = Some (VStrMap {[ "bcs_cluster_id" := "BCS-K8S-00001";
                               "bk_biz_id" := "2" ]})
            /\ specLabels (sample_config moved_cluster register)
               = Some (VStrMap {[ "bcs_cluster_id" := "BCS-K8S-99999";
                                  "bk_biz_id" := "100" ]})
            /\ isSameResourceConfig (sample_config sample_cluster register)
                 (sample_config moved_cluster register) = true)
         registers.
Proof. repeat constructor; by vm_compute. Qed.

(** ** C1 *)

(** A pass of [RefreshCommonResource] for the sample cluster, over the
    catalog in the given range order. *)
Definition refresh_sample (order : list DatasourceRegister) (w : MemStore)
  : option error * MemStore :=
  RefreshCommonResource sample_settings (Ok no_rules) (fun _ => Ok no_rules)
    (Some sample_cluster) order w.

Definition init_sample (order : list DatasourceRegister) (w : MemStore)
  : option error * MemStore :=
  InitResource sample_settings (Ok no_rules) (fun _ => Ok no_rules)
    (Some sample_cluster) order w.

(** Once a register's resource is found absent, the registers after it
    are not looked at: the loop returns from inside its body. *)
Lemma refreshRegisters_returns_after_create {W : Type} `{DynamicClient W}
    (conf : Settings) (common : result ReplaceConfig)
    (perCluster : string -> result ReplaceConfig) (b : BCSClusterInfo)
    (observed : gmap string Unstructured) (register : DatasourceRegister)
    (rest : list DatasourceRegister) (w : W) :
  observed !! composeDataidResourceName conf b
                (ToLower (DatasourceName register)) = None ->
  refreshRegisters conf common perCluster b observed (register :: rest) w
  = refreshRegisters conf common perCluster b observed [register] w.
Proof.
  intros Habsent. simpl. rewrite Habsent.
  destruct (makeConfig conf common perCluster b register); [| done].
  by destruct (ensureDataIdResource conf _ _ w) as [[e |] w'].
Qed.

(** C1. [RefreshCommonResource] on a cluster that holds none of the
    resources of the catalog: in each of the orders the catalog can be
    ranged over, the pass returns [nil] after three requests (the list,
    one get, one create) and leaves one resource in the store, for a
    catalog of three usages. *)
Theorem refresh_creates_one_resource_per_pass :
  length registers = 3%nat
  /\ Forall (fun order =>
               (refresh_sample order empty_store).1 = None
               /\ length (served (refresh_sample order empty_store).2)
                  = 3%nat
               /\ size (stored (refresh_sample order empty_store).2)
                  = 1%nat)
            (permutations registers).
Proof. split; [done |]. repeat constructor; by vm_compute. Qed.

(** The pass run at registration, over the same catalog and store,
    creates the three resources. *)
Example init_creates_every_resource :
  Forall (fun order =>
            (init_sample order empty_store).1 = None
            /\ size (stored (init_sample order empty_store).2) = 3%nat)
         (permutations registers).
Proof. repeat constructor; by vm_compute. Qed.

(** It takes three passes of [RefreshCommonResource] to get there. *)
Example refresh_needs_three_passes :
  let w1 := (refresh_sample registers empty_store).2 in
  let w2 := (refresh_sample registers w1).2 in
  let w3 := (refresh_sample registers w2).2 in
  size (stored w1) = 1%nat /\ size (stored w2) = 2%nat
  /\ size (stored w3) = 3%nat.
Proof. by vm_compute. Qed.

End ServiceSpec.


(* ================================================================== *)
(** * More of package [target]: hash input, file names, [sortMap] *)
(* ================================================================== *)

Module TargetExtra.
Import Target.

(** ** The bytes [generateTaskID] hashes *)

Definition label_bytes (label : Label) : list Z :=
  bytes (LabelName label) ++ bytes (LabelValue label).

(** The byte strings of the [h.Write] calls of [generateTaskID], one
    after the other. *)
Definition taskIDInput (t : MetricTarget) : list Z :=
  bytes (sprintf_d (DataID t)) ++ bytes (Address t) ++ bytes (Path t)
  ++ concat (label_bytes <$> Labels t)
  ++ bytes (sprintf_d (MetaIndex (Meta t))) ++ bytes (Namespace t)
  ++ bytes (MetaName (Meta t)).

Lemma sum64a_Write_app (hash : Z) (a b : list Z) :
  sum64a_Write hash (a ++ b) = sum64a_Write (sum64a_Write hash a) b.
Proof. unfold sum64a_Write. apply fold_left_app. Qed.

Lemma write_labels_concat (labels : list Label) (hash : Z) :
  fold_left write_label labels hash
  = sum64a_Write hash (concat (label_bytes <$> labels)).
Proof.
  revert hash. induction labels as [| l labels IH]; intros hash; simpl;
    [done |].
  rewrite IH. unfold write_label, label_bytes.
  by rewrite !sum64a_Write_app.
Qed.

Lemma taskIDSum64_input (t : MetricTarget) :
  taskIDSum64 t = sum64a_Write offset64 (taskIDInput t).
Proof.
  unfold taskIDSum64, taskIDInput.
  by rewrite !sum64a_Write_app, write_labels_concat.
Qed.

(** The hash is fed field after field with nothing in between: two
    targets whose hashed fields concatenate to the same bytes get the same
    identifier, even when the fields themselves differ. *)
Theorem generateTaskID_of_concatenation (t1 t2 : MetricTarget) :
  taskIDInput t1 = taskIDInput t2 -> generateTaskID t1 = generateTaskID t2.
Proof.
  intros Heq. unfold generateTaskID. by rewrite !taskIDSum64_input, Heq.
Qed.

Definition split_target (address path : string) : MetricTarget :=
  {| Meta := {| MetaName := "m"; MetaNamespace := "ns"; MetaIndex := 0 |};
     RelabelRule := ""; RelabelIndex := ""; NormalizeMetricName := false;
     Address := address; NodeName := "n"; Scheme := "http";
     DataID := 1001; Namespace := "ns";
     MaxTimeout := ""; MinPeriod := ""; Period := ""; Timeout := "";
     Path := path; ProxyURL := ""; Username := ""; Password := "";
     BearerTokenFile := ""; BearerToken := ""; Labels := [];
     ExtraLabels := ∅; DimensionReplace := ∅; MetricReplace := ∅;
     Mask := ""; TaskType := ""; DisableCustomTimestamp := false |}.

(** Address [10.0.0.1:80] with path [/metrics] against address
    [10.0.0.1:80/met] with path [rics]. *)
Lemma generateTaskID_of_concatenation_sample :
  generateTaskID (split_target "10.0.0.1:80" "/metrics")
  = generateTaskID (split_target "10.0.0.1:80/met" "rics").
Proof.
  apply (generateTaskID_of_concatenation
           (split_target "10.0.0.1:80" "/metrics")
           (split_target "10.0.0.1:80/met" "rics")).
  reflexivity.
Defined.

(** ** The range of the identifier *)

Lemma fnv_byte_range (hash c : Z) : 0 <= fnv_byte hash c < uint64_mod.
Proof. unfold fnv_byte. apply Z.mod_pos_bound. by vm_compute. Qed.

Lemma sum64a_Write_range (data : list Z) (hash : Z) :
  0 <= hash < uint64_mod -> 0 <= sum64a_Write hash data < uint64_mod.
Proof.
  revert hash. unfold sum64a_Write.
  induction data as [| c data IH]; intros hash Hh; simpl; [done |].
  apply IH, fnv_byte_range.
Qed.

(** Every task identifier is a non-negative 31-bit integer, whatever the
    target, and reducing it once more changes nothing. *)
Theorem generateTaskID_fits_int32 (t : MetricTarget) :
  0 <= generateTaskID t <= MaxInt32
  /\ avoidOverflow (generateTaskID t) = generateTaskID t.
Proof.
  unfold generateTaskID.
  assert (0 <= taskIDSum64 t < uint64_mod) as [Hpos _].
  { rewrite taskIDSum64_input. apply sum64a_Write_range. by vm_compute. }
  split; [split |].
  - by apply TargetSpec.avoidOverflow_nonneg.
  - apply TargetSpec.avoidOverflow_le.
  - apply TargetSpec.avoidOverflow_small, TargetSpec.avoidOverflow_le.
Qed.

(** ** [FileName] *)

(** [a-zA-Z0-9] on a code point. *)
Definition isAlnum (r : Z) : bool :=
  ((48 <=? r) && (r <=? 57)) || ((65 <=? r) && (r <=? 90))
  || ((97 <=? r) && (r <=? 122)).

Definition dash : Ascii.ascii := Ascii.ascii_of_nat 45.

(** [strings.ReplaceAll(name, "--", "-")]: the matches are taken from
    the left and do not overlap. *)
Fixpoint ReplaceAll_dashes (name : list Ascii.ascii) : list Ascii.ascii :=
  match name with
  | a :: ((b :: rest) as tl) =>
      if Ascii.eqb a dash && Ascii.eqb b dash
      then dash :: ReplaceAll_dashes rest
      else a :: ReplaceAll_dashes tl
  | _ => name
  end.

Section FileName.
(** The code points of a string, as the regular expression engine reads
    them (UTF-8 decoding, one code point for each byte it cannot
    decode). *)
Variable decodeRunes : string -> list Z.
(** [t.Hash()], the FNV-1a sum of the marshalled configuration; the
    marshaller is a library, the sum is a parameter. *)
Variable Hash : MetricTarget -> Z.

(** [regx.ReplaceAllString(s, "-")] for [[^a-zA-Z0-9]]. *)
Definition replaceNonAlnum (s : string) : list Ascii.ascii :=
  (fun r => if isAlnum r then Ascii.ascii_of_N (Z.to_N r) else dash)
    <$> decodeRunes s.

Definition FileName (t : MetricTarget) : string :=
  let s := NodeName t +:+ "-" +:+ Address t +:+ "-" +:+ Path t +:+ "-"
           +:+ sprintf_d (Hash t) +:+ "-" +:+ Mask t in
  String.string_of_list_ascii (ReplaceAll_dashes (replaceNonAlnum s)).
End FileName.

(** A character a file name may hold. *)
Definition name_char (c : Ascii.ascii) : Prop :=
  isAlnum (Z.of_N (Ascii.N_of_ascii c)) = true \/ c = dash.

Lemma ReplaceAll_dashes_cons2 (a b : Ascii.ascii)
    (rest : list Ascii.ascii) :
  ReplaceAll_dashes (a :: b :: rest)
  = if Ascii.eqb a dash && Ascii.eqb b dash
    then dash :: ReplaceAll_dashes rest
    else a :: ReplaceAll_dashes (b :: rest).
Proof. done. Qed.

Lemma ReplaceAll_dashes_chars (name : list Ascii.ascii) :
  Forall name_char name -> Forall name_char (ReplaceAll_dashes name).
Proof.
  induction name as [name IH] using (induction_ltof1 _ (@length _)).
  unfold ltof in IH. intros Hall.
  destruct name as [| a [| b rest]]; try done.
  rewrite ReplaceAll_dashes_cons2.
  inversion Hall as [| ? ? Ha Htl]; subst.
  inversion Htl as [| ? ? Hb Hrest]; subst.
  destruct (Ascii.eqb a dash && Ascii.eqb b dash).
  - constructor; [by right |]. apply IH; [simpl; lia | done].
  - constructor; [done |]. apply IH; [simpl; lia | done].
Qed.

Lemma ReplaceAll_dashes_length (name : list Ascii.ascii) :
  (length (ReplaceAll_dashes name) <= length name)%nat.
Proof.
  induction name as [name IH] using (induction_ltof1 _ (@length _)).
  unfold ltof in IH.
  destruct name as [| a [| b rest]]; try (simpl; lia).
  rewrite ReplaceAll_dashes_cons2.
  destruct (Ascii.eqb a dash && Ascii.eqb b dash).
  - specialize (IH rest). simpl in *. lia.
  - specialize (IH (b :: rest)). simpl in *. lia.
Qed.

Lemma replaceNonAlnum_chars (decodeRunes : string -> list Z) (s : string) :
  Forall name_char (replaceNonAlnum decodeRunes s).
Proof.
  unfold replaceNonAlnum. apply Forall_fmap, Forall_true. intros r. simpl.
  destruct (isAlnum r) eqn:Hr; [| by right]. left.
  assert (0 <= r < 256) as Hrange.
  { unfold isAlnum in Hr. lia. }
  rewrite Ascii.N_ascii_embedding by lia.
  by rewrite Z2N.id by lia.
Qed.

Lemma length_string_of_list_ascii (l : list Ascii.ascii) :
  String.length (String.string_of_list_ascii l) = length l.
Proof. induction l as [| c l IH]; simpl; [done | by rewrite IH]. Qed.

(** A file name holds letters, digits and dashes only, and is not longer
    than the text it is made from has code points. *)
Theorem FileName_is_sanitized (decodeRunes : string -> list Z)
    (Hash : MetricTarget -> Z) (t : MetricTarget) :
  Forall name_char
    (String.list_ascii_of_string (FileName decodeRunes Hash t))
  /\ (String.length (FileName decodeRunes Hash t)
      <= length (decodeRunes
                   (NodeName t +:+ "-" +:+ Address t +:+ "-" +:+ Path t
                    +:+ "-" +:+ sprintf_d (Hash t) +:+ "-" +:+ Mask t)))%nat.
Proof.
  unfold FileName. split.
  - rewrite String.list_ascii_of_string_of_list_ascii.
    apply ReplaceAll_dashes_chars, replaceNonAlnum_chars.
  - rewrite length_string_of_list_ascii.
    etrans; [apply ReplaceAll_dashes_length |].
    unfold replaceNonAlnum. by rewrite length_fmap.
Qed.

(** A run of three dashes is left with two: the replacement is one pass. *)
Example FileName_keeps_a_double_dash :
  FileName (fun s => bytes s) (fun _ => 7)
    (split_target "a b" "/m")
  = "n-a-b-m-7-"
  /\ String.string_of_list_ascii
       (ReplaceAll_dashes (String.list_ascii_of_string "a---b"))
     = "a--b".
Proof. by vm_compute. Qed.

(** ** [sortMap] *)

(** [sort.Strings]: ascending in the byte order of strings. *)
Definition sort_Strings (keys : list string) : list string :=
  merge_sort String.le keys.

Section SortMap.
(** The order in which [for key := range origin] yields the keys. *)
Variable rangeKeys : gmap string string -> list string.

(** The items [yaml.MapItem{Key: key, Value: origin[key]}], by sorted key. *)
Definition sortMap (origin : gmap string string) : list (string * string) :=
  (fun key => (key, default "" (origin !! key)))
    <$> sort_Strings (rangeKeys origin).
End SortMap.

Lemma sort_Strings_unique (keys1 keys2 : list string) :
  keys1 ≡ₚ keys2 -> sort_Strings keys1 = sort_Strings keys2.
Proof.
  intros Hperm. unfold sort_Strings.
  apply (StronglySorted_unique String.le).
  - apply StronglySorted_merge_sort; apply _.
  - apply StronglySorted_merge_sort; apply _.
  - by rewrite !merge_sort_Permutation.
Qed.

Lemma sortMap_elem (rangeKeys : gmap string string -> list string)
    (origin : gmap string string) (k v : string) :
  rangeKeys origin ≡ₚ (map_to_list origin).*1 ->
  (k, v) ∈ sortMap rangeKeys origin <-> origin !! k = Some v.
Proof.
  intros Hperm. unfold sortMap, sort_Strings.
  rewrite list_elem_of_fmap. split.
  - intros (key & [= -> ->] & Hkey).
    rewrite merge_sort_Permutation, Hperm in Hkey.
    apply list_elem_of_fmap in Hkey as ([k' v'] & -> & Hin).
    apply elem_of_map_to_list in Hin. simpl. by rewrite Hin.
  - intros Hk. exists k. split; [by rewrite Hk |].
    rewrite merge_sort_Permutation, Hperm.
    apply list_elem_of_fmap. exists (k, v). split; [done |].
    by apply elem_of_map_to_list.
Qed.

Lemma sortMap_keys (rangeKeys : gmap string string -> list string)
    (origin : gmap string string) :
  (sortMap rangeKeys origin).*1 = sort_Strings (rangeKeys origin).
Proof.
  unfold sortMap. induction (sort_Strings (rangeKeys origin)) as [| k l IH];
    [done | by rewrite !fmap_cons, IH].
Qed.

(** [sortMap] gives the entries of the map, each once, in ascending key
    order, and the same list for every order in which the map is ranged
    over. *)
Theorem sortMap_is_canonical (range1 range2 : gmap string string -> list string)
    (origin : gmap string string) :
  range1 origin ≡ₚ (map_to_list origin).*1 ->
  range2 origin ≡ₚ (map_to_list origin).*1 ->
  sortMap range1 origin = sortMap range2 origin
  /\ StronglySorted String.le (sortMap range1 origin).*1
  /\ NoDup (sortMap range1 origin).*1
  /\ forall k v, (k, v) ∈ sortMap range1 origin <-> origin !! k = Some v.
Proof.
  intros H1 H2. split; [| split; [| split]].
  - unfold sortMap. f_equal. apply sort_Strings_unique. by rewrite H1, H2.
  - rewrite sortMap_keys. apply StronglySorted_merge_sort; apply _.
  - rewrite sortMap_keys. unfold sort_Strings.
    rewrite merge_sort_Permutation, H1.
    apply NoDup_fst_map_to_list.
  - intros k v. by apply sortMap_elem.
Qed.

Definition range_ascending (m : gmap string string) : list string :=
  (map_to_list m).*1.
Definition range_descending (m : gmap string string) : list string :=
  reverse (map_to_list m).*1.

Lemma sortMap_is_canonical_sample :
  sortMap range_ascending {[ "zone" := "a"; "app" := "web"; "env" := "x" ]}
  = sortMap range_descending
      {[ "zone" := "a"; "app" := "web"; "env" := "x" ]}
  /\ StronglySorted String.le
       (sortMap range_ascending
          {[ "zone" := "a"; "app" := "web"; "env" := "x" ]}).*1
  /\ NoDup (sortMap range_ascending
              {[ "zone" := "a"; "app" := "web"; "env" := "x" ]}).*1
  /\ forall k v,
       (k, v) ∈ sortMap range_ascending
                  {[ "zone" := "a"; "app" := "web"; "env" := "x" ]}
       <-> ({[ "zone" := "a"; "app" := "web"; "env" := "x" ]}
              : gmap string string) !! k = Some v.
Proof.
  apply (sortMap_is_canonical range_ascending range_descending
           {[ "zone" := "a"; "app" := "web"; "env" := "x" ]}).
  - reflexivity.
  - unfold range_descending. apply reverse_Permutation.
Defined.

Example sortMap_sample_value :
  sortMap range_descending {[ "zone" := "a"; "app" := "web"; "env" := "x" ]}
  = [("app", "web"); ("env", "x"); ("zone", "a")].
Proof. by vm_compute. Qed.

End TargetExtra.


(* ================================================================== *)
(** * Package [gse_event]: system events flattened to records *)
(* ================================================================== *)

Module GseEvent.

(** [EventRecord]. The values of [Event] and [EventDimension] are
    interfaces in the source; every value put there by this package is a
    string. [Timestamp] is a pointer that the functions below leave
    [nil]. *)
Record EventRecord := {
  EventName : string;
  Event : gmap string string;
  EventDimension : gmap string string;
  Target : string;
  Timestamp : option Z;
}.

Record AgentHost := { IP : string; HostCloudID : Z; AgentID : string }.

Record AgentLostEvent := { AgentHosts : list AgentHost }.

Record CorefileEvent := {
  CoreHost : string;
  CoreCloudID : Z;
  Executable : string;
  ExecutablePath : string;
  Signal : string;
  Corefile : string;
  Filesize : string;
}.

Record DiskFullEvent := {
  FullHost : string;
  FullCloudID : Z;
  Disk : string;
  FileSystem : string;
  FsType : string;
}.

Record ReadonlyEntry := { Position : string; Fs : string; RoType : string }.

Record DiskReadonlyEvent := {
  RoHost : string;
  RoCloudID : Z;
  Ro : list ReadonlyEntry;
}.

Record OOMEvent := {
  OomHost : string;
  OomCloudID : Z;
  Process : string;
  Message : string;
  OOMMemcg : string;
  TaskMemcg : string;
  OomTask : string;
  Constraint : string;
}.

Record PingLostEvent := { PingHosts : list string; PingCloudID : Z }.

(** The implementations of the interface [BaseEvent]. *)
Inductive BaseEvent :=
| EvAgentLost (e : AgentLostEvent)
| EvDiskReadonly (e : DiskReadonlyEvent)
| EvDiskFull (e : DiskFullEvent)
| EvCorefile (e : CorefileEvent)
| EvPingLost (e : PingLostEvent)
| EvOOM (e : OOMEvent).

(** [conv.String(n)] on an [int], and [fmt.Sprintf("%d:%s", cloud, ip)]. *)
Definition conv_String (n : Z) : string := pretty n.

Definition cloud_ip (cloud : Z) (ip : string) : string :=
  pretty cloud +:+ ":" +:+ ip.

Definition content (name : string) : gmap string string :=
  {[ "content" := name ]}.

(** The four dimensions every record carries. *)
Definition host_dimensions (cloud : Z) (ip : string) : gmap string string :=
  {[ "bk_target_cloud_id" := conv_String cloud;
     "bk_target_ip" := ip;
     "ip" := ip;
     "bk_cloud_id" := conv_String cloud ]}.

Definition flatAgentLost (e : AgentLostEvent) : list EventRecord :=
  (fun host =>
     let target :=
       if bool_decide (AgentID host = "") then AgentID host
       else cloud_ip (HostCloudID host) (IP host) in
     {| EventName := "agent_lost"; Target := target;
        Event := content "agent_lost";
        EventDimension :=
          <["bk_agent_id" := AgentID host]>
            (host_dimensions (HostCloudID host) (IP host));
        Timestamp := None |})
    <$> AgentHosts e.

Definition flatCorefile (e : CorefileEvent) : list EventRecord :=
  [ {| EventName := "corefile";
       Target := cloud_ip (CoreCloudID e) (CoreHost e);
       Event := content "corefile";
       EventDimension :=
         <["executable" := Executable e]>
           (<["executable_path" := ExecutablePath e]>
              (<["signal" := Signal e]>
                 (<["corefile" := Corefile e]>
                    (<["filesize" := Filesize e]>
                       (host_dimensions (CoreCloudID e) (CoreHost e))))));
       Timestamp := None |} ].

Definition flatDiskFull (e : DiskFullEvent) : list EventRecord :=
  [ {| EventName := "disk_full";
       Target := cloud_ip (FullCloudID e) (FullHost e);
       Event := content "disk_full";
       EventDimension :=
         <["disk" := Disk e]>
           (<["file_system" := FileSystem e]>
              (<["fstype" := FsType e]>
                 (host_dimensions (FullCloudID e) (FullHost e))));
       Timestamp := None |} ].

Definition flatDiskReadonly (e : DiskReadonlyEvent) : list EventRecord :=
  (fun ro =>
     {| EventName := "disk_readonly";
        Target := cloud_ip (RoCloudID e) (RoHost e);
        Event := content "disk_readonly";
        EventDimension :=
          <["position" := Position ro]>
            (<["fs" := Fs ro]>
               (<["type" := RoType ro]>
                  (host_dimensions (RoCloudID e) (RoHost e))));
        Timestamp := None |})
    <$> Ro e.

Definition flatOOM (e : OOMEvent) : list EventRecord :=
  [ {| EventName := "oom";
       Target := cloud_ip (OomCloudID e) (OomHost e);
       Event := content "oom";
       EventDimension :=
         <["process" := Process e]>
           (<["message" := Message e]>
              (<["oom_memcg" := OOMMemcg e]>
                 (<["task_memcg" := TaskMemcg e]>
                    (<["task" := OomTask e]>
                       (<["constraint" := Constraint e]>
                          (host_dimensions (OomCloudID e) (OomHost e)))))));
       Timestamp := None |} ].

Definition flatPingLost (e : PingLostEvent) : list EventRecord :=
  (fun host =>
     {| EventName := "ping_lost";
        Target := cloud_ip (PingCloudID e) host;
        Event := content "ping_lost";
        EventDimension := host_dimensions (PingCloudID e) host;
        Timestamp := None |})
    <$> PingHosts e.

(** [event.Flat()] *)
Definition Flat (event : BaseEvent) : list EventRecord :=
  match event with
  | EvAgentLost e => flatAgentLost e
  | EvDiskReadonly e => flatDiskReadonly e
  | EvDiskFull e => flatDiskFull e
  | EvCorefile e => flatCorefile e
  | EvPingLost e => flatPingLost e
  | EvOOM e => flatOOM e
  end.

Section Parse.
(** [json.RawMessage] and the decoders [json.Unmarshal] runs on it, one
    for each target type; [None] is a decoding error. *)
Variable RawMessage : Type.
Variable decodeType : RawMessage -> option Z.
Variable decodeAgentLost : RawMessage -> option AgentLostEvent.
Variable decodeDiskReadonly : RawMessage -> option DiskReadonlyEvent.
Variable decodeDiskFull : RawMessage -> option DiskFullEvent.
Variable decodeCorefile : RawMessage -> option CorefileEvent.
Variable decodePingLost : RawMessage -> option PingLostEvent.
Variable decodeOOM : RawMessage -> option OOMEvent.

(** The [switch eventType.Type]: the event, or [nil]. *)
Definition decodeEvent (data : RawMessage) (ty : Z) : option BaseEvent :=
  if bool_decide (ty = 2) then EvAgentLost <$> decodeAgentLost data
  else if bool_decide (ty = 3) then EvDiskReadonly <$> decodeDiskReadonly data
  else if bool_decide (ty = 6) then EvDiskFull <$> decodeDiskFull data
  else if bool_decide (ty = 7) then EvCorefile <$> decodeCorefile data
  else if bool_decide (ty = 8) then EvPingLost <$> decodePingLost data
  else if bool_decide (ty = 9) then EvOOM <$> decodeOOM data
  else None.

Definition parseSystemEvent (data : RawMessage) : list EventRecord :=
  match decodeType data with
  | None => []
  | Some ty =>
      match decodeEvent data ty with
      | None => []
      | Some event => Flat event
      end
  end.
End Parse.

(** The event name that goes with a type code. *)
Definition name_of_type (ty : Z) : option string :=
  if bool_decide (ty = 2) then Some "agent_lost"
  else if bool_decide (ty = 3) then Some "disk_readonly"
  else if bool_decide (ty = 6) then Some "disk_full"
  else if bool_decide (ty = 7) then Some "corefile"
  else if bool_decide (ty = 8) then Some "ping_lost"
  else if bool_decide (ty = 9) then Some "oom"
  else None.

(** How many records an event flattens to. *)
Definition record_count (event : BaseEvent) : nat :=
  match event with
  | EvAgentLost e => length (AgentHosts e)
  | EvDiskReadonly e => length (Ro e)
  | EvPingLost e => length (PingHosts e)
  | EvDiskFull _ | EvCorefile _ | EvOOM _ => 1
  end.

(** ** Properties *)

Lemma host_dimensions_lookup (cloud : Z) (ip : string) :
  host_dimensions cloud ip !! "bk_target_cloud_id" = Some (conv_String cloud)
  /\ host_dimensions cloud ip !! "bk_cloud_id" = Some (conv_String cloud)
  /\ host_dimensions cloud ip !! "bk_target_ip" = Some ip
  /\ host_dimensions cloud ip !! "ip" = Some ip.
Proof.
  (* the keys are literals: each lookup computes *)
  unfold host_dimensions. by repeat split.
Qed.

(** A set of dimensions that names the host [cloud], [ip] in both
    spellings. *)
Definition names_host (dims : gmap string string) (cloud : Z) (ip : string)
  : Prop :=
  dims !! "bk_target_cloud_id" = Some (conv_String cloud)
  /\ dims !! "bk_cloud_id" = Some (conv_String cloud)
  /\ dims !! "bk_target_ip" = Some ip
  /\ dims !! "ip" = Some ip.

(* the keys of the dimensions are literals: each lookup computes *)
Ltac names_host_tac := by repeat split.

(** [cloud:ip] is never the empty string. *)
Lemma cloud_ip_nonempty (cloud : Z) (ip : string) : cloud_ip cloud ip <> "".
Proof.
  unfold cloud_ip. destruct (pretty cloud) as [| a rest]; discriminate.
Qed.

(** The target a record of [event] is to carry, given its dimensions and
    the host [cloud], [ip] they name: empty for the host of an agent-lost
    event whose agent id is empty, [cloud:ip] otherwise. *)
Definition expected_target (event : BaseEvent) (dims : gmap string string)
    (cloud : Z) (ip : string) : string :=
  match event with
  | EvAgentLost _ =>
      if bool_decide (dims !! "bk_agent_id" = Some "") then ""
      else cloud_ip cloud ip
  | _ => cloud_ip cloud ip
  end.

(** Every record an event flattens to has its event name as content, no
    timestamp, and dimensions that name one host in both spellings. Its
    target is [cloud:ip] of that host, which is not empty, with one
    exception: the record of an agent-lost host whose agent id is empty
    has the empty target. The records of an agent-lost event carry the
    agent id as a dimension; an agent id is never used as the target. *)
Theorem Flat_records_name_their_host (event : BaseEvent) (r : EventRecord) :
  r ∈ Flat event ->
  Event r = content (EventName r)
  /\ Timestamp r = None
  /\ exists cloud ip,
       names_host (EventDimension r) cloud ip
       /\ Target r = expected_target event (EventDimension r) cloud ip
       /\ cloud_ip cloud ip <> ""
       /\ match event with
          | EvAgentLost e =>
              exists host, host ∈ AgentHosts e
                /\ EventDimension r !! "bk_agent_id" = Some (AgentID host)
                /\ HostCloudID host = cloud /\ IP host = ip
          | _ => True
          end.
Proof.
  destruct event as [e | e | e | e | e | e]; simpl;
    unfold flatAgentLost, flatDiskReadonly, flatDiskFull, flatCorefile,
      flatPingLost, flatOOM.
  - intros (host & -> & Hhost)%list_elem_of_fmap. simpl.
    split; [done |]. split; [done |].
    exists (HostCloudID host), (IP host). split; [names_host_tac |].
    rewrite lookup_insert_eq.
    split; [| split; [apply cloud_ip_nonempty | by exists host]].
    destruct (decide (AgentID host = "")) as [Hid | Hid].
    + rewrite !bool_decide_eq_true_2; [done | by rewrite Hid | done].
    + rewrite !bool_decide_eq_false_2; [done | congruence | done].
  - intros (ro & -> & _)%list_elem_of_fmap. simpl.
    split; [done |]. split; [done |].
    exists (RoCloudID e), (RoHost e). split; [names_host_tac |].
    split; [done |]. split; [apply cloud_ip_nonempty | done].
  - intros ->%list_elem_of_singleton. simpl.
    split; [done |]. split; [done |].
    exists (FullCloudID e), (FullHost e). split; [names_host_tac |].
    split; [done |]. split; [apply cloud_ip_nonempty | done].
  - intros ->%list_elem_of_singleton. simpl.
    split; [done |]. split; [done |].
    exists (CoreCloudID e), (CoreHost e). split; [names_host_tac |].
    split; [done |]. split; [apply cloud_ip_nonempty | done].
  - intros (host & -> & _)%list_elem_of_fmap. simpl.
    split; [done |]. split; [done |].
    exists (PingCloudID e), host. split; [names_host_tac |].
    split; [done |]. split; [apply cloud_ip_nonempty | done].
  - intros ->%list_elem_of_singleton. simpl.
    split; [done |]. split; [done |].
    exists (OomCloudID e), (OomHost e). split; [names_host_tac |].
    split; [done |]. split; [apply cloud_ip_nonempty | done].
Qed.

Definition sample_agent_lost_event : AgentLostEvent :=
  {| AgentHosts :=
       [ {| IP := "10.0.0.1"; HostCloudID := 0; AgentID := "" |};
         {| IP := "10.0.0.2"; HostCloudID := 3;
            AgentID := "0200000000525400" |} ] |}.

Definition sample_agent_lost : BaseEvent := EvAgentLost sample_agent_lost_event.

Lemma Flat_records_name_their_host_sample :
  Forall (fun r =>
            Event r = content (EventName r)
            /\ Timestamp r = None
            /\ exists cloud ip,
                 names_host (EventDimension r) cloud ip
                 /\ Target r
                    = expected_target sample_agent_lost (EventDimension r)
                        cloud ip
                 /\ cloud_ip cloud ip <> ""
                 /\ exists host, host ∈ AgentHosts sample_agent_lost_event
                      /\ EventDimension r !! "bk_agent_id"
                         = Some (AgentID host)
                      /\ HostCloudID host = cloud /\ IP host = ip)
         (Flat sample_agent_lost).
Proof.
  apply Forall_forall. intros r Hr.
  exact (Flat_records_name_their_host sample_agent_lost r Hr).
Defined.

Example sample_agent_lost_targets :
  Target <$> Flat sample_agent_lost = [""; "3:10.0.0.2"].
Proof. by vm_compute. Qed.

(** An event flattens to one record for each host or read-only entry it
    lists (one record for the events about a single host), all under the
    name of the event's kind. *)
Theorem Flat_one_record_per_entry (event : BaseEvent) :
  length (Flat event) = record_count event
  /\ exists name, Forall (fun r => EventName r = name) (Flat event).
Proof.
  destruct event as [e | e | e | e | e | e]; simpl;
    unfold flatAgentLost, flatDiskReadonly, flatDiskFull, flatCorefile,
      flatPingLost, flatOOM;
    rewrite ?length_fmap; (split; [done |]); eexists;
    try (apply Forall_fmap, Forall_true; intros ?; simpl; reflexivity);
    by repeat constructor.
Qed.

Section ParseFacts.
Variable RawMessage : Type.
Variable decodeType : RawMessage -> option Z.
Variable decodeAgentLost : RawMessage -> option AgentLostEvent.
Variable decodeDiskReadonly : RawMessage -> option DiskReadonlyEvent.
Variable decodeDiskFull : RawMessage -> option DiskFullEvent.
Variable decodeCorefile : RawMessage -> option CorefileEvent.
Variable decodePingLost : RawMessage -> option PingLostEvent.
Variable decodeOOM : RawMessage -> option OOMEvent.

Abbreviation parse :=
  (parseSystemEvent RawMessage decodeType decodeAgentLost
     decodeDiskReadonly decodeDiskFull decodeCorefile decodePingLost
     decodeOOM).

Definition kind_name (event : BaseEvent) : string :=
  match event with
  | EvAgentLost _ => "agent_lost"
  | EvDiskReadonly _ => "disk_readonly"
  | EvDiskFull _ => "disk_full"
  | EvCorefile _ => "corefile"
  | EvPingLost _ => "ping_lost"
  | EvOOM _ => "oom"
  end.

Lemma decodeEvent_kind (data : RawMessage) (ty : Z) (event : BaseEvent) :
  decodeEvent RawMessage decodeAgentLost decodeDiskReadonly decodeDiskFull
    decodeCorefile decodePingLost decodeOOM data ty = Some event ->
  name_of_type ty = Some (kind_name event).
Proof.
  unfold decodeEvent, name_of_type.
  repeat case_bool_decide; try done;
    intros (e & _ & ->)%fmap_Some; done.
Qed.

Lemma Flat_names (event : BaseEvent) (r : EventRecord) :
  r ∈ Flat event -> EventName r = kind_name event.
Proof.
  destruct event as [e | e | e | e | e | e]; simpl;
    unfold flatAgentLost, flatDiskReadonly, flatDiskFull, flatCorefile,
      flatPingLost, flatOOM;
    first [ by intros (x & -> & _)%list_elem_of_fmap
          | by intros ->%list_elem_of_singleton ].
Qed.

(** [parseSystemEvent] yields records for the type codes 2, 3, 6, 7, 8
    and 9 only, each under the event name of its code; any other code,
    and a message whose type cannot be decoded, yields none. *)
Theorem parseSystemEvent_follows_type (data : RawMessage) :
  (forall r, r ∈ parse data ->
     exists ty, decodeType data = Some ty
                /\ name_of_type ty = Some (EventName r))
  /\ (forall ty, decodeType data = Some ty -> name_of_type ty = None ->
        parse data = [])
  /\ (decodeType data = None -> parse data = []).
Proof.
  unfold parseSystemEvent. split; [| split].
  - intros r. destruct (decodeType data) as [ty |];
      [| by intros ?%elem_of_nil].
    destruct (decodeEvent _ _ _ _ _ _ _ data ty) as [event |] eqn:Hev;
      [| by intros ?%elem_of_nil].
    intros Hr. exists ty. split; [done |].
    rewrite (Flat_names event r Hr). by apply (decodeEvent_kind data).
  - intros ty -> Hnone. unfold decodeEvent, name_of_type in *.
    by repeat case_bool_decide.
  - by intros ->.
Qed.
End ParseFacts.

End GseEvent.


(* ================================================================== *)
(** * More of package [task]: [RefreshDatasource] before its fan-out *)
(* ================================================================== *)

Module TaskExtra.
Import Task.

(** [resulttable.DataSourceResultTable], the link of a result table to a
    data source, with the two columns the pass selects. *)
Record DataSourceResultTable := {
  LinkBkDataId : Z;
  LinkTableId : string;
}.

(** [resulttable.DataSource], as far as the pass reads it. *)
Record DataSource := {
  BkDataId : Z;
  DataName : string;
}.

(** The loop that collects the data source identifiers: a link counts
    when its table is enabled and its identifier was not taken before
    ([uniqueMap]). *)
Definition takeDataId (enabledRtList : list string)
    (acc : list Z * gmap Z bool) (dsrt : DataSourceResultTable)
  : list Z * gmap Z bool :=
  let '(dataIdList, uniqueMap) := acc in
  if bool_decide (LinkTableId dsrt ∈ enabledRtList)
     && negb (default false (uniqueMap !! LinkBkDataId dsrt))
  then (dataIdList ++ [LinkBkDataId dsrt],
        <[LinkBkDataId dsrt := true]> uniqueMap)
  else acc.

Definition dataIdList (enabledRtList : list string)
    (dataSourceRtList : list DataSourceResultTable) : list Z :=
  (fold_left (takeDataId enabledRtList) dataSourceRtList ([], ∅)).1.

Inductive datasource_plan :=
| DsAbort (e : error)
| DsNothing
| DsDispatch (l : list DataSource).

Section RefreshDatasource.
(** The three queries of the pass, and [slicex.ChunkSlice(rtList, 0)];
    their code is outside the sources at hand. The second query is run
    once for each chunk of table identifiers. *)
Variable queryLinks : result (list DataSourceResultTable).
Variable ChunkSlice : list string -> list (list string).
Variable queryEnabledTables : list string -> result (list ResultTable).
Variable queryDataSources : list Z -> result (list DataSource).

(** The chunk loop: a chunk whose query fails is logged and skipped. *)
Definition enabledResultTableList (rtList : list string)
  : list ResultTable :=
  fold_left (fun enabled chunkRts =>
               match queryEnabledTables chunkRts with
               | Err _ => enabled
               | Ok tempList => enabled ++ tempList
               end)
            (ChunkSlice rtList) [].

Definition preDispatchDatasource : datasource_plan :=
  match queryLinks with
  | Err e => DsAbort e
  | Ok dataSourceRtList =>
      if bool_decide (length dataSourceRtList = 0%nat) then DsNothing
      else
        let rtList := LinkTableId <$> dataSourceRtList in
        let enabledRtList := TableId <$> enabledResultTableList rtList in
        if bool_decide (length enabledRtList = 0%nat) then DsNothing
        else
          match queryDataSources
                  (dataIdList enabledRtList dataSourceRtList) with
          | Err e => DsAbort e
          | Ok dataSourceList =>
              if bool_decide (length dataSourceList = 0%nat)
              then DsNothing
              else DsDispatch dataSourceList
          end
  end.
End RefreshDatasource.

(** ** The collected identifiers *)

(** What the loop keeps true: the identifiers collected so far are the
    keys of [uniqueMap], each once, all under [true]. *)
Definition collected (acc : list Z * gmap Z bool) : Prop :=
  NoDup acc.1
  /\ forall id, id ∈ acc.1 <-> acc.2 !! id = Some true.

Lemma takeDataId_collected (enabled : list string)
    (acc : list Z * gmap Z bool) (dsrt : DataSourceResultTable) :
  collected acc -> (forall id b, acc.2 !! id = Some b -> b = true) ->
  collected (takeDataId enabled acc dsrt)
  /\ (forall id b, (takeDataId enabled acc dsrt).2 !! id = Some b ->
        b = true).
Proof.
  destruct acc as [ids seen]. intros [Hnd Hin] Htrue. unfold takeDataId.
  simpl in *.
  destruct (bool_decide (LinkTableId dsrt ∈ enabled)
            && negb (default false (seen !! LinkBkDataId dsrt))) eqn:Hc;
    [| done].
  apply andb_true_iff in Hc as [_ Hfresh].
  assert (seen !! LinkBkDataId dsrt = None) as Hnone.
  { destruct (seen !! LinkBkDataId dsrt) as [b |] eqn:Hs; [| done].
    rewrite (Htrue _ _ Hs) in Hfresh. done. }
  split; [split |]; simpl.
  - apply NoDup_app. split; [done |]. split; [| apply NoDup_singleton].
    intros id Hid ->%list_elem_of_singleton.
    apply Hin in Hid. congruence.
  - intros id. rewrite elem_of_app, list_elem_of_singleton, Hin.
    destruct (decide (id = LinkBkDataId dsrt)) as [-> | Hne].
    + rewrite lookup_insert_eq. split; [done | by right].
    + rewrite lookup_insert_ne by done. split; [by intros [? | ?] | by left].
  - intros id b.
    destruct (decide (LinkBkDataId dsrt = id)) as [-> | Hne].
    + rewrite lookup_insert_eq. congruence.
    + rewrite lookup_insert_ne by done. apply Htrue.
Qed.

Lemma fold_takeDataId (enabled : list string)
    (links : list DataSourceResultTable) (acc : list Z * gmap Z bool) :
  collected acc -> (forall id b, acc.2 !! id = Some b -> b = true) ->
  collected (fold_left (takeDataId enabled) links acc)
  /\ (forall id,
        id ∈ (fold_left (takeDataId enabled) links acc).1
        <-> id ∈ acc.1
            \/ exists dsrt, dsrt ∈ links /\ LinkBkDataId dsrt = id
                            /\ LinkTableId dsrt ∈ enabled)
  /\ exists more,
       (fold_left (takeDataId enabled) links acc).1 = acc.1 ++ more
       /\ sublist more (LinkBkDataId <$> links).
Proof.
  revert acc. induction links as [| dsrt links IH]; intros acc Hc Htrue;
    simpl.
  - split; [done |]. split.
    + intros id. split; [by left |].
      intros [? | (? & ?%elem_of_nil & _)]; done.
    + exists []. by rewrite app_nil_r.
  - destruct (takeDataId_collected enabled acc dsrt Hc Htrue) as [Hc' Htrue'].
    destruct (IH _ Hc' Htrue') as (Hfinal & Hmem & more & Happ & Hsub).
    split; [done |]. split.
    + intros id. rewrite Hmem. clear IH Hmem Happ Hsub Hfinal.
      destruct acc as [ids seen]. destruct Hc as [Hnd Hin].
      unfold takeDataId in *. simpl in *.
      destruct (bool_decide (LinkTableId dsrt ∈ enabled)) eqn:Hen;
        simpl in *.
      * destruct (default false (seen !! LinkBkDataId dsrt)) eqn:Hseen;
          simpl in *.
        -- split.
           ++ intros [? | (d & Hd & ? & ?)]; [by left |].
              right. exists d. split; [by right | done].
           ++ intros [? | (d & Hd & Hid & Hte)]; [by left |].
              apply elem_of_cons in Hd as [-> | Hd].
              ** left. apply Hin. subst id.
                 destruct (seen !! LinkBkDataId dsrt) as [b |] eqn:Hs;
                   [| done].
                 simpl in Hseen. by subst b.
              ** right. by exists d.
        -- rewrite elem_of_app, list_elem_of_singleton. split.
           ++ intros [[? | ->] | (d & Hd & ? & ?)].
              ** by left.
              ** right. exists dsrt. split; [by left |].
                 split; [done |]. by apply bool_decide_eq_true in Hen.
              ** right. exists d. split; [by right | done].
           ++ intros [? | (d & Hd & Hid & Hte)]; [by left; left |].
              apply elem_of_cons in Hd as [-> | Hd].
              ** left. by right.
              ** right. by exists d.
      * split.
        -- intros [? | (d & Hd & ? & ?)]; [by left |].
           right. exists d. split; [by right | done].
        -- intros [? | (d & Hd & Hid & Hte)]; [by left |].
           apply elem_of_cons in Hd as [-> | Hd].
           ++ apply bool_decide_eq_false in Hen. done.
           ++ right. by exists d.
    + rewrite Happ. clear IH Hmem Hfinal Happ.
      destruct acc as [ids seen]. unfold takeDataId. simpl.
      destruct (bool_decide (LinkTableId dsrt ∈ enabled)
                && negb (default false (seen !! LinkBkDataId dsrt)));
        simpl.
      * exists (LinkBkDataId dsrt :: more). split.
        -- by rewrite <- app_assoc.
        -- by apply sublist_skip.
      * exists more. split; [done |]. by apply sublist_cons.
Qed.

(** The first occurrences of a list, in its order. *)
Fixpoint first_occurrences (ids : list Z) : list Z :=
  match ids with
  | [] => []
  | id :: rest => id :: filter (fun other => other <> id) (first_occurrences rest)
  end.

(** The identifiers of the links whose table is enabled, link by link. *)
Definition enabled_ids (enabledRtList : list string)
    (dataSourceRtList : list DataSourceResultTable) : list Z :=
  LinkBkDataId
    <$> filter (fun dsrt => LinkTableId dsrt ∈ enabledRtList) dataSourceRtList.

Lemma seen_is_collected (acc : list Z * gmap Z bool) (id : Z) :
  collected acc -> (forall id b, acc.2 !! id = Some b -> b = true) ->
  default false (acc.2 !! id) = bool_decide (id ∈ acc.1).
Proof.
  intros [_ Hin] Htrue. destruct (acc.2 !! id) as [b |] eqn:Hs; simpl.
  - pose proof (Htrue _ _ Hs) as ->. symmetry. apply bool_decide_eq_true.
    by apply Hin.
  - symmetry. apply bool_decide_eq_false. intros Hid. apply Hin in Hid.
    congruence.
Qed.

Lemma fold_takeDataId_order (enabled : list string)
    (links : list DataSourceResultTable) :
  forall acc : list Z * gmap Z bool,
  collected acc -> (forall id b, acc.2 !! id = Some b -> b = true) ->
  (fold_left (takeDataId enabled) links acc).1
  = acc.1 ++ filter (fun id => id ∉ acc.1)
               (first_occurrences (enabled_ids enabled links)).
Proof.
  induction links as [| dsrt links IH]; intros acc Hc Htrue.
  - simpl. by rewrite app_nil_r.
  - cbn [fold_left].
    destruct (takeDataId_collected enabled acc dsrt Hc Htrue) as [Hc' Htrue'].
    rewrite (IH _ Hc' Htrue'). clear IH Hc' Htrue'.
    pose proof (seen_is_collected acc (LinkBkDataId dsrt) Hc Htrue) as Hseen.
    destruct acc as [ids seen]. unfold takeDataId, enabled_ids in *.
    simpl in *. rewrite Hseen.
    destruct (decide (LinkTableId dsrt ∈ enabled)) as [Hen | Hen].
    + rewrite filter_cons_True by done. rewrite fmap_cons.
      rewrite (bool_decide_eq_true_2 _ Hen). cbn [first_occurrences andb].
      destruct (decide (LinkBkDataId dsrt ∈ ids)) as [Hid | Hid].
      * rewrite (bool_decide_eq_true_2 _ Hid). simpl.
        rewrite filter_cons_False by (intros Hn; by apply Hn).
        rewrite list_filter_filter. f_equal.
        apply list_filter_iff. intros id. split; [| tauto].
        intros Hn. split; [done |]. intros ->. by apply Hn.
      * rewrite (bool_decide_eq_false_2 _ Hid). simpl.
        rewrite filter_cons_True by done.
        rewrite list_filter_filter, <- app_assoc. simpl. do 2 f_equal.
        apply list_filter_iff. intros id.
        rewrite elem_of_app, list_elem_of_singleton. tauto.
    + rewrite filter_cons_False by done.
      by rewrite (bool_decide_eq_false_2 _ Hen).
Qed.

(** The identifiers handed to the data source query: no identifier
    twice; exactly the identifiers of the links whose table is enabled;
    and in the order of the links, each identifier where the first link
    with an enabled table carries it. *)
Theorem dataIdList_is_deduplicated (enabledRtList : list string)
    (dataSourceRtList : list DataSourceResultTable) :
  NoDup (dataIdList enabledRtList dataSourceRtList)
  /\ (forall id,
        id ∈ dataIdList enabledRtList dataSourceRtList
        <-> exists dsrt, dsrt ∈ dataSourceRtList
                         /\ LinkBkDataId dsrt = id
                         /\ LinkTableId dsrt ∈ enabledRtList)
  /\ sublist (dataIdList enabledRtList dataSourceRtList)
       (LinkBkDataId <$> dataSourceRtList)
  /\ dataIdList enabledRtList dataSourceRtList
     = first_occurrences (enabled_ids enabledRtList dataSourceRtList).
Proof.
  unfold dataIdList.
  assert (Hinit : collected (([], ∅) : list Z * gmap Z bool)).
  { split; [apply NoDup_nil_2 |]. intros id. simpl.
    rewrite lookup_empty. split; [by intros ?%elem_of_nil | done]. }
  assert (Htrue : forall id b,
            (([], ∅) : list Z * gmap Z bool).2 !! id = Some b -> b = true).
  { intros id b. simpl. by rewrite lookup_empty. }
  destruct (fold_takeDataId enabledRtList dataSourceRtList ([], ∅)
              Hinit Htrue)
    as ([Hnd _] & Hmem & more & Happ & Hsub).
  split; [done |]. split; [| split].
  - intros id. rewrite Hmem. simpl. split.
    + by intros [?%elem_of_nil | ?].
    + by right.
  - by rewrite Happ.
  - rewrite (fold_takeDataId_order _ _ _ Hinit Htrue). simpl.
    generalize (first_occurrences
                  (enabled_ids enabledRtList dataSourceRtList)).
    intros l. induction l as [| id l IH]; [done |].
    rewrite filter_cons_True by apply not_elem_of_nil. by rewrite IH.
Qed.

Example dataIdList_sample :
  dataIdList ["t1"; "t3"; "t4"]
    [ {| LinkBkDataId := 7; LinkTableId := "t1" |};
      {| LinkBkDataId := 5; LinkTableId := "t2" |};
      {| LinkBkDataId := 7; LinkTableId := "t3" |};
      {| LinkBkDataId := 2; LinkTableId := "t4" |};
      {| LinkBkDataId := 5; LinkTableId := "t4" |} ]
  = [7; 2; 5].
Proof. by vm_compute. Qed.

(** A data source whose first link is to a table that is not enabled
    takes the place of its first link to an enabled table. *)
Example dataIdList_order_sample :
  dataIdList ["t1"]
    [ {| LinkBkDataId := 7; LinkTableId := "t0" |};
      {| LinkBkDataId := 5; LinkTableId := "t1" |};
      {| LinkBkDataId := 7; LinkTableId := "t1" |} ]
  = [5; 7].
Proof. by vm_compute. Qed.

(** ** Which failures end the pass *)

Lemma all_chunks_fail (ChunkSlice : list string -> list (list string))
    (queryEnabledTables : list string -> result (list ResultTable))
    (rtList : list string) :
  (forall chunk, exists e, queryEnabledTables chunk = Err e) ->
  enabledResultTableList ChunkSlice queryEnabledTables rtList = [].
Proof.
  intros Hfail. unfold enabledResultTableList.
  generalize (@nil ResultTable).
  induction (ChunkSlice rtList) as [| c chunks IH]; intros acc; simpl;
    [done |].
  destruct (Hfail c) as [e ->]. apply IH.
Qed.

(** [RefreshDatasource] gives up with an error only when its first query
    (the links) or its last one (the data sources) fails. A failing query
    for the enabled tables of a chunk is skipped: when every one of them
    fails the pass ends without error and without dispatch. *)
Theorem RefreshDatasource_skips_failed_chunks
    (queryLinks : result (list DataSourceResultTable))
    (ChunkSlice : list string -> list (list string))
    (queryEnabledTables : list string -> result (list ResultTable))
    (queryDataSources : list Z -> result (list DataSource)) :
  (forall e,
     preDispatchDatasource queryLinks ChunkSlice queryEnabledTables
       queryDataSources = DsAbort e ->
     queryLinks = Err e \/ exists ids, queryDataSources ids = Err e)
  /\ ((forall chunk, exists e, queryEnabledTables chunk = Err e) ->
      forall links, queryLinks = Ok links ->
      preDispatchDatasource queryLinks ChunkSlice queryEnabledTables
        queryDataSources = DsNothing).
Proof.
  unfold preDispatchDatasource. split.
  - intros e. destruct queryLinks as [links | e0]; [| intros [= ->]; by left].
    repeat case_bool_decide; try done.
    destruct (queryDataSources _) as [l | e1] eqn:Hq.
    + by case_bool_decide.
    + intros [= ->]. right. eauto.
  - intros Hfail links ->. case_bool_decide; [done |].
    by rewrite all_chunks_fail.
Qed.

End TaskExtra.


(* ================================================================== *)
(** * More of package [service] *)
(* ================================================================== *)

Module ServiceExtra.
Import Service.

(** ** The lookup batches of the cloud-region inference *)

(** Batches as the inference builds them: every batch but the last
    holds 100 addresses, the last one between 1 and 100. *)
Definition well_batched (ipSplits : list (list string)) : Prop :=
  ipSplits = []
  \/ exists full lastIps,
       ipSplits = full ++ [lastIps]
       /\ Forall (fun ips => length ips = 100%nat) full
       /\ (1 <= length lastIps <= 100)%nat.

(** The addresses looked up: the node addresses that are not empty. *)
Definition node_ips (apiNodes : list K8sNodeInfo) : list string :=
  filter (fun ip => ip <> "") (NodeIp <$> apiNodes).

Lemma node_ips_cons (node : K8sNodeInfo) (apiNodes : list K8sNodeInfo) :
  node_ips (node :: apiNodes) = node_ips [node] ++ node_ips apiNodes.
Proof.
  unfold node_ips. rewrite !fmap_cons.
  change (NodeIp node :: (NodeIp <$> apiNodes))
    with ([NodeIp node] ++ (NodeIp <$> apiNodes)).
  by rewrite filter_app.
Qed.

Lemma addIp_empty_ip (ipSplits : list (list string)) (node : K8sNodeInfo) :
  NodeIp node = "" -> addIp ipSplits node = ipSplits.
Proof. intros Hip. unfold addIp. by rewrite bool_decide_eq_true_2. Qed.

Lemma addIp_first (node : K8sNodeInfo) :
  NodeIp node <> "" -> addIp [] node = [[NodeIp node]].
Proof. intros Hip. unfold addIp. by rewrite bool_decide_eq_false_2. Qed.

Lemma addIp_last (full : list (list string)) (lastIps : list string)
    (node : K8sNodeInfo) :
  NodeIp node <> "" ->
  addIp (full ++ [lastIps]) node
  = if decide (length lastIps < 100)%nat
    then full ++ [lastIps ++ [NodeIp node]]
    else full ++ [lastIps] ++ [[NodeIp node]].
Proof.
  intros Hip. unfold addIp. rewrite bool_decide_eq_false_2 by done.
  rewrite length_app. simpl.
  replace (length full + 1 - 1)%nat with (length full + 0)%nat by lia.
  rewrite lookup_app_r, Nat.add_0_r, Nat.sub_diag by lia. simpl.
  destruct (decide (length lastIps < 100)%nat) as [Hroom | Hfull].
  - rewrite bool_decide_eq_true_2 by (split; [lia | done]).
    replace (length full) with (length full + 0)%nat at 1 by lia.
    by rewrite insert_app_r.
  - rewrite bool_decide_eq_false_2 by (intros [_ ?]; done).
    by rewrite <- app_assoc.
Qed.

Lemma addIp_batched (ipSplits : list (list string)) (node : K8sNodeInfo) :
  well_batched ipSplits ->
  well_batched (addIp ipSplits node)
  /\ concat (addIp ipSplits node)
     = concat ipSplits ++ node_ips [node].
Proof.
  intros Hwb. unfold node_ips. simpl.
  destruct (decide (NodeIp node = "")) as [Hempty | Hip].
  { rewrite addIp_empty_ip by done. rewrite filter_cons_False by tauto.
    by rewrite filter_nil, app_nil_r. }
  rewrite filter_cons_True by done. rewrite filter_nil.
  destruct Hwb as [-> | (full & lastIps & -> & Hfull & Hlast)].
  - rewrite addIp_first by done. split; [| done].
    right. exists [], [NodeIp node]. simpl. repeat split; auto; lia.
  - rewrite addIp_last by done.
    destruct (decide (length lastIps < 100)%nat) as [Hroom | Hnoroom].
    + split.
      * right. exists full, (lastIps ++ [NodeIp node]).
        rewrite length_app. simpl. repeat split; auto; lia.
      * rewrite !concat_app. simpl. by rewrite !app_nil_r, app_assoc.
    + split.
      * right. exists (full ++ [lastIps]), [NodeIp node].
        rewrite app_assoc. simpl. repeat split; auto; try lia.
        apply Forall_app. split; [done |]. constructor; [lia | done].
      * rewrite !concat_app. simpl. by rewrite !app_nil_r, app_assoc.
Qed.

Lemma fold_addIp_batched (apiNodes : list K8sNodeInfo)
    (ipSplits : list (list string)) :
  well_batched ipSplits ->
  well_batched (fold_left addIp apiNodes ipSplits)
  /\ concat (fold_left addIp apiNodes ipSplits)
     = concat ipSplits ++ node_ips apiNodes.
Proof.
  revert ipSplits. induction apiNodes as [| node apiNodes IH];
    intros ipSplits Hwb; simpl.
  - split; [done |]. unfold node_ips. simpl.
    by rewrite filter_nil, app_nil_r.
  - destruct (addIp_batched ipSplits node Hwb) as [Hwb' Hcat].
    destruct (IH _ Hwb') as [Hfinal Hcat'].
    split; [done |].
    by rewrite Hcat', Hcat, <- app_assoc, <- node_ips_cons.
Qed.

(** The node addresses are looked up in batches that hold, one after
    the other and in node order, exactly the addresses that are not
    empty: each batch but the last has 100 of them, the last between 1
    and 100. *)
Theorem ipSplits_are_batches_of_100 (apiNodes : list K8sNodeInfo) :
  well_batched (fold_left addIp apiNodes [])
  /\ concat (fold_left addIp apiNodes []) = node_ips apiNodes.
Proof.
  destruct (fold_addIp_batched apiNodes []) as [Hwb Hcat]; [by left |].
  by split.
Qed.

(** ** What the tally counts *)

(** The nodes whose address resolves to region [r]. *)
Definition resolved_to (ipMap : gmap string Z) (r : Z)
    (apiNodes : list K8sNodeInfo) : list K8sNodeInfo :=
  filter (fun node => ipMap !! NodeIp node = Some r) apiNodes.

Lemma countCloud_fold (ipMap : gmap string Z) (apiNodes : list K8sNodeInfo)
    (cloudCount : gmap Z Z) (r : Z) :
  default 0 (fold_left (countCloud ipMap) apiNodes cloudCount !! r)
  = default 0 (cloudCount !! r)
    + Z.of_nat (length (resolved_to ipMap r apiNodes)).
Proof.
  revert cloudCount. unfold resolved_to.
  induction apiNodes as [| node apiNodes IH]; intros cloudCount; simpl.
  - lia.
  - rewrite IH. unfold countCloud.
    destruct (ipMap !! NodeIp node) as [bkCloudId |] eqn:Hip.
    + destruct (decide (bkCloudId = r)) as [-> | Hne].
      * rewrite lookup_insert_eq, filter_cons_True by done. simpl. lia.
      * rewrite lookup_insert_ne, filter_cons_False by congruence. done.
    + by rewrite filter_cons_False by congruence.
Qed.

Section TallyFacts.
Variable FetchK8sNodeListByCluster : string -> result (list K8sNodeInfo).
Variable getHostByIp : list GetHostByIpParams -> Z -> result (list HostInfo).

(** The tally a successful inference works from gives every region the
    number of nodes whose address the host lookup resolved to it, and
    holds no region that no node resolves to. *)
Theorem tally_counts_nodes_of_region (b : BCSClusterInfo)
    (cloudCount : gmap Z Z) :
  regionTally FetchK8sNodeListByCluster getHostByIp b = Ok cloudCount ->
  exists apiNodes ipMap,
    FetchK8sNodeListByCluster (ClusterID b) = Ok apiNodes
    /\ lookupHosts getHostByIp (BkBizId b) (fold_left addIp apiNodes []) ∅
       = Ok ipMap
    /\ (forall r, default 0 (cloudCount !! r)
                  = Z.of_nat (length (resolved_to ipMap r apiNodes)))
    /\ (forall r, cloudCount !! r = None
                  <-> resolved_to ipMap r apiNodes = []).
Proof.
  intros Htally.
  pose proof (ServiceSpec.regionTally_positive _ _ _ _ Htally) as Hpos.
  unfold regionTally in Htally.
  destruct (FetchK8sNodeListByCluster (ClusterID b)) as [apiNodes |];
    [| done].
  destruct (lookupHosts getHostByIp (BkBizId b) _ ∅) as [ipMap |] eqn:Hl;
    [| done].
  injection Htally as <-. exists apiNodes, ipMap.
  assert (forall r,
            default 0 (fold_left (countCloud ipMap) apiNodes ∅ !! r)
            = Z.of_nat (length (resolved_to ipMap r apiNodes))) as Hcount.
  { intros r. rewrite countCloud_fold, lookup_empty. simpl. lia. }
  repeat split; try done.
  - intros Hnone. specialize (Hcount r). rewrite Hnone in Hcount.
    simpl in Hcount. apply nil_length_inv. lia.
  - intros Hnil. specialize (Hcount r). rewrite Hnil in Hcount.
    destruct (fold_left (countCloud ipMap) apiNodes ∅ !! r) as [c |] eqn:Hc;
      [| done].
    specialize (Hpos _ _ Hc). simpl in *. lia.
Qed.
End TallyFacts.

Lemma tally_counts_nodes_of_region_sample :
  exists apiNodes ipMap,
    ServiceSpec.sample_fetch (ClusterID sample_cluster) = Ok apiNodes
    /\ lookupHosts ServiceSpec.sample_lookup (BkBizId sample_cluster)
         (fold_left addIp apiNodes []) ∅ = Ok ipMap
    /\ (forall r, default 0 (({[ 7 := 3; 9 := 2 ]} : gmap Z Z) !! r)
                  = Z.of_nat (length (resolved_to ipMap r apiNodes)))
    /\ (forall r, ({[ 7 := 3; 9 := 2 ]} : gmap Z Z) !! r = None
                  <-> resolved_to ipMap r apiNodes = []).
Proof.
  apply (tally_counts_nodes_of_region ServiceSpec.sample_fetch
           ServiceSpec.sample_lookup sample_cluster {[ 7 := 3; 9 := 2 ]}).
  by vm_compute.
Defined.

(** ** Failures of the inference *)

(** The request parameters of one batch. *)
Definition batch_params (ips : list string) : list GetHostByIpParams :=
  (fun ip => {| Ip := ip; ParamBkCloudId := -1 |}) <$> ips.

Lemma lookupHosts_app
    (getHostByIp : list GetHostByIpParams -> Z -> result (list HostInfo))
    (bkBizId : Z) (pre post : list (list string)) (ipMap : gmap string Z) :
  lookupHosts getHostByIp bkBizId (pre ++ post) ipMap
  = match lookupHosts getHostByIp bkBizId pre ipMap with
    | Err e => Err e
    | Ok ipMap' => lookupHosts getHostByIp bkBizId post ipMap'
    end.
Proof.
  revert ipMap. induction pre as [| ips pre IH]; intros ipMap; simpl;
    [done |].
  destruct (getHostByIp _ bkBizId); [apply IH | done].
Qed.

Section FailureFacts.
Variable BcsClusterStatusRunning : string.
Variable FetchK8sNodeListByCluster : string -> result (list K8sNodeInfo).
Variable getHostByIp : list GetHostByIpParams -> Z -> result (list HostInfo).
Variable Update : BCSClusterInfo -> list column -> option error.
Variable rangeCloudCount : gmap Z Z -> list (Z * Z).

(** The inference failed before the tally was complete: the inventory
    could not be fetched, or the lookup of a batch failed after the
    batches before it had succeeded. *)
Definition lookup_failed (b : BCSClusterInfo) (e : error) : Prop :=
  FetchK8sNodeListByCluster (ClusterID b) = Err e
  \/ exists apiNodes pre ips post ipMap,
       FetchK8sNodeListByCluster (ClusterID b) = Ok apiNodes
       /\ fold_left addIp apiNodes [] = pre ++ ips :: post
       /\ lookupHosts getHostByIp (BkBizId b) pre ∅ = Ok ipMap
       /\ getHostByIp (batch_params ips) (BkBizId b) = Err e.

(** When the inventory fetch or the lookup of a batch fails, the call
    returns that error, the region stays unset and nothing is written;
    the batches after the failed one are not looked up. *)
Theorem failed_lookup_leaves_region_unset (b : BCSClusterInfo) (e : error) :
  Status b = BcsClusterStatusRunning ->
  BkCloudId b = None ->
  lookup_failed b e ->
  UpdateBcsClusterCloudIdConfig BcsClusterStatusRunning
    FetchK8sNodeListByCluster getHostByIp Update rangeCloudCount (Some b)
  = {| cluster_after := Some b; db_writes := []; returned := Some e |}.
Proof.
  intros Hst Hcid Hfail. unfold UpdateBcsClusterCloudIdConfig.
  rewrite bool_decide_eq_false_2 by (rewrite Hst, Hcid; tauto).
  assert (regionTally FetchK8sNodeListByCluster getHostByIp b = Err e)
    as ->; [| done].
  unfold regionTally.
  destruct Hfail as [-> | (apiNodes & pre & ips & post & ipMap
                           & -> & -> & Hpre & Hips)]; [done |].
  rewrite lookupHosts_app, Hpre. simpl.
  unfold batch_params in Hips. by rewrite Hips.
Qed.
End FailureFacts.

(** The host lookup is down. *)
Definition failing_lookup (params : list GetHostByIpParams) (bkBizId : Z)
  : result (list HostInfo) :=
  Err (ErrOther "cmdb is unreachable").

Lemma failed_lookup_leaves_region_unset_sample :
  UpdateBcsClusterCloudIdConfig "running" ServiceSpec.sample_fetch
    failing_lookup ServiceSpec.sample_update ServiceSpec.range_sorted
    (Some sample_cluster)
  = {| cluster_after := Some sample_cluster; db_writes := [];
       returned := Some (ErrOther "cmdb is unreachable") |}.
Proof.
  apply (failed_lookup_leaves_region_unset "running"
           ServiceSpec.sample_fetch failing_lookup
           ServiceSpec.sample_update ServiceSpec.range_sorted
           sample_cluster (ErrOther "cmdb is unreachable")).
  - reflexivity.
  - reflexivity.
  - right.
    exists ServiceSpec.sample_nodes, [],
      ["10.0.0.1"; "10.0.0.2"; "10.0.0.3"; "10.0.1.4"; "10.0.1.5"], [], ∅.
    repeat split.
Defined.

(** ** More on the structural comparison *)

(** Number of constructors of a document, to reason by induction on
    documents of every shape. *)
Fixpoint value_size (v : value) : nat :=
  match v with
  | VMap m => S (map_fold (fun _ v' n => (value_size v' + n)%nat) 0%nat m)
  | _ => 1%nat
  end.

Lemma value_size_lookup (m : gmap string value) (k : string) (v : value) :
  m !! k = Some v -> (value_size v < value_size (VMap m))%nat.
Proof.
  simpl. intros Hk. apply Nat.lt_succ_r. revert k v Hk.
  apply (map_fold_weak_ind
           (fun r (m : gmap string value) =>
              forall k v, m !! k = Some v -> (value_size v <= r)%nat)).
  - intros k v Hk. by rewrite lookup_empty in Hk.
  - intros i x m' r Hfresh IH k v Hk.
    destruct (decide (i = k)) as [<- | Hne].
    + rewrite lookup_insert_eq in Hk. injection Hk as <-. lia.
    + rewrite lookup_insert_ne in Hk by done.
      specialize (IH k v Hk). lia.
Qed.

Lemma rangeSource_nil (body : value -> value -> bool)
    (target : gmap string value) :
  rangeSource body ∅ target = true.
Proof. unfold rangeSource. by rewrite map_fold_empty. Qed.

Lemma sameEntry_refl_sized (n : nat) (v : value) :
  (value_size v < n)%nat -> sameEntry v v = true.
Proof.
  revert v. induction n as [| n IH]; intros v Hsize; [lia |].
  destruct v as [s | z | b | m | t]; simpl;
    try by apply bool_decide_eq_true.
  - apply ServiceSpec.rangeSource_true. intros k v Hk.
    exists v. split; [done |]. apply IH.
    pose proof (value_size_lookup m k v Hk). lia.
  - apply rangeSource_nil.
Qed.

(** A document always compares as the same as itself, whatever it
    holds: a resource that is stored as it was desired is never updated
    again. *)
Theorem isSameMapConfig_reflexive (config : gmap string value) :
  isSameMapConfig config config = true.
Proof.
  apply (sameEntry_refl_sized (S (value_size (VMap config))) (VMap config)).
  lia.
Qed.

(** [observed'] is [observed] with more keys, at whatever depth. *)
Inductive extends : value -> value -> Prop :=
| extends_same v : extends v v
| extends_map (m m' : gmap string value) :
    (forall k val, m !! k = Some val ->
       exists val', m' !! k = Some val' /\ extends val val') ->
    extends (VMap m) (VMap m').

Lemma extends_kind (val val' : value) :
  extends val val' -> isMapKind val' = isMapKind val.
Proof. by destruct 1. Qed.

Lemma sameEntry_extends_sized (n : nat) (v val val' : value) :
  (value_size v < n)%nat ->
  sameEntry v val = true -> extends val val' -> sameEntry v val' = true.
Proof.
  revert v val val'. induction n as [| n IH]; intros v val val' Hsize;
    [lia |].
  intros Hsame Hext.
  destruct v as [s | z | b | m | t].
  1-3: destruct Hext as [| mv mv' Hall]; [done | by simpl in Hsame].
  - assert (forall k x, m !! k = Some x -> (value_size x < n)%nat) as Hsz.
    { intros k x Hk. pose proof (value_size_lookup m k x Hk). lia. }
    clear Hsize. simpl in *. rewrite (extends_kind _ _ Hext).
    destruct (isMapKind val) eqn:Hkind; simpl in *; [| done].
    destruct Hext as [| mv mv' Hall]; [done |]. simpl in *.
    apply ServiceSpec.rangeSource_true.
    intros k x Hk.
    destruct (proj1 (ServiceSpec.rangeSource_true _ _ _) Hsame k x Hk)
      as (y & Hy & Hxy).
    destruct (Hall k y Hy) as (y' & Hy' & Hyy').
    exists y'. split; [done |]. apply (IH x y y'); [by eapply Hsz | done..].
  - simpl in *. rewrite (extends_kind _ _ Hext).
    destruct (isMapKind val); simpl in *; [| done].
    apply rangeSource_nil.
Qed.

(** Keys that only the observed document has never turn a match into a
    mismatch, at whatever depth they are added. *)
Theorem isSameMapConfig_ignores_added_keys
    (source target target' : gmap string value) :
  isSameMapConfig source target = true ->
  extends (VMap target) (VMap target') ->
  isSameMapConfig source target' = true.
Proof.
  intros Hsame Hext.
  apply (sameEntry_extends_sized (S (value_size (VMap source)))
           (VMap source) (VMap target) (VMap target')); [lia | done | done].
Qed.

(** The observed document of the server: the desired one with a status
    and, inside [metadata], a version and a creation time. *)
Definition desired_doc : gmap string value :=
  {[ "kind" := VString "DataID";
     "metadata" := VMap {[ "name" := VString "k8smetricdataid" ]} ]}.

Definition served_doc : gmap string value :=
  {[ "kind" := VString "DataID";
     "metadata" := VMap {[ "name" := VString "k8smetricdataid";
                           "resourceVersion" := VString "41";
                           "generation" := VInt64 1 ]};
     "status" := VMap ∅ ]}.

Lemma served_doc_extends : extends (VMap desired_doc) (VMap served_doc).
Proof.
  apply extends_map. intros k val Hk. unfold desired_doc in Hk.
  apply lookup_insert_Some in Hk as [[<- <-] | [_ Hk]].
  { eexists. split; [reflexivity | apply extends_same]. }
  apply lookup_singleton_Some in Hk as [<- <-].
  eexists. split; [reflexivity |].
  apply extends_map. intros k val Hk.
  apply lookup_singleton_Some in Hk as [<- <-].
  eexists. split; [reflexivity | apply extends_same].
Qed.

Lemma isSameMapConfig_ignores_added_keys_sample :
  isSameMapConfig desired_doc served_doc = true.
Proof.
  apply (isSameMapConfig_ignores_added_keys desired_doc desired_doc
           served_doc).
  - by vm_compute.
  - apply served_doc_extends.
Defined.

(** ** The reconciler on the in-memory store *)

(** The store holds every resource under the name the resource carries. *)
Definition keyed_by_name (w : MemStore) : Prop :=
  forall name u, stored w !! name = Some u -> GetName u = name.

Lemma fold_insert_by_name (l : list Unstructured)
    (m : gmap string Unstructured) (name : string) (u : Unstructured) :
  NoDup (GetName <$> l) ->
  (forall x, x ∈ l -> m !! GetName x = None) ->
  fold_left (fun m res => <[GetName res := res]> m) l m !! name = Some u
  <-> m !! name = Some u \/ (u ∈ l /\ GetName u = name).
Proof.
  revert m. induction l as [| a l IH]; intros m Hnd Hfresh; simpl.
  - split; [by left | intros [? | [Hin _]]; [done | by inversion Hin]].
  - rewrite fmap_cons in Hnd. apply NoDup_cons in Hnd as [Ha Hnd].
    rewrite IH; [| done |].
    + pose proof (Hfresh a (list_elem_of_here _ _)) as Hma.
      destruct (decide (GetName a = name)) as [<- | Hne].
      * rewrite lookup_insert_eq. split.
        -- intros [[= <-] | [Hin Hk]].
           ++ right. split; [left | done].
           ++ right. split; [by right | done].
        -- intros [Hm | [Hin Hk]]; [congruence |].
           apply elem_of_cons in Hin as [-> | Hin]; [by left |].
           right. done.
      * rewrite lookup_insert_ne by done. split.
        -- intros [Hm | [Hin Hk]]; [by left |].
           right. split; [by right | done].
        -- intros [Hm | [Hin Hk]]; [by left |].
           apply elem_of_cons in Hin as [-> | Hin]; [done |].
           right. done.
    + intros x Hx. rewrite lookup_insert_ne.
      * apply Hfresh. by right.
      * intros Heq. apply Ha. rewrite Heq. by apply list_elem_of_fmap_2.
Qed.

Lemma names_of_entries (l : list (string * Unstructured)) :
  (forall name u, (name, u) ∈ l -> GetName u = name) ->
  GetName <$> l.*2 = l.*1.
Proof.
  induction l as [| [name u] l IH]; intros Hl; [done |].
  rewrite !fmap_cons. simpl. f_equal.
  - apply Hl. by left.
  - apply IH. intros n' u' Hin. apply Hl. by right.
Qed.

(** Listing a store that is keyed by name and indexing the items by
    their name gives the store back. *)
Lemma resourceMap_of_store (w : MemStore) :
  keyed_by_name w -> resourceMap (map_to_list (stored w)).*2 = stored w.
Proof.
  intros Hkeyed. apply map_eq. intros name. apply option_eq. intros u.
  assert (forall n' u', (n', u') ∈ map_to_list (stored w) ->
                        GetName u' = n') as Hentries.
  { intros n' u' Hin. apply Hkeyed. by apply elem_of_map_to_list. }
  unfold resourceMap. rewrite fold_insert_by_name.
  - rewrite lookup_empty. split.
    + intros [? | [Hin Hname]]; [done |].
      apply list_elem_of_fmap in Hin as ([n' u'] & -> & Hin).
      simpl in *. rewrite <- Hname, (Hentries _ _ Hin).
      by apply elem_of_map_to_list.
    + intros Hu. right. split; [| by apply Hkeyed].
      apply list_elem_of_fmap. exists (name, u). split; [done |].
      by apply elem_of_map_to_list.
  - rewrite names_of_entries by done. apply NoDup_fst_map_to_list.
  - intros x _. apply lookup_empty.
Qed.

Section ReconcilerFacts.
Variable conf : Settings.
Variable GetCommonReplaceConfig : result ReplaceConfig.
Variable GetClusterReplaceConfig : string -> result ReplaceConfig.

Abbreviation desired :=
  (makeConfig conf GetCommonReplaceConfig GetClusterReplaceConfig).
Abbreviation refresh :=
  (RefreshCommonResource (W := MemStore) conf GetCommonReplaceConfig
     GetClusterReplaceConfig).
Abbreviation init_resources :=
  (InitResource (W := MemStore) conf GetCommonReplaceConfig
     GetClusterReplaceConfig).

(** The name under which the resource of a register is looked up. *)
Definition resource_name (b : BCSClusterInfo) (register : DatasourceRegister)
  : string :=
  composeDataidResourceName conf b (ToLower (DatasourceName register)).

(** The store holds, for this register, a resource that compares as the
    same as the desired document. *)
Definition in_sync (b : BCSClusterInfo) (w : MemStore)
    (register : DatasourceRegister) : Prop :=
  exists config res,
    desired b register = Ok config
    /\ stored w !! resource_name b register = Some res
    /\ isSameResourceConfig (Object config) (Object res) = true.

(** The document built for a register carries the name it is looked up
    under. *)
Lemma makeConfig_name (b : BCSClusterInfo) (register : DatasourceRegister)
    (config : Unstructured) :
  desired b register = Ok config -> GetName config = resource_name b register.
Proof.
  unfold makeConfig.
  destruct GetCommonReplaceConfig; [| done].
  destruct (GetClusterReplaceConfig (ClusterID b)); [| done].
  by intros [= <-].
Qed.

Lemma makeConfig_succeeds (b : BCSClusterInfo) (register : DatasourceRegister)
    (common perCluster : ReplaceConfig) :
  GetCommonReplaceConfig = Ok common ->
  GetClusterReplaceConfig (ClusterID b) = Ok perCluster ->
  exists config, desired b register = Ok config.
Proof. intros Hc Hp. unfold makeConfig. rewrite Hc, Hp. eauto. Qed.

Lemma refreshRegisters_in_sync (b : BCSClusterInfo) (w0 w : MemStore)
    (order : list DatasourceRegister) :
  (forall register, register ∈ order -> in_sync b w0 register) ->
  refreshRegisters conf GetCommonReplaceConfig GetClusterReplaceConfig b
    (stored w0) order w = (None, w).
Proof.
  induction order as [| register order IH]; intros Hsync; simpl; [done |].
  destruct (Hsync register (list_elem_of_here _ _))
    as (config & res & -> & Hres & Hsame).
  unfold resource_name in Hres. rewrite Hres, Hsame. simpl.
  apply IH. intros r Hr. apply Hsync. by right.
Qed.

Lemma refresh_in_sync (b : BCSClusterInfo) (w : MemStore)
    (order : list DatasourceRegister) :
  keyed_by_name w ->
  (forall register, register ∈ order -> in_sync b w register) ->
  refresh (Some b) order w = (None, serve w ReqList (stored w)).
Proof.
  intros Hkeyed Hsync. unfold RefreshCommonResource. simpl.
  rewrite resourceMap_of_store by done.
  by apply refreshRegisters_in_sync.
Qed.

(** On a store that holds, for every register of the pass, a resource
    that compares as the same as the desired one, [RefreshCommonResource]
    sends the list request and nothing else: no get, no create, no
    update, and the store is left as it was. *)
Theorem refresh_of_synced_store_only_lists (b : BCSClusterInfo)
    (w : MemStore) (order : list DatasourceRegister) :
  keyed_by_name w ->
  (forall register, register ∈ order -> in_sync b w register) ->
  refresh (Some b) order w = (None, serve w ReqList (stored w)).
Proof. apply refresh_in_sync. Qed.

(** *** [InitResource] on a store without the resources *)

Lemma ensure_creates (w : MemStore) (name : string) (config : Unstructured) :
  stored w !! name = None -> GetName config = name ->
  ensureDataIdResource (W := MemStore) conf name config w
  = (None,
     serve (serve w (ReqGet name) (stored w)) (ReqCreate name)
       (<[name := config]> (stored w))).
Proof.
  intros Habsent Hname. unfold ensureDataIdResource. simpl.
  rewrite Habsent. simpl. rewrite Hname, Habsent. done.
Qed.

Lemma initRegisters_creates (b : BCSClusterInfo)
    (common perCluster : ReplaceConfig)
    (order : list DatasourceRegister) (w : MemStore) :
  GetCommonReplaceConfig = Ok common ->
  GetClusterReplaceConfig (ClusterID b) = Ok perCluster ->
  NoDup (resource_name b <$> order) ->
  (forall register, register ∈ order ->
     stored w !! resource_name b register = None) ->
  keyed_by_name w ->
  exists w',
    initRegisters conf GetCommonReplaceConfig GetClusterReplaceConfig b
      order w = (None, w')
    /\ keyed_by_name w'
    /\ size (stored w') = (size (stored w) + length order)%nat
    /\ (forall register, register ∈ order ->
          exists config, desired b register = Ok config
                         /\ stored w' !! resource_name b register
                            = Some config)
    /\ (forall name u, stored w !! name = Some u ->
          stored w' !! name = Some u).
Proof.
  intros Hc Hp. revert w.
  induction order as [| register order IH]; intros w Hnd Habsent Hkeyed.
  - exists w. simpl. split; [done |]. split; [done |].
    split; [lia |]. split; [| done].
    intros r Hr. by apply elem_of_nil in Hr.
  - rewrite fmap_cons in Hnd. apply NoDup_cons in Hnd as [Hfresh Hnd].
    destruct (makeConfig_succeeds b register _ _ Hc Hp) as [config Hcfg].
    pose proof (makeConfig_name b register config Hcfg) as Hname.
    pose proof (Habsent register (list_elem_of_here _ _)) as Hnone.
    simpl. rewrite Hcfg.
    fold (resource_name b register).
    rewrite (ensure_creates w _ config Hnone Hname).
    set (w1 := serve _ (ReqCreate _) _).
    destruct (IH w1) as (w' & Hrun & Hkeyed' & Hsize & Hall & Hkeep).
    + done.
    + intros r Hr. unfold w1. simpl. rewrite lookup_insert_ne.
      * apply Habsent. by right.
      * intros Heq. apply Hfresh. rewrite Heq.
        by apply list_elem_of_fmap_2.
    + intros n u. unfold w1. simpl.
      destruct (decide (resource_name b register = n)) as [<- | Hne].
      * rewrite lookup_insert_eq. by intros [= <-].
      * rewrite lookup_insert_ne by done. apply Hkeyed.
    + exists w'. split; [done |]. split; [done |]. split; [| split].
      * rewrite Hsize. unfold w1. simpl.
        rewrite map_size_insert_None by done. lia.
      * intros r Hr. apply elem_of_cons in Hr as [-> | Hr]; [| by apply Hall].
        exists config. split; [done |]. apply Hkeep. unfold w1. simpl.
        apply lookup_insert_eq.
      * intros n u Hn. apply Hkeep. unfold w1. simpl.
        rewrite lookup_insert_ne; [done |]. intros <-. congruence.
Qed.

(** After [InitResource] has run for a list of registers on a store
    that held no resource, the store holds one resource for each of them,
    and a pass of [RefreshCommonResource] over any of these registers
    sends the list request only. *)
Theorem refresh_after_init_only_lists (b : BCSClusterInfo)
    (common perCluster : ReplaceConfig)
    (order : list DatasourceRegister) :
  GetCommonReplaceConfig = Ok common ->
  GetClusterReplaceConfig (ClusterID b) = Ok perCluster ->
  NoDup (resource_name b <$> order) ->
  exists w,
    init_resources (Some b) order empty_store = (None, w)
    /\ size (stored w) = length order
    /\ forall order', order' ⊆ order ->
         refresh (Some b) order' w = (None, serve w ReqList (stored w)).
Proof.
  intros Hc Hp Hnd.
  destruct (initRegisters_creates b common perCluster order empty_store
              Hc Hp Hnd)
    as (w & Hrun & Hkeyed & Hsize & Hall & _).
  - intros r _. apply lookup_empty.
  - intros n u Hn. simpl in Hn. by rewrite lookup_empty in Hn.
  - exists w. split; [done |]. split.
    + rewrite Hsize. simpl. by rewrite map_size_empty.
    + intros order' Hsub. apply refresh_in_sync; [done |].
      intros r Hr. destruct (Hall r (Hsub r Hr)) as (config & Hcfg & Hst).
      exists config, config. split; [done |]. split; [done |].
      apply (sameEntry_refl_sized (S (value_size (VMap (Object config))))
               (VMap (Object config))).
      lia.
Qed.
(** [InitResource] on a cluster that holds none of the resources of the
    registers: when the replace configs load and the registers have
    distinct resource names, it returns [nil] and creates, for every
    register, the document [makeConfig] builds for it under the name of
    the register; the store grows by one resource per register and keeps
    the resources it held. *)
Theorem InitResource_creates_the_desired_resources (b : BCSClusterInfo)
    (common perCluster : ReplaceConfig)
    (order : list DatasourceRegister) (w : MemStore) :
  GetCommonReplaceConfig = Ok common ->
  GetClusterReplaceConfig (ClusterID b) = Ok perCluster ->
  NoDup (resource_name b <$> order) ->
  keyed_by_name w ->
  (forall register, register ∈ order ->
     stored w !! resource_name b register = None) ->
  exists w',
    init_resources (Some b) order w = (None, w')
    /\ size (stored w') = (size (stored w) + length order)%nat
    /\ (forall register, register ∈ order ->
          exists config,
            desired b register = Ok config
            /\ stored w' !! resource_name b register = Some config)
    /\ (forall name u, stored w !! name = Some u ->
          stored w' !! name = Some u).
Proof.
  intros Hc Hp Hnd Hkeyed Habsent.
  destruct (initRegisters_creates b common perCluster order w
              Hc Hp Hnd Habsent Hkeyed)
    as (w' & Hrun & _ & Hsize & Hall & Hkeep).
  by exists w'.
Qed.
End ReconcilerFacts.

(** The store of the sample cluster after its registration. *)
Definition registered_store : MemStore :=
  (ServiceSpec.init_sample registers empty_store).2.

Definition sample_desired (register : DatasourceRegister) : Unstructured :=
  {| Object := ServiceSpec.sample_config sample_cluster register |}.

Lemma registered_store_keyed : keyed_by_name registered_store.
Proof.
  change (map_Forall (fun name u => GetName u = name)
            (stored registered_store)).
  apply (bool_decide_unpack _). by vm_compute.
Qed.

Lemma registered_store_in_sync (register : DatasourceRegister) :
  register ∈ registers ->
  in_sync sample_settings (Ok no_rules) (fun _ => Ok no_rules)
    sample_cluster registered_store register.
Proof.
  intros Hr. unfold registers, bcsDatasourceRegisterInfo in Hr.
  rewrite !fmap_cons in Hr. simpl in Hr.
  repeat (apply elem_of_cons in Hr as [-> | Hr]);
    [| | | by apply elem_of_nil in Hr];
    match goal with
    | |- in_sync _ _ _ _ _ ?r =>
        exists (sample_desired r), (sample_desired r)
    end;
    (split; [reflexivity |]; split; vm_compute; reflexivity).
Qed.

Lemma refresh_of_synced_store_only_lists_sample :
  RefreshCommonResource sample_settings (Ok no_rules) (fun _ => Ok no_rules)
    (Some sample_cluster) registers registered_store
  = (None, serve registered_store ReqList (stored registered_store)).
Proof.
  apply (refresh_of_synced_store_only_lists sample_settings (Ok no_rules)
           (fun _ => Ok no_rules) sample_cluster registered_store
           registers).
  - apply registered_store_keyed.
  - apply registered_store_in_sync.
Defined.

Lemma InitResource_creates_the_desired_resources_sample :
  exists w',
    InitResource sample_settings (Ok no_rules) (fun _ => Ok no_rules)
      (Some sample_cluster) registers empty_store = (None, w')
    /\ size (stored w') = (size (stored empty_store) + length registers)%nat
    /\ (forall register, register ∈ registers ->
          exists config,
            makeConfig sample_settings (Ok no_rules) (fun _ => Ok no_rules)
              sample_cluster register = Ok config
            /\ stored w'
                 !! resource_name sample_settings sample_cluster register
               = Some config)
    /\ (forall name u, stored empty_store !! name = Some u ->
          stored w' !! name = Some u).
Proof.
  apply (InitResource_creates_the_desired_resources sample_settings
           (Ok no_rules) (fun _ => Ok no_rules) sample_cluster no_rules
           no_rules registers empty_store).
  - reflexivity.
  - reflexivity.
  - apply (bool_decide_unpack _). by vm_compute.
  - intros name u Hn. simpl in Hn. by rewrite lookup_empty in Hn.
  - intros register _. apply lookup_empty.
Defined.

Lemma refresh_after_init_only_lists_sample :
  exists w,
    InitResource sample_settings (Ok no_rules) (fun _ => Ok no_rules)
      (Some sample_cluster) registers empty_store = (None, w)
    /\ size (stored w) = length registers
    /\ forall order', order' ⊆ registers ->
         RefreshCommonResource sample_settings (Ok no_rules)
           (fun _ => Ok no_rules) (Some sample_cluster) order' w
         = (None, serve w ReqList (stored w)).
Proof.
  apply (refresh_after_init_only_lists sample_settings (Ok no_rules)
           (fun _ => Ok no_rules) sample_cluster no_rules no_rules
           registers).
  - reflexivity.
  - reflexivity.
  - apply (bool_decide_unpack _). by vm_compute.
Defined.

End ServiceExtra.


(* ================================================================== *)
(** * Package [service]: the cluster list of the cluster manager *)
(* ================================================================== *)

Module ClusterList.

(** [BcsClusterInfo], the object [FetchK8sClusterList] returns. *)
Record BcsClusterInfo := {
  BkBizId : string;
  ClusterId : string;
  BcsClusterId : string;
  Id : string;
  Name : string;
  ProjectId : string;
  ProjectName : string;
  CreatedAt : string;
  UpdatedAt : string;
  Status : string;
  Environment : string;
}.

Section FetchK8sClusterList.
(** [cluster.GetString(key)] of package [optionx], which is outside the
    sources at hand: the string under [key] when the second result is
    true, [None] when it is false. *)
Variable GetString : gmap string Service.value -> string -> option string.
(** [cfg.BcsEnableBcsGray] and [cfg.BcsGrayClusterIdList]. *)
Variable BcsEnableBcsGray : bool.
Variable BcsGrayClusterIdList : list string.
(** The answer of the cluster manager ([resp.Data]), or the error of the
    request. *)
Variable FetchClusters : result (list (gmap string Service.value)).

Definition IsClusterIdInGray (clusterId : string) : bool :=
  if negb BcsEnableBcsGray then true
  else bool_decide (clusterId ∈ BcsGrayClusterIdList).

(** The fields read after a cluster has been accepted: the first one
    that is missing ends the call with its error. *)
Definition readCluster (cluster : gmap string Service.value)
    (clusterId businessID : string) : result BcsClusterInfo :=
  match GetString cluster "clusterName" with
  | None => Err (ErrOther "can not get clusterName")
  | Some clusterName =>
  match GetString cluster "projectID" with
  | None => Err (ErrOther "can not get projectID")
  | Some projectID =>
  match GetString cluster "createTime" with
  | None => Err (ErrOther "can not get createTime")
  | Some createTime =>
  match GetString cluster "updateTime" with
  | None => Err (ErrOther "can not get updateTime")
  | Some updateTime =>
  match GetString cluster "status" with
  | None => Err (ErrOther "can not get status")
  | Some status =>
  match GetString cluster "environment" with
  | None => Err (ErrOther "can not get environment")
  | Some environment =>
      Ok {| BkBizId := businessID; ClusterId := clusterId;
            BcsClusterId := clusterId; Id := clusterId;
            Name := clusterName; ProjectId := projectID;
            ProjectName := ""; CreatedAt := createTime;
            UpdatedAt := updateTime; Status := status;
            Environment := environment |}
  end end end end end end.

(** One turn of the loop over [resp.Data]: [Ok] is the list after the
    turn (unchanged on [continue]), [Err] the error returned. *)
Definition clusterStep (clusterList : list BcsClusterInfo)
    (clusterMap : gmap string Service.value) : result (list BcsClusterInfo) :=
  match GetString clusterMap "clusterID" with
  | None => Ok clusterList
  | Some clusterId =>
      match GetString clusterMap "businessID" with
      | None => Ok clusterList
      | Some businessID =>
          if negb (IsClusterIdInGray clusterId) then Ok clusterList
          else if bool_decide (clusterId ∈ ClusterId <$> clusterList)
          then Ok clusterList
          else
            match readCluster clusterMap clusterId businessID with
            | Err e => Err e
            | Ok cluster => Ok (clusterList ++ [cluster])
            end
      end
  end.

Fixpoint clusterLoop (data : list (gmap string Service.value))
    (clusterList : list BcsClusterInfo) : result (list BcsClusterInfo) :=
  match data with
  | [] => Ok clusterList
  | clusterMap :: rest =>
      match clusterStep clusterList clusterMap with
      | Err e => Err e
      | Ok clusterList => clusterLoop rest clusterList
      end
  end.

Definition FetchK8sClusterList : result (list BcsClusterInfo) :=
  match FetchClusters with
  | Err e => Err e
  | Ok data => clusterLoop data []
  end.

(** A cluster of the answer that the loop does not skip: it carries an
    identifier and a business, and is in the gray list. *)
Definition eligible (clusterMap : gmap string Service.value)
    (clusterId : string) : Prop :=
  GetString clusterMap "clusterID" = Some clusterId
  /\ is_Some (GetString clusterMap "businessID")
  /\ IsClusterIdInGray clusterId = true.

Lemma readCluster_id (clusterMap : gmap string Service.value)
    (clusterId businessID : string) (cluster : BcsClusterInfo) :
  readCluster clusterMap clusterId businessID = Ok cluster ->
  ClusterId cluster = clusterId /\ BkBizId cluster = businessID.
Proof.
  unfold readCluster.
  repeat (destruct (GetString clusterMap _); [| discriminate]).
  intros [= <-]. by split.
Qed.

Lemma clusterStep_ids (clusterList clusterList' : list BcsClusterInfo)
    (clusterMap : gmap string Service.value) :
  clusterStep clusterList clusterMap = Ok clusterList' ->
  NoDup (ClusterId <$> clusterList) ->
  NoDup (ClusterId <$> clusterList')
  /\ (forall id, id ∈ ClusterId <$> clusterList' ->
                 id ∈ ClusterId <$> clusterList \/ eligible clusterMap id)
  /\ (forall id, id ∈ ClusterId <$> clusterList ->
                 id ∈ ClusterId <$> clusterList')
  /\ (forall id, eligible clusterMap id -> id ∈ ClusterId <$> clusterList').
Proof.
  unfold clusterStep, eligible. intros Hstep Hnd.
  destruct (GetString clusterMap "clusterID") as [clusterId |] eqn:Hid.
  2: { injection Hstep as <-. repeat split; auto.
       intros id [Hn _]. discriminate. }
  destruct (GetString clusterMap "businessID") as [businessID |] eqn:Hbiz.
  2: { injection Hstep as <-. repeat split; auto.
       intros id (_ & [b Hb] & _). discriminate. }
  destruct (IsClusterIdInGray clusterId) eqn:Hgray; simpl in Hstep.
  2: { injection Hstep as <-. repeat split; auto.
       intros id ([= <-] & _ & Hg). congruence. }
  destruct (bool_decide (clusterId ∈ ClusterId <$> clusterList)) eqn:Hdup.
  { injection Hstep as <-. apply bool_decide_eq_true in Hdup.
    repeat split; auto. by intros id ([= <-] & _ & _). }
  apply bool_decide_eq_false in Hdup.
  destruct (readCluster clusterMap clusterId businessID) as [cluster | e]
    eqn:Hread; [| discriminate].
  injection Hstep as <-. apply readCluster_id in Hread as [Hc _].
  rewrite fmap_app. simpl. rewrite Hc.
  split; [| split; [| split]].
  - apply NoDup_app. split; [done |]. split.
    + intros x Hx Hx'. apply list_elem_of_singleton in Hx'. by subst x.
    + apply NoDup_singleton.
  - intros id Hin. apply elem_of_app in Hin as [Hin | Hin]; [by left |].
    apply list_elem_of_singleton in Hin. subst id. right.
    split; [done |]. split; [by exists businessID | done].
  - intros id Hin. apply elem_of_app. by left.
  - intros id ([= <-] & _ & _). apply elem_of_app. right.
    by apply list_elem_of_singleton.
Qed.

Lemma clusterLoop_ids (data : list (gmap string Service.value)) :
  forall clusterList clusterList',
  clusterLoop data clusterList = Ok clusterList' ->
  NoDup (ClusterId <$> clusterList) ->
  NoDup (ClusterId <$> clusterList')
  /\ (forall id, id ∈ ClusterId <$> clusterList' <->
                 id ∈ ClusterId <$> clusterList
                 \/ exists clusterMap, clusterMap ∈ data
                                       /\ eligible clusterMap id).
Proof.
  induction data as [| clusterMap rest IH]; simpl;
    intros clusterList clusterList' Hloop Hnd.
  - injection Hloop as <-. split; [done |]. intros id. split; [by left |].
    intros [H | (m & Hm & _)]; [done |]. by apply elem_of_nil in Hm.
  - destruct (clusterStep clusterList clusterMap) as [mid | e] eqn:Hstep;
      [| discriminate].
    destruct (clusterStep_ids _ _ _ Hstep Hnd) as (Hnd' & Hfrom & Hkeep & Hnew).
    destruct (IH _ _ Hloop Hnd') as (Hnd'' & Hiff).
    split; [done |]. intros id. rewrite Hiff. split.
    + intros [Hin | (m & Hm & He)].
      * destruct (Hfrom _ Hin) as [H | H]; [by left |].
        right. exists clusterMap. split; [apply list_elem_of_here | done].
      * right. exists m. split; [by apply list_elem_of_further | done].
    + intros [Hin | (m & Hm & He)].
      * left. by apply Hkeep.
      * apply elem_of_cons in Hm as [-> | Hm].
        -- left. by apply Hnew.
        -- right. by exists m.
Qed.

(** An accepted cluster carries the business of the entry that was first
    in the answer among those with its identifier. *)
Lemma clusterStep_business (clusterList clusterList' : list BcsClusterInfo)
    (clusterMap : gmap string Service.value) :
  clusterStep clusterList clusterMap = Ok clusterList' ->
  exists added, clusterList' = clusterList ++ added
    /\ Forall (fun c => GetString clusterMap "clusterID" = Some (ClusterId c)
                        /\ GetString clusterMap "businessID" = Some (BkBizId c)
                        /\ ClusterId c ∉ (ClusterId <$> clusterList)) added.
Proof.
  unfold clusterStep. intros Hstep.
  destruct (GetString clusterMap "clusterID") as [clusterId |] eqn:Hid.
  2: { injection Hstep as <-. exists []. by rewrite app_nil_r. }
  destruct (GetString clusterMap "businessID") as [businessID |] eqn:Hbiz.
  2: { injection Hstep as <-. exists []. by rewrite app_nil_r. }
  destruct (negb (IsClusterIdInGray clusterId)).
  { injection Hstep as <-. exists []. by rewrite app_nil_r. }
  destruct (bool_decide (clusterId ∈ ClusterId <$> clusterList)) eqn:Hdup.
  { injection Hstep as <-. exists []. by rewrite app_nil_r. }
  apply bool_decide_eq_false in Hdup.
  destruct (readCluster clusterMap clusterId businessID) as [cluster | e]
    eqn:Hread; [| discriminate].
  injection Hstep as <-. apply readCluster_id in Hread as [Hc Hb].
  exists [cluster]. split; [done |]. apply Forall_singleton.
  by rewrite Hc, Hb.
Qed.

Lemma clusterLoop_first (data : list (gmap string Service.value)) :
  forall clusterList clusterList' c,
  clusterLoop data clusterList = Ok clusterList' ->
  NoDup (ClusterId <$> clusterList) ->
  c ∈ clusterList' ->
  c ∈ clusterList
  \/ exists pre clusterMap post,
       data = pre ++ clusterMap :: post
       /\ GetString clusterMap "clusterID" = Some (ClusterId c)
       /\ GetString clusterMap "businessID" = Some (BkBizId c)
       /\ (ClusterId c ∉ ClusterId <$> clusterList)
       /\ forall earlier, earlier ∈ pre -> ~ eligible earlier (ClusterId c).
Proof.
  induction data as [| clusterMap rest IH]; simpl;
    intros clusterList clusterList' c Hloop Hnd Hc.
  - injection Hloop as <-. by left.
  - destruct (clusterStep clusterList clusterMap) as [mid | e] eqn:Hstep;
      [| discriminate].
    destruct (clusterStep_ids _ _ _ Hstep Hnd) as (Hnd' & _ & Hkeep & Hnew).
    destruct (clusterStep_business _ _ _ Hstep) as (added & -> & Hadded).
    destruct (IH _ _ c Hloop Hnd' Hc) as [Hmid | (pre & m & post & Hd & Hi & Hb & Hfresh & Hpre)].
    + apply elem_of_app in Hmid as [Hold | Hadd]; [by left |].
      right. exists [], clusterMap, rest.
      rewrite Forall_forall in Hadded.
      destruct (Hadded _ Hadd) as (Hi & Hb & Hfresh).
      repeat split; try done. intros earlier He. by apply elem_of_nil in He.
    + right. exists (clusterMap :: pre), m, post. subst rest.
      repeat split; try done.
      * intros Hin. apply Hfresh. by apply Hkeep.
      * intros earlier He Hel. apply elem_of_cons in He as [-> | He].
        -- apply Hfresh. by apply Hnew.
        -- by apply (Hpre earlier).
Qed.

(** The clusters returned are those of the answer that carry an
    identifier and a business and pass the gray list, each identifier
    once. *)
Theorem FetchK8sClusterList_ids (data : list (gmap string Service.value))
    (clusterList : list BcsClusterInfo) :
  FetchClusters = Ok data ->
  FetchK8sClusterList = Ok clusterList ->
  NoDup (ClusterId <$> clusterList)
  /\ forall id, id ∈ ClusterId <$> clusterList <->
                exists clusterMap, clusterMap ∈ data /\ eligible clusterMap id.
Proof.
  unfold FetchK8sClusterList. intros -> Hloop.
  destruct (clusterLoop_ids _ _ _ Hloop) as [Hnd Hiff]; [apply NoDup_nil_2 |].
  split; [done |]. intros id. rewrite Hiff. split.
  - intros [H | H]; [by apply elem_of_nil in H | done].
  - intros H. by right.
Qed.

(** Of the entries that share an identifier, the first one that is not
    skipped gives the cluster its business. *)
Theorem FetchK8sClusterList_first_entry_wins
    (data : list (gmap string Service.value))
    (clusterList : list BcsClusterInfo) (c : BcsClusterInfo) :
  FetchClusters = Ok data ->
  FetchK8sClusterList = Ok clusterList ->
  c ∈ clusterList ->
  exists pre clusterMap post,
    data = pre ++ clusterMap :: post
    /\ GetString clusterMap "clusterID" = Some (ClusterId c)
    /\ GetString clusterMap "businessID" = Some (BkBizId c)
    /\ forall earlier, earlier ∈ pre -> ~ eligible earlier (ClusterId c).
Proof.
  unfold FetchK8sClusterList. intros -> Hloop Hc.
  destruct (clusterLoop_first _ _ _ c Hloop) as
    [H | (pre & m & post & Hd & Hi & Hb & _ & Hpre)];
    [apply NoDup_nil_2 | done | by apply elem_of_nil in H |].
  by exists pre, m, post.
Qed.

End FetchK8sClusterList.

(** A reading of [GetString] for the examples: the value under the key
    when it is a string. *)
Definition sample_GetString (m : gmap string Service.value) (key : string)
    : option string :=
  match m !! key with
  | Some (Service.VString s) => Some s
  | _ => None
  end.

Definition sample_entry (clusterId businessID : string)
    : gmap string Service.value :=
  list_to_map
    [("clusterID", Service.VString clusterId);
     ("businessID", Service.VString businessID);
     ("clusterName", Service.VString "shared");
     ("projectID", Service.VString "p1");
     ("createTime", Service.VString "2024-01-01");
     ("updateTime", Service.VString "2024-01-02");
     ("status", Service.VString "RUNNING");
     ("environment", Service.VString "prod")].

(** A shared cluster listed for two businesses, and one entry without a
    business. *)
Definition sample_answer : list (gmap string Service.value) :=
  [sample_entry "BCS-K8S-1" "2"; sample_entry "BCS-K8S-1" "3";
   {[ "clusterID" := Service.VString "BCS-K8S-9" ]};
   sample_entry "BCS-K8S-2" "2"].

Definition sample_clusters : list BcsClusterInfo :=
  match FetchK8sClusterList sample_GetString false [] (Ok sample_answer) with
  | Ok l => l
  | Err _ => []
  end.

Lemma sample_clusters_fetched :
  FetchK8sClusterList sample_GetString false [] (Ok sample_answer)
  = Ok sample_clusters.
Proof. vm_compute. reflexivity. Qed.

Lemma FetchK8sClusterList_ids_sample :
  NoDup (ClusterId <$> sample_clusters)
  /\ forall id, id ∈ ClusterId <$> sample_clusters <->
       exists clusterMap, clusterMap ∈ sample_answer
         /\ eligible sample_GetString false [] clusterMap id.
Proof.
  exact (FetchK8sClusterList_ids sample_GetString false [] (Ok sample_answer)
           sample_answer sample_clusters eq_refl sample_clusters_fetched).
Defined.

Example sample_clusters_businesses :
  (fun c => (ClusterId c, BkBizId c)) <$> sample_clusters
  = [("BCS-K8S-1", "2"); ("BCS-K8S-2", "2")].
Proof. vm_compute. reflexivity. Qed.

Lemma sample_first_cluster :
  {c | sample_clusters !! 0%nat = Some c}.
Proof. vm_compute. eexists. reflexivity. Defined.

Lemma FetchK8sClusterList_first_entry_wins_sample :
  exists pre clusterMap post,
    sample_answer = pre ++ clusterMap :: post
    /\ sample_GetString clusterMap "clusterID"
       = Some (ClusterId (proj1_sig sample_first_cluster))
    /\ sample_GetString clusterMap "businessID"
       = Some (BkBizId (proj1_sig sample_first_cluster))
    /\ forall earlier, earlier ∈ pre ->
         ~ eligible sample_GetString false [] earlier
             (ClusterId (proj1_sig sample_first_cluster)).
Proof.
  apply (FetchK8sClusterList_first_entry_wins sample_GetString false []
           (Ok sample_answer) sample_answer sample_clusters
           (proj1_sig sample_first_cluster) eq_refl sample_clusters_fetched).
  apply (list_elem_of_lookup_2 _ 0%nat). exact (proj2_sig sample_first_cluster).
Defined.

End ClusterList.

(* ================================================================== *)
(** * Package [service]: reading a node document *)
(* ================================================================== *)

Module NodeParser.

(** A decoded JSON value ([interface{}] after [json.Unmarshal]). Numbers
    are never inspected by the code below. *)
Inductive json :=
| JNull
| JBool (b : bool)
| JNumber (n : Z)
| JString (s : string)
| JArray (elems : list json)
| JObject (fields : gmap string json).

(** [time.Time] as nanoseconds since the epoch. *)
Definition Time := Z.

Record Address := {
  Address_Address : string;
  Address_Type : string;
}.

Record Condition := {
  Condition_Message : string;
  Condition_Reason : string;
  Condition_Status : string;
  Condition_Type : string;
}.

Record NodeInfo := {
  Spec : gmap string json;
  Status_Addresses : list Address;
  Status_Conditions : list Condition;
  Metadata_CreationTimestamp : option Time;
  Metadata_CreationTimestampB : option Time;
  Metadata_Labels : gmap string string;
  Metadata_Name : string;
  Metadata_ResourceVersion : string;
  Subsets : list (gmap string json);
}.

(** [KubernetesNodeJsonParser{Node}] is its one field. *)
Definition KubernetesNodeJsonParser := NodeInfo.

Fixpoint NodeIp_loop (addresses : list Address) : string :=
  match addresses with
  | [] => ""
  | address :: rest =>
      if String.eqb (Address_Type address) "InternalIP"
      then Address_Address address
      else NodeIp_loop rest
  end.

Definition NodeIp (k : KubernetesNodeJsonParser) : string :=
  NodeIp_loop (Status_Addresses k).

Definition Name (k : KubernetesNodeJsonParser) : string := Metadata_Name k.

Definition Labels (k : KubernetesNodeJsonParser) : gmap string string :=
  Metadata_Labels k.

(** [key[len(prefix):]]. *)
Fixpoint string_drop (n : nat) (s : string) : string :=
  match n, s with
  | O, _ => s
  | S n, String _ s => string_drop n s
  | S _, EmptyString => EmptyString
  end.

Definition nodeRoleKeyPrefix : string := "node-role.kubernetes.io/".

(** [strings.Join(elems, sep)]. *)
Fixpoint Join (elems : list string) (sep : string) : string :=
  match elems with
  | [] => ""
  | [s] => s
  | s :: rest => s +:+ sep +:+ Join rest sep
  end.

(** Go's [int]: 64 bits, two's complement. *)
Definition int_wrap (z : Z) : Z := (z + 2 ^ 63) mod 2 ^ 64 - 2 ^ 63.

Section Methods.
(** The order in which [for key, value := range labels] yields the
    entries. *)
Variable rangeLabels : gmap string string -> list (string * string).
(** [optionx.NewOptions(m).GetString(key)] with its two results. *)
Variable GetString : gmap string json -> string -> string * bool.

Definition LabelList (k : KubernetesNodeJsonParser)
    : list (gmap string string) :=
  (fun kv => {[ "key" := kv.1; "value" := kv.2 ]})
    <$> rangeLabels (Metadata_Labels k).

Definition roleStep (roles : list string) (kv : string * string)
    : list string :=
  if String.prefix nodeRoleKeyPrefix kv.1 then
    let value := string_drop (String.length nodeRoleKeyPrefix) kv.1 in
    if negb (String.eqb value "") then roles ++ [value] else roles
  else roles.

Definition RoleList (k : KubernetesNodeJsonParser) : list string :=
  fold_left roleStep (rangeLabels (Metadata_Labels k)) [].

Definition conditionStep (statusList : list string) (c : Condition)
    : list string :=
  if String.eqb (Condition_Type c) "Ready" then
    if String.eqb (Condition_Status c) "True"
    then statusList ++ ["Ready"]
    else statusList ++ ["NotReady"]
  else statusList.

(** [None] is the panic of [unschedulableInterface.(bool)] on a value
    that is not a boolean. *)
Definition ServiceStatus (k : KubernetesNodeJsonParser) : option string :=
  let statusList := fold_left conditionStep (Status_Conditions k) [] in
  let statusList :=
    if bool_decide (length statusList = 0%nat)
    then statusList ++ ["Unknown"] else statusList in
  match Spec k !! "unschedulable" with
  | Some (JBool true) => Some (Join (statusList ++ ["SchedulingDisabled"]) ",")
  | Some (JBool false) => Some (Join statusList ",")
  | Some _ => None
  | None => Some (Join statusList ",")
  end.

Definition addressStep (name : string) (addressCount : Z)
    (addressInterface : json) : Z :=
  match addressInterface with
  | JObject addressMap =>
      let nodeName := (GetString addressMap "nodeName").1 in
      if String.eqb name nodeName then int_wrap (addressCount + 1)
      else addressCount
  | _ => addressCount
  end.

Definition subsetStep (name : string) (count : Z)
    (subset : gmap string json) : Z :=
  match subset !! "addresses" with
  | Some (JArray addressList) =>
      let addressCount := fold_left (addressStep name) addressList 0 in
      match subset !! "ports" with
      | None => count
      | Some portsInterface =>
          let ports :=
            match portsInterface with JArray ports => ports | _ => [] end in
          int_wrap (count + int_wrap (addressCount * Z.of_nat (length ports)))
      end
  | _ => count
  end.

Definition GetEndpointsCount (k : KubernetesNodeJsonParser)
    (endpoints : list NodeInfo) : Z :=
  fold_left
    (fun count endpoint => fold_left (subsetStep (Name k)) (Subsets endpoint) count)
    endpoints 0.

Definition CreationTimestamp (k : KubernetesNodeJsonParser) : option Time :=
  match Metadata_CreationTimestamp k with
  | Some t => Some t
  | None => Metadata_CreationTimestampB k
  end.

(** [fmt.Sprintf("%v=%v:%v", key, value, effect)] on three strings. *)
Definition taintLabel (key value effect : string) : string :=
  key +:+ "=" +:+ value +:+ ":" +:+ effect.

Definition taintStep (labels : list string) (taintInterface : json)
    : list string :=
  match taintInterface with
  | JObject taint =>
      let key := (GetString taint "key").1 in
      let value := (GetString taint "value").1 in
      let effect := (GetString taint "effect").1 in
      if String.eqb key "" && String.eqb value "" && String.eqb effect ""
      then labels
      else labels ++ [taintLabel key value effect]
  | _ => labels
  end.

Definition TaintLabels (k : KubernetesNodeJsonParser) : list string :=
  match Spec k !! "taints" with
  | Some (JArray taints) => fold_left taintStep taints []
  | _ => []
  end.

(** [None] is the nil dereference of [*k.CreationTimestamp()]. *)
Definition Age (now : Time) (k : KubernetesNodeJsonParser) : option Z :=
  match CreationTimestamp k with
  | Some created => Some (int_wrap (now - created))
  | None => None
  end.

End Methods.

(** [BCSPod], as far as [getPodCountStatistics] reads it. *)
Record BCSPod := {
  Pod_Name : string;
  Pod_NodeIp : string;
}.

(** [result[p.NodeIp] = result[p.NodeIp] + 1]; the count is at most the
    length of the slice, so the addition does not wrap. *)
Definition countPod (result : gmap string Z) (p : BCSPod) : gmap string Z :=
  <[Pod_NodeIp p := default 0 (result !! Pod_NodeIp p) + 1]> result.

(** [queryPods] is the query for the pods of the cluster. *)
Definition getPodCountStatistics (queryPods : result (list BCSPod))
    : result (gmap string Z) :=
  match queryPods with
  | Err e => Err e
  | Ok bcsPodList => Ok (fold_left countPod bcsPodList ∅)
  end.

(** ** The pods of a node *)

Definition pods_on (ip : string) (pods : list BCSPod) : Z :=
  Z.of_nat (length (filter (fun p => Pod_NodeIp p = ip) pods)).

Lemma fold_countPod (pods : list BCSPod) :
  forall (acc : gmap string Z) (ip : string),
  default 0 (fold_left countPod pods acc !! ip)
  = default 0 (acc !! ip) + pods_on ip pods.
Proof.
  unfold pods_on.
  induction pods as [| p rest IH]; intros acc ip; simpl.
  - lia.
  - rewrite IH. unfold countPod.
    destruct (decide (Pod_NodeIp p = ip)) as [Heq | Hne].
    + rewrite filter_cons_True by done. subst ip.
      rewrite lookup_insert_eq. simpl. lia.
    + rewrite filter_cons_False by done.
      rewrite lookup_insert_ne by done. reflexivity.
Qed.

(** The statistics give every address the number of pods recorded for
    it, and so 0 (the value Go reads for a missing key) to an address
    without pods. *)
Theorem getPodCountStatistics_counts_pods (bcsPodList : list BCSPod)
    (statistics : gmap string Z) :
  getPodCountStatistics (Ok bcsPodList) = Ok statistics ->
  forall ip, default 0 (statistics !! ip) = pods_on ip bcsPodList.
Proof.
  simpl. intros [= <-] ip. rewrite fold_countPod.
  rewrite lookup_empty. simpl. lia.
Qed.

Definition sample_pods : list BCSPod :=
  [ {| Pod_Name := "a"; Pod_NodeIp := "10.0.0.1" |};
    {| Pod_Name := "b"; Pod_NodeIp := "10.0.0.2" |};
    {| Pod_Name := "c"; Pod_NodeIp := "10.0.0.1" |} ].

Lemma getPodCountStatistics_counts_pods_sample :
  default 0 (fold_left countPod sample_pods ∅ !! "10.0.0.1")
  = pods_on "10.0.0.1" sample_pods.
Proof.
  exact (getPodCountStatistics_counts_pods sample_pods _ eq_refl "10.0.0.1").
Defined.

(** ** Roles *)

Lemma prefix_app (p r : string) : String.prefix p (p +:+ r) = true.
Proof.
  induction p as [| a p IH]; simpl.
  - by destruct r.
  - destruct (Ascii.ascii_dec a a); [done | congruence].
Qed.

Lemma string_drop_app (p r : string) :
  string_drop (String.length p) (p +:+ r) = r.
Proof. induction p as [| a p IH]; simpl; [done | exact IH]. Qed.

Lemma prefix_drop (p : string) :
  forall key, String.prefix p key = true ->
  key = p +:+ string_drop (String.length p) key.
Proof.
  induction p as [| a p IH]; intros key Hp; simpl.
  - done.
  - destruct key as [| b key]; simpl in Hp; [discriminate |].
    destruct (Ascii.ascii_dec a b) as [-> |]; [| discriminate].
    change (String b key
            = String b (p +:+ string_drop (String.length p) key)).
    f_equal. by apply IH.
Qed.

(** What one label contributes: its role, when it names one. *)
Definition role_of (key : string) : option string :=
  if String.prefix nodeRoleKeyPrefix key then
    let value := string_drop (String.length nodeRoleKeyPrefix) key in
    if negb (String.eqb value "") then Some value else None
  else None.

Lemma role_of_Some (key role : string) :
  role_of key = Some role <-> role <> "" /\ key = nodeRoleKeyPrefix +:+ role.
Proof.
  unfold role_of. split.
  - destruct (String.prefix nodeRoleKeyPrefix key) eqn:Hp; [| discriminate].
    destruct (String.eqb _ "") eqn:He; simpl; [discriminate |].
    intros [= <-]. apply String.eqb_neq in He. split; [done |].
    by apply prefix_drop.
  - intros [Hne ->]. rewrite prefix_app, string_drop_app.
    apply String.eqb_neq in Hne. by rewrite Hne.
Qed.

Lemma fold_roleStep (entries : list (string * string)) :
  forall roles,
  fold_left roleStep entries roles = roles ++ omap (fun kv => role_of kv.1) entries.
Proof.
  induction entries as [| kv rest IH]; intros roles; simpl.
  - by rewrite app_nil_r.
  - rewrite IH. unfold roleStep, role_of.
    destruct (String.prefix nodeRoleKeyPrefix kv.1); [| done].
    destruct (negb _); [| done]. by rewrite <- app_assoc.
Qed.

Lemma role_of_inj (key1 key2 role : string) :
  role_of key1 = Some role -> role_of key2 = Some role -> key1 = key2.
Proof.
  intros H1 H2. apply role_of_Some in H1 as [_ ->].
  by apply role_of_Some in H2 as [_ ->].
Qed.

Lemma NoDup_roles (keys : list string) :
  NoDup keys -> NoDup (omap role_of keys).
Proof.
  induction 1 as [| key keys Hnotin Hnd IH]; simpl; [apply NoDup_nil_2 |].
  destruct (role_of key) as [role |] eqn:Hrole; [| done].
  apply NoDup_cons. split; [| done].
  intros Hin. apply list_elem_of_omap in Hin as (key2 & Hin2 & Hrole2).
  by rewrite (role_of_inj _ _ _ Hrole Hrole2) in Hnotin.
Qed.

(** The roles of a node are the non-empty suffixes of its labels under
    [node-role.kubernetes.io/], each once, whatever order the labels
    are visited in. *)
Theorem RoleList_is_the_role_labels
    (rangeLabels : gmap string string -> list (string * string))
    (k : KubernetesNodeJsonParser) :
  rangeLabels (Metadata_Labels k) ≡ₚ map_to_list (Metadata_Labels k) ->
  NoDup (RoleList rangeLabels k)
  /\ forall role,
       role ∈ RoleList rangeLabels k <->
       role <> ""
       /\ is_Some (Metadata_Labels k !! (nodeRoleKeyPrefix +:+ role)).
Proof.
  intros Hperm. unfold RoleList. rewrite fold_roleStep. simpl.
  assert (Hcomp : omap (fun kv : string * string => role_of kv.1)
                    (rangeLabels (Metadata_Labels k))
                  = omap role_of (rangeLabels (Metadata_Labels k)).*1).
  { generalize (rangeLabels (Metadata_Labels k)). intros l.
    induction l as [| kv l IH]; csimpl; [done |].
    rewrite IH. by destruct (role_of kv.1). }
  rewrite Hcomp. split.
  - apply NoDup_roles. rewrite Hperm. apply NoDup_fst_map_to_list.
  - intros role. rewrite list_elem_of_omap. split.
    + intros (key & Hin & Hrole). apply role_of_Some in Hrole as [Hne ->].
      split; [done |]. rewrite Hperm in Hin.
      apply list_elem_of_fmap in Hin as ([key v] & Hk & Hin). simpl in Hk.
      apply elem_of_map_to_list in Hin. exists v. by rewrite Hk.
    + intros [Hne [v Hv]]. exists (nodeRoleKeyPrefix +:+ role). split.
      * rewrite Hperm. apply list_elem_of_fmap.
        exists (nodeRoleKeyPrefix +:+ role, v). split; [done |].
        by apply elem_of_map_to_list.
      * apply role_of_Some. by split.
Qed.

Definition sample_labels : gmap string string :=
  list_to_map
    [("kubernetes.io/os", "linux");
     ("node-role.kubernetes.io/master", "");
     ("node-role.kubernetes.io/", "x");
     ("node-role.kubernetes.io/worker", "true")].

Definition sample_node : NodeInfo :=
  {| Spec := list_to_map
       [("unschedulable", JBool true);
        ("taints",
         JArray
           [JObject (list_to_map
              [("key", JString "role"); ("value", JString "gpu");
               ("effect", JString "NoSchedule")]);
            JObject ∅; JString "dedicated"])];
     Status_Addresses :=
       [ {| Address_Address := "node-1"; Address_Type := "Hostname" |};
         {| Address_Address := "10.0.0.1"; Address_Type := "InternalIP" |} ];
     Status_Conditions :=
       [ {| Condition_Message := ""; Condition_Reason := "";
            Condition_Status := "False"; Condition_Type := "MemoryPressure" |};
         {| Condition_Message := ""; Condition_Reason := "";
            Condition_Status := "True"; Condition_Type := "Ready" |} ];
     Metadata_CreationTimestamp := None;
     Metadata_CreationTimestampB := Some 1000;
     Metadata_Labels := sample_labels;
     Metadata_Name := "node-1";
     Metadata_ResourceVersion := "7";
     Subsets := [] |}.

Lemma RoleList_is_the_role_labels_sample :
  NoDup (RoleList map_to_list sample_node)
  /\ forall role,
       role ∈ RoleList map_to_list sample_node <->
       role <> ""
       /\ is_Some (Metadata_Labels sample_node !! (nodeRoleKeyPrefix +:+ role)).
Proof.
  apply (RoleList_is_the_role_labels map_to_list sample_node). reflexivity.
Defined.

(** ** Taints *)

Lemma taintLabel_blank (key value effect : string) :
  taintLabel key value effect = "=:" ->
  key = "" /\ value = "" /\ effect = "".
Proof.
  unfold taintLabel. intros H.
  destruct key as [| a [| b key]]; simpl in H.
  - destruct value as [| c [| d value]]; simpl in H.
    + by inversion H.
    + inversion H.
    + inversion H.
  - inversion H.
  - destruct key; inversion H.
Qed.

Section GetStringFacts.
Variable GetString : gmap string json -> string -> string * bool.

Lemma taintStep_keeps (P : string -> Prop) (labels : list string)
    (taintInterface : json) :
  (forall key value effect,
     ~ (key = "" /\ value = "" /\ effect = "") ->
     P (taintLabel key value effect)) ->
  Forall P labels -> Forall P (taintStep GetString labels taintInterface).
Proof.
  intros HP Hl. unfold taintStep.
  destruct taintInterface as [| | | | | taint]; try done.
  destruct (String.eqb _ "" && String.eqb _ "" && String.eqb _ "") eqn:He;
    [done |].
  apply Forall_app. split; [done |]. apply Forall_singleton. apply HP.
  intros (Hk & Hv & Hf). rewrite Hk, Hv, Hf in He. discriminate.
Qed.

Lemma TaintLabels_Forall (P : string -> Prop) (k : KubernetesNodeJsonParser) :
  (forall key value effect,
     ~ (key = "" /\ value = "" /\ effect = "") ->
     P (taintLabel key value effect)) ->
  Forall P (TaintLabels GetString k).
Proof.
  intros HP. unfold TaintLabels.
  destruct (Spec k !! "taints") as [[| | | | taints |] |]; try apply Forall_nil_2.
  assert (Hgen : forall labels, Forall P labels ->
                   Forall P (fold_left (taintStep GetString) taints labels)).
  { induction taints as [| t rest IH]; intros labels Hl; simpl; [done |].
    apply IH. by apply taintStep_keeps. }
  apply Hgen. apply Forall_nil_2.
Qed.

(** A taint whose key, value and effect are all empty or missing gives
    no label: the blank label [=:] never appears among the taint labels
    of a node. *)
Theorem TaintLabels_has_no_blank_label (k : KubernetesNodeJsonParser) :
  "=:" ∉ TaintLabels GetString k.
Proof.
  intros Hin.
  pose proof (TaintLabels_Forall (fun l => l <> "=:") k) as HF.
  rewrite Forall_forall in HF. eapply HF; [| exact Hin | done].
  intros key value effect Hne Heq. apply Hne. by apply taintLabel_blank.
Qed.

(** ** Endpoints *)

Lemma addressStep_unnamed (name : string) (addressList : list json) :
  (forall addressMap, JObject addressMap ∈ addressList ->
     (GetString addressMap "nodeName").1 <> name) ->
  fold_left (addressStep GetString name) addressList 0 = 0.
Proof.
  induction addressList as [| a rest IH]; intros Hno; simpl; [done |].
  assert (Hstep : addressStep GetString name 0 a = 0).
  { unfold addressStep. destruct a as [| | | | | addressMap]; try done.
    destruct (String.eqb name _) eqn:He; [| done].
    apply String.eqb_eq in He. exfalso.
    apply (Hno addressMap); [apply list_elem_of_here | done]. }
  rewrite Hstep. apply IH. intros m Hm. apply Hno.
  by apply list_elem_of_further.
Qed.

(** The addresses of a subset that name the node. *)
Definition names_node (name : string) (subset : gmap string json) : Prop :=
  exists addressList addressMap,
    subset !! "addresses" = Some (JArray addressList)
    /\ JObject addressMap ∈ addressList
    /\ (GetString addressMap "nodeName").1 = name.

Lemma subsetStep_unnamed (name : string) (subset : gmap string json) :
  ~ names_node name subset ->
  subsetStep GetString name 0 subset = 0.
Proof.
  intros Hno. unfold subsetStep.
  destruct (subset !! "addresses") as [[| | | | addressList |] |] eqn:Ha;
    try done.
  rewrite addressStep_unnamed.
  - by destruct (subset !! "ports").
  - intros m Hm Hn. apply Hno. by exists addressList, m.
Qed.

(** A node that no address of any subset names has no endpoints. *)
Theorem GetEndpointsCount_zero_when_unnamed (k : KubernetesNodeJsonParser)
    (endpoints : list NodeInfo) :
  (forall endpoint subset,
     endpoint ∈ endpoints -> subset ∈ Subsets endpoint ->
     ~ names_node (Name k) subset) ->
  GetEndpointsCount GetString k endpoints = 0.
Proof.
  unfold GetEndpointsCount. intros Hno.
  induction endpoints as [| endpoint rest IH]; simpl; [done |].
  assert (Hsub : fold_left (subsetStep GetString (Name k)) (Subsets endpoint) 0
                 = 0).
  { assert (Hall : forall subset, subset ∈ Subsets endpoint ->
                     ~ names_node (Name k) subset).
    { intros subset Hs. apply (Hno endpoint); [apply list_elem_of_here | done]. }
    induction (Subsets endpoint) as [| subset subs IHs]; simpl; [done |].
    rewrite subsetStep_unnamed by (apply Hall; apply list_elem_of_here).
    apply IHs. intros sub Hs. apply Hall. by apply list_elem_of_further. }
  rewrite Hsub. apply IH. intros e sub He. apply Hno.
  by apply list_elem_of_further.
Qed.

End GetStringFacts.

(** ** Status *)

Lemma append_empty_r (s : string) : s +:+ "" = s.
Proof.
  induction s as [| a s IH]; [done |].
  change (String a (s +:+ "") = String a s). by rewrite IH.
Qed.

Lemma Join_cons (w : string) (rest : list string) (sep : string) :
  exists tail, Join (w :: rest) sep = w +:+ tail.
Proof.
  destruct rest as [| r rest]; simpl.
  - exists "". by rewrite append_empty_r.
  - by eexists.
Qed.

Definition readiness : list string := ["Ready"; "NotReady"; "Unknown"].

Lemma fold_conditionStep_head (conditions : list Condition) :
  forall statusList,
  match statusList with [] => True | w :: _ => w ∈ readiness end ->
  match fold_left conditionStep conditions statusList with
  | [] => True
  | w :: _ => w ∈ readiness
  end.
Proof.
  induction conditions as [| c rest IH]; intros statusList Hh; simpl; [done |].
  apply IH. unfold conditionStep.
  destruct (String.eqb (Condition_Type c) "Ready"); [| done].
  destruct (String.eqb (Condition_Status c) "True");
    destruct statusList; simpl; try done; unfold readiness.
  - apply list_elem_of_here.
  - apply list_elem_of_further, list_elem_of_here.
Qed.

(** Whenever [ServiceStatus] returns, the status starts with the
    readiness of the node: Ready, NotReady or, without a Ready
    condition, Unknown. *)
Theorem ServiceStatus_starts_with_readiness (k : KubernetesNodeJsonParser)
    (status : string) :
  ServiceStatus k = Some status ->
  exists w tail, w ∈ readiness /\ status = w +:+ tail.
Proof.
  unfold ServiceStatus. intros Hs.
  pose proof (fold_conditionStep_head (Status_Conditions k) [] I) as Hh.
  set (statusList := fold_left conditionStep (Status_Conditions k) []) in *.
  assert (Hlist : exists w rest,
            w ∈ readiness
            /\ (if bool_decide (length statusList = 0%nat)
                then statusList ++ ["Unknown"] else statusList) = w :: rest).
  { destruct statusList as [| w rest]; simpl.
    - exists "Unknown", []. split; [| done].
      unfold readiness. do 2 apply list_elem_of_further. apply list_elem_of_here.
    - by exists w, rest. }
  destruct Hlist as (w & rest & Hw & Hl). rewrite Hl in Hs.
  exists w.
  destruct (Spec k !! "unschedulable") as [[| [|] | | | |] |];
    try discriminate; injection Hs as <-.
  - destruct (Join_cons w (rest ++ ["SchedulingDisabled"]) ",") as [tail Ht].
    exists tail. split; [done |]. exact Ht.
  - destruct (Join_cons w rest ",") as [tail Ht]. by exists tail.
  - destruct (Join_cons w rest ",") as [tail Ht]. by exists tail.
Qed.

Lemma ServiceStatus_starts_with_readiness_sample :
  exists w tail, w ∈ readiness /\ "Ready,SchedulingDisabled" = w +:+ tail.
Proof.
  exact (ServiceStatus_starts_with_readiness sample_node _ eq_refl).
Defined.

(** A reading of [GetString] for the examples: the value under the key
    when it is a string. *)
Definition sample_GetString (m : gmap string json) (key : string)
    : string * bool :=
  match m !! key with
  | Some (JString s) => (s, true)
  | _ => ("", false)
  end.

Example TaintLabels_sample :
  TaintLabels sample_GetString sample_node = ["role=gpu:NoSchedule"].
Proof. vm_compute. reflexivity. Qed.

Definition sample_endpoints : list NodeInfo :=
  [ {| Spec := ∅; Status_Addresses := []; Status_Conditions := [];
       Metadata_CreationTimestamp := None;
       Metadata_CreationTimestampB := None;
       Metadata_Labels := ∅; Metadata_Name := "svc";
       Metadata_ResourceVersion := "";
       Subsets :=
         [ list_to_map
             [("addresses",
               JArray [JObject {[ "nodeName" := JString "node-2" ]};
                       JObject {[ "ip" := JString "10.0.0.9" ]}]);
              ("ports", JArray [JObject ∅; JObject ∅])] ] |} ].

Lemma sample_endpoints_unnamed :
  forall endpoint subset,
    endpoint ∈ sample_endpoints -> subset ∈ Subsets endpoint ->
    ~ names_node sample_GetString (Name sample_node) subset.
Proof.
  intros endpoint subset He Hs (addressList & addressMap & Ha & Hm & Hn).
  apply list_elem_of_singleton in He. subst endpoint. simpl in Hs.
  apply list_elem_of_singleton in Hs. subst subset.
  vm_compute in Ha. injection Ha as <-.
  apply elem_of_cons in Hm as [Hm | Hm].
  - injection Hm as ->. vm_compute in Hn. discriminate.
  - apply list_elem_of_singleton in Hm. injection Hm as ->.
    vm_compute in Hn. discriminate.
Defined.

Lemma GetEndpointsCount_zero_when_unnamed_sample :
  GetEndpointsCount sample_GetString sample_node sample_endpoints = 0.
Proof.
  exact (GetEndpointsCount_zero_when_unnamed sample_GetString sample_node
           sample_endpoints sample_endpoints_unnamed).
Defined.

End NodeParser.

(* ================================================================== *)
(** * Package [service]: the host query sent to the inventory *)
(* ================================================================== *)

Module HostQuery.

(** A rule of the filter: [{"field", "operator": "in", "value": ips}] or
    [{"field", "operator": "equal", "value": cloudId}]. *)
Inductive rule :=
| RuleIn (field : string) (value : list string)
| RuleEqual (field : string) (value : Z).

(** [{"condition": condition, "rules": rules}]. *)
Record condition := {
  Condition : string;
  Rules : list rule;
}.

(** [finalCondition]: the one condition, or the conditions under OR. *)
Inductive property_filter :=
| Single (c : condition)
| AnyOf (conditions : list condition).

Record params := {
  bk_biz_id : Z;
  host_property_filter : property_filter;
  fields : list string;
  page_limit : Z;
}.

Definition host_fields : list string :=
  ["bk_host_innerip"; "bk_host_innerip_v6"; "bk_cloud_id"; "bk_host_id";
   "bk_biz_id"; "bk_agent_id"; "bk_host_outerip"; "bk_host_outerip_v6";
   "bk_host_name"; "bk_os_name"; "bk_os_type"; "operator";
   "bk_bak_operator"; "bk_state_name"; "bk_isp_name"; "bk_province_name";
   "bk_supplier_account"; "bk_state"; "bk_os_version";
   "service_template_id"; "srv_status"; "bk_comment"; "idc_unit_name";
   "net_device_id"; "rack_id"; "bk_svr_device_cls_name"; "svr_device_class"].

(** The first loop: the addresses of each cloud, in the order given. *)
Definition groupStep (cloudDict : gmap Z (list string))
    (param : Service.GetHostByIpParams) : gmap Z (list string) :=
  match cloudDict !! Service.ParamBkCloudId param with
  | Some ls =>
      <[Service.ParamBkCloudId param := ls ++ [Service.Ip param]]> cloudDict
  | None => <[Service.ParamBkCloudId param := [Service.Ip param]]> cloudDict
  end.

Section ProcessParams.
(** [isIPv6]: [net.ParseIP] accepts the text and it has no 4-byte form. *)
Variable isIPv6 : string -> bool.
(** The order in which [range cloudDict] yields the entries. *)
Variable rangeCloudDict : gmap Z (list string) -> list (Z * list string).

Definition splitStep (acc : list string * list string) (ip : string)
    : list string * list string :=
  let (ipv6IPs, ipv4IPs) := acc in
  if isIPv6 ip then (ipv6IPs ++ [ip], ipv4IPs) else (ipv6IPs, ipv4IPs ++ [ip]).

(** One turn of the loop over [cloudDict]. *)
Definition cloudStep (conditions : list condition)
    (entry : Z * list string) : list condition :=
  let (cloudId, ipList) := entry in
  let (ipv6IPs, ipv4IPs) := fold_left splitStep ipList ([], []) in
  let ipv4Rules := [RuleIn "bk_host_innerip" ipv4IPs] in
  let ipv6Rules := [RuleIn "bk_host_innerip_v6" ipv6IPs] in
  let ipv4Rules :=
    if bool_decide (cloudId <> -1)
    then ipv4Rules ++ [RuleEqual "bk_cloud_id" cloudId] else ipv4Rules in
  let ipv6Rules :=
    if bool_decide (cloudId <> -1)
    then ipv6Rules ++ [RuleEqual "bk_cloud_id" cloudId] else ipv6Rules in
  let ipv4Condition := {| Condition := "AND"; Rules := ipv4Rules |} in
  let ipv6Condition := {| Condition := "AND"; Rules := ipv6Rules |} in
  let conditions :=
    if bool_decide (0 < length ipv4IPs)%nat
    then conditions ++ [ipv4Condition] else conditions in
  if bool_decide (0 < length ipv6IPs)%nat
  then conditions ++ [ipv6Condition] else conditions.

Definition buildConditions (ips : list Service.GetHostByIpParams)
    : list condition :=
  fold_left cloudStep (rangeCloudDict (fold_left groupStep ips ∅)) [].

Definition processParams (bkBizID : Z)
    (ips : list Service.GetHostByIpParams) : params :=
  let conditions := buildConditions ips in
  let finalCondition :=
    match conditions with
    | [c] => Single c
    | _ => AnyOf conditions
    end in
  {| bk_biz_id := bkBizID;
     host_property_filter := finalCondition;
     fields := host_fields;
     page_limit := 500 |}.

End ProcessParams.

(** The conditions a filter holds. *)
Definition conditions_of (f : property_filter) : list condition :=
  match f with
  | Single c => [c]
  | AnyOf conditions => conditions
  end.

(** The addresses a condition asks for. *)
Definition rule_ips (r : rule) : list string :=
  match r with
  | RuleIn _ value => value
  | RuleEqual _ _ => []
  end.

Definition condition_ips (c : condition) : list string :=
  mjoin (rule_ips <$> Rules c).

Definition requested_ips (f : property_filter) : list string :=
  mjoin (condition_ips <$> conditions_of f).

(** The rule on the cloud that follows the addresses of a condition. *)
Definition cloud_rules (cloudId : Z) : list rule :=
  if bool_decide (cloudId <> -1) then [RuleEqual "bk_cloud_id" cloudId]
  else [].

(** The field under which an address is asked for. *)
Definition ip_field (isIPv6 : string -> bool) (ip : string) : string :=
  if isIPv6 ip then "bk_host_innerip_v6" else "bk_host_innerip".

(** A condition that asks for addresses requested in one cloud, all of
    one version, and for at least one. *)
Definition asks_one_cloud (isIPv6 : string -> bool)
    (ips : list Service.GetHostByIpParams) (c : condition) : Prop :=
  exists cloudId field value,
    c = {| Condition := "AND";
           Rules := RuleIn field value :: cloud_rules cloudId |}
    /\ value <> []
    /\ Forall (fun ip =>
         {| Service.Ip := ip; Service.ParamBkCloudId := cloudId |} ∈ ips
         /\ field = ip_field isIPv6 ip) value.

Lemma groupStep_ips (cloudDict : gmap Z (list string))
    (param : Service.GetHostByIpParams) :
  mjoin (map_to_list (groupStep cloudDict param)).*2
  ≡ₚ mjoin (map_to_list cloudDict).*2 ++ [Service.Ip param].
Proof.
  unfold groupStep.
  destruct (cloudDict !! Service.ParamBkCloudId param) as [ls |] eqn:Hl.
  - rewrite <- (insert_delete_id cloudDict _ _ Hl) at 2.
    rewrite <- insert_delete_eq.
    rewrite !map_to_list_insert by apply lookup_delete_eq.
    csimpl. rewrite <- !app_assoc.
    apply Permutation_app_head. apply Permutation_app_comm.
  - rewrite map_to_list_insert by done. csimpl.
    apply Permutation_cons_append.
Qed.

Lemma fold_groupStep_ips (ips : list Service.GetHostByIpParams) :
  forall cloudDict,
  mjoin (map_to_list (fold_left groupStep ips cloudDict)).*2
  ≡ₚ mjoin (map_to_list cloudDict).*2 ++ (Service.Ip <$> ips).
Proof.
  induction ips as [| param rest IH]; intros cloudDict; simpl.
  - by rewrite app_nil_r.
  - rewrite IH, groupStep_ips. csimpl. by rewrite <- app_assoc.
Qed.

(** Every address of a group was requested in the cloud of the group. *)
Definition grouped (ips : list Service.GetHostByIpParams)
    (cloudDict : gmap Z (list string)) : Prop :=
  forall cloudId ls ip,
    cloudDict !! cloudId = Some ls -> ip ∈ ls ->
    {| Service.Ip := ip; Service.ParamBkCloudId := cloudId |} ∈ ips.

Lemma fold_groupStep_grouped (all : list Service.GetHostByIpParams)
    (ips : list Service.GetHostByIpParams) :
  forall cloudDict,
  ips ⊆ all -> grouped all cloudDict ->
  grouped all (fold_left groupStep ips cloudDict).
Proof.
  induction ips as [| param rest IH]; intros cloudDict Hsub Hg; simpl;
    [done |].
  apply IH.
  - intros x Hx. apply Hsub. by apply list_elem_of_further.
  - assert (Hp : param ∈ all) by (apply Hsub; apply list_elem_of_here).
    destruct param as [pip pcloud]. unfold groupStep. simpl.
    intros cloudId ls ip Hl Hin.
    destruct (cloudDict !! pcloud) as [old |] eqn:Hold.
    + destruct (decide (cloudId = pcloud)) as [-> | Hne].
      * rewrite lookup_insert_eq in Hl. injection Hl as <-.
        apply elem_of_app in Hin as [Hin | Hin]; [by apply (Hg _ old) |].
        apply list_elem_of_singleton in Hin. by subst ip.
      * rewrite lookup_insert_ne in Hl by done. by apply (Hg _ ls).
    + destruct (decide (cloudId = pcloud)) as [-> | Hne].
      * rewrite lookup_insert_eq in Hl. injection Hl as <-.
        apply list_elem_of_singleton in Hin. by subst ip.
      * rewrite lookup_insert_ne in Hl by done. by apply (Hg _ ls).
Qed.

Section ProcessParamsFacts.
Variable isIPv6 : string -> bool.
Variable rangeCloudDict : gmap Z (list string) -> list (Z * list string).

Lemma fold_splitStep (ipList : list string) :
  forall ipv6IPs ipv4IPs,
  fold_left (splitStep isIPv6) ipList (ipv6IPs, ipv4IPs)
  = (ipv6IPs ++ filter (fun ip => isIPv6 ip = true) ipList,
     ipv4IPs ++ filter (fun ip => isIPv6 ip = false) ipList).
Proof.
  induction ipList as [| ip rest IH]; intros ipv6IPs ipv4IPs; simpl.
  - by rewrite !app_nil_r.
  - destruct (isIPv6 ip) eqn:Hv; rewrite IH.
    + rewrite filter_cons_True by done. rewrite filter_cons_False by congruence.
      by rewrite <- app_assoc.
    + rewrite filter_cons_False by congruence. rewrite filter_cons_True by done.
      by rewrite <- app_assoc.
Qed.

Lemma split_permutes (ipList : list string) :
  filter (fun ip => isIPv6 ip = false) ipList
  ++ filter (fun ip => isIPv6 ip = true) ipList ≡ₚ ipList.
Proof.
  induction ipList as [| ip rest IH]; [done |].
  destruct (isIPv6 ip) eqn:Hv.
  - rewrite filter_cons_False by congruence. rewrite filter_cons_True by done.
    rewrite <- Permutation_middle. by constructor.
  - rewrite filter_cons_True by done. rewrite filter_cons_False by congruence.
    simpl. by constructor.
Qed.

Lemma condition_ips_in (field : string) (value : list string) (cloudId : Z) :
  condition_ips {| Condition := "AND";
                   Rules := RuleIn field value :: cloud_rules cloudId |}
  = value.
Proof.
  unfold condition_ips, cloud_rules. simpl.
  destruct (bool_decide (cloudId <> -1)); simpl; by rewrite ?app_nil_r.
Qed.

(** One turn appends the condition of the version-4 addresses of the
    cloud, then that of its version-6 addresses, each when there is one. *)
Lemma cloudStep_appends (conditions : list condition) (cloudId : Z)
    (ipList : list string) :
  cloudStep isIPv6 conditions (cloudId, ipList)
  = conditions
    ++ (let value := filter (fun ip => isIPv6 ip = false) ipList in
        if bool_decide (0 < length value)%nat
        then [ {| Condition := "AND";
                  Rules := RuleIn "bk_host_innerip" value
                           :: cloud_rules cloudId |} ]
        else [])
    ++ (let value := filter (fun ip => isIPv6 ip = true) ipList in
        if bool_decide (0 < length value)%nat
        then [ {| Condition := "AND";
                  Rules := RuleIn "bk_host_innerip_v6" value
                           :: cloud_rules cloudId |} ]
        else []).
Proof.
  unfold cloudStep. rewrite fold_splitStep. simpl. unfold cloud_rules.
  destruct (bool_decide (cloudId <> -1));
    destruct (bool_decide (0 < length (filter _ ipList))%nat);
    destruct (bool_decide (0 < length (filter _ ipList))%nat);
    simpl; by rewrite ?app_nil_r, <- ?app_assoc.
Qed.

Lemma optional_condition_ips (field : string) (value : list string)
    (cloudId : Z) :
  mjoin (condition_ips
           <$> (if bool_decide (0 < length value)%nat
                then [ {| Condition := "AND";
                          Rules := RuleIn field value :: cloud_rules cloudId |} ]
                else []))
  = value.
Proof.
  destruct (bool_decide (0 < length value)%nat) eqn:Hlen.
  - rewrite list_fmap_singleton. rewrite condition_ips_in.
    simpl. by rewrite app_nil_r.
  - apply bool_decide_eq_false in Hlen.
    destruct value; [done | simpl in Hlen; lia].
Qed.

Lemma cloudStep_ips (conditions : list condition) (cloudId : Z)
    (ipList : list string) :
  mjoin (condition_ips <$> cloudStep isIPv6 conditions (cloudId, ipList))
  ≡ₚ mjoin (condition_ips <$> conditions) ++ ipList.
Proof.
  rewrite cloudStep_appends. rewrite !fmap_app, !join_app.
  apply Permutation_app_head.
  etransitivity; [| apply split_permutes].
  cbv zeta. by rewrite !optional_condition_ips.
Qed.

Lemma fold_cloudStep_ips (entries : list (Z * list string)) :
  forall conditions,
  mjoin (condition_ips <$> fold_left (cloudStep isIPv6) entries conditions)
  ≡ₚ mjoin (condition_ips <$> conditions) ++ mjoin entries.*2.
Proof.
  induction entries as [| [cloudId ipList] rest IH]; intros conditions;
    cbn [fold_left].
  - simpl. by rewrite app_nil_r.
  - rewrite IH, cloudStep_ips. csimpl. by rewrite <- app_assoc.
Qed.

Lemma conditions_of_processParams (bkBizID : Z)
    (ips : list Service.GetHostByIpParams) :
  conditions_of
    (host_property_filter (processParams isIPv6 rangeCloudDict bkBizID ips))
  = buildConditions isIPv6 rangeCloudDict ips.
Proof.
  unfold processParams. simpl.
  by destruct (buildConditions isIPv6 rangeCloudDict ips) as [| c [| c' l]].
Qed.

Lemma filter_asks (all : list Service.GetHostByIpParams) (cloudId : Z)
    (ipList : list string) (v : bool) :
  (forall ip, ip ∈ ipList ->
     {| Service.Ip := ip; Service.ParamBkCloudId := cloudId |} ∈ all) ->
  Forall (asks_one_cloud isIPv6 all)
    (let value := filter (fun ip => isIPv6 ip = v) ipList in
     if bool_decide (0 < length value)%nat
     then [ {| Condition := "AND";
               Rules := RuleIn (if v then "bk_host_innerip_v6"
                                else "bk_host_innerip") value
                        :: cloud_rules cloudId |} ]
     else []).
Proof.
  intros Hall. simpl.
  destruct (bool_decide (0 < length (filter _ ipList))%nat) eqn:Hlen;
    [| apply Forall_nil_2].
  apply bool_decide_eq_true in Hlen.
  apply Forall_singleton. eexists cloudId, _, _. split; [reflexivity |].
  split.
  - intros Hnil. rewrite Hnil in Hlen. simpl in Hlen. lia.
  - apply Forall_forall. intros ip Hin.
    apply list_elem_of_filter in Hin as [Hv Hin].
    split; [by apply Hall |]. unfold ip_field. by rewrite Hv.
Qed.

Lemma fold_cloudStep_asks (all : list Service.GetHostByIpParams)
    (entries : list (Z * list string)) :
  forall conditions,
  (forall cloudId ipList ip, (cloudId, ipList) ∈ entries -> ip ∈ ipList ->
     {| Service.Ip := ip; Service.ParamBkCloudId := cloudId |} ∈ all) ->
  Forall (asks_one_cloud isIPv6 all) conditions ->
  Forall (asks_one_cloud isIPv6 all)
    (fold_left (cloudStep isIPv6) entries conditions).
Proof.
  induction entries as [| [cloudId ipList] rest IH]; intros conditions Hall Hc;
    cbn [fold_left]; [done |].
  apply IH.
  - intros c l ip Hin. apply Hall. by apply list_elem_of_further.
  - rewrite cloudStep_appends.
    assert (Hips : forall ip, ip ∈ ipList ->
              {| Service.Ip := ip; Service.ParamBkCloudId := cloudId |} ∈ all).
    { intros ip Hin. apply (Hall cloudId ipList); [apply list_elem_of_here | done]. }
    apply Forall_app. split; [done |]. apply Forall_app. split.
    + exact (filter_asks all cloudId ipList false Hips).
    + exact (filter_asks all cloudId ipList true Hips).
Qed.

(** Whatever order the clouds are visited in. *)
Hypothesis range_permutes :
  forall m : gmap Z (list string), rangeCloudDict m ≡ₚ map_to_list m.

(** The filter asks for every requested address, as often as it was
    requested, and for no other. *)
Theorem processParams_asks_for_the_requested_ips (bkBizID : Z)
    (ips : list Service.GetHostByIpParams) :
  requested_ips
    (host_property_filter (processParams isIPv6 rangeCloudDict bkBizID ips))
  ≡ₚ Service.Ip <$> ips.
Proof.
  unfold requested_ips. rewrite conditions_of_processParams.
  unfold buildConditions. rewrite fold_cloudStep_ips. simpl.
  rewrite range_permutes. rewrite fold_groupStep_ips.
  by rewrite map_to_list_empty.
Qed.

(** Every condition of the filter is an AND over one non-empty list of
    addresses, all requested in the same cloud and all of the same
    version, under the field of that version, followed by the rule on
    the cloud unless the cloud is -1. *)
Theorem processParams_conditions_ask_one_cloud (bkBizID : Z)
    (ips : list Service.GetHostByIpParams) :
  Forall (asks_one_cloud isIPv6 ips)
    (conditions_of
       (host_property_filter
          (processParams isIPv6 rangeCloudDict bkBizID ips))).
Proof.
  rewrite conditions_of_processParams. unfold buildConditions.
  apply fold_cloudStep_asks; [| apply Forall_nil_2].
  intros cloudId ipList ip Hin Hip. rewrite range_permutes in Hin.
  apply elem_of_map_to_list in Hin.
  apply (fold_groupStep_grouped ips ips ∅ (reflexivity _)
           (fun c ls i H => ltac:(by rewrite lookup_empty in H))
           cloudId ipList ip Hin Hip).
Qed.

End ProcessParamsFacts.

(** A reading of [isIPv6] for the examples: the text holds a colon. *)
Definition sample_isIPv6 (ip : string) : bool :=
  bool_decide (Ascii.ascii_of_nat 58 ∈ String.list_ascii_of_string ip).

Definition sample_request : list Service.GetHostByIpParams :=
  [ {| Service.Ip := "10.0.0.1"; Service.ParamBkCloudId := -1 |};
    {| Service.Ip := "fe80::1"; Service.ParamBkCloudId := 3 |};
    {| Service.Ip := "10.0.0.2"; Service.ParamBkCloudId := -1 |} ].

Lemma processParams_asks_for_the_requested_ips_sample :
  requested_ips
    (host_property_filter
       (processParams sample_isIPv6 map_to_list 7 sample_request))
  ≡ₚ Service.Ip <$> sample_request.
Proof.
  apply (processParams_asks_for_the_requested_ips sample_isIPv6 map_to_list).
  reflexivity.
Defined.

Lemma processParams_conditions_ask_one_cloud_sample :
  Forall (asks_one_cloud sample_isIPv6 sample_request)
    (conditions_of
       (host_property_filter
          (processParams sample_isIPv6 map_to_list 7 sample_request))).
Proof.
  apply (processParams_conditions_ask_one_cloud sample_isIPv6 map_to_list).
  reflexivity.
Defined.

End HostQuery.
